(** * Essh configuration resolution engine: registries, field updaters,
      script normalizer, host queries and the module importer.

    A shallow embedding of the Lua binding layer of essh
    (the functions of the Lua bridge file and [Package.Load]) together with
    the properties stated about it. *)

From Stdlib Require Import ZArith String Ascii List Lia Bool.
From stdpp Require Import base option list gmap strings.

Set Warnings "-register-all".

Local Open Scope string_scope.
Local Open Scope list_scope.
Local Open Scope nat_scope.

(** ** Lua values

    [lua.LValue] of gopher-lua.  A table is given by its array part
    (position [i] holds index [i+1]; holes are [LNil]) and by its remaining
    entries, in the order [ForEach] visits them.  Tables declared in a
    configuration are only read by the code below, so they are values. *)

Inductive Kind := KHost | KTask | KDriver | KJob.

#[global] Instance Kind_eq_dec : EqDecision Kind.
Proof. solve_decision. Defined.

(** What a [*lua.LUserData] wraps: the address of a Go object. *)
Inductive UserData :=
| UHost (p : nat)
| UTask (p : nat)
| UDriver (p : nat)
| UJob (p : nat)
| UHostQuery (p : nat)
| URegistry (p : nat).

(** The Go closures that [hostQueryIndex] hands to Lua. *)
Inductive GFunction :=
| GQueryFilter
| GQueryGet
| GQueryFirstOuter
| GQueryFirstInner.

(** A [*lua.LFunction]: a Lua closure (opaque, named by an identifier) or a
    Go function. *)
Inductive Func :=
| LuaFn (id : nat)
| GoFn (g : GFunction).

Inductive LValue :=
| LNil
| LBool (b : bool)
| LString (s : string)
| LNumber (n : Z)
| LFunction (f : Func)
| LUserData (u : UserData)
| LTable (array : list LValue) (hash : list (LValue * LValue)).

Definition isNil (v : LValue) : bool :=
  match v with LNil => true | _ => false end.

(** [LTable.MaxN]: scanning the array part from its end, the index of the
    first entry that is not nil; 0 when there is none. *)
Fixpoint MaxN (array : list LValue) : nat :=
  match array with
  | [] => 0
  | x :: rest =>
      match MaxN rest with
      | 0 => if isNil x then 0 else 1
      | S k => S (S k)
      end
  end.

(** [LTable.RawGetInt], for the indices of the array part. *)
Definition RawGetInt (array : list LValue) (i : nat) : LValue :=
  match i with
  | 0 => LNil
  | S j => nth j array LNil
  end.

Definition isStringKey (key : string) (k : LValue) : bool :=
  match k with LString s => String.eqb s key | _ => false end.

(** [LTable.RawGetString]. *)
Fixpoint RawGetString (hash : list (LValue * LValue)) (key : string) : LValue :=
  match hash with
  | [] => LNil
  | (k, v) :: rest => if isStringKey key k then v else RawGetString rest key
  end.

Fixpoint arrayEntries (i : nat) (array : list LValue) : list (LValue * LValue) :=
  match array with
  | [] => []
  | v :: rest => (LNumber (Z.of_nat i), v) :: arrayEntries (S i) rest
  end.

(** The pairs [LTable.ForEach] passes to its callback: the array part with
    its indices, then the other entries; nil values are skipped.  Go walks
    the hash part in no fixed order; the list fixes one. *)
Definition ForEach (array : list LValue) (hash : list (LValue * LValue))
  : list (LValue * LValue) :=
  List.filter (fun kv => negb (isNil (snd kv))) (arrayEntries 1 array ++ hash).

(** ** Type sniffing helpers ([toBool], [toString], ...) *)

Definition toBool (v : LValue) : option bool :=
  match v with LBool b => Some b | _ => None end.

Definition toString (v : LValue) : option string :=
  match v with LString s => Some s | _ => None end.

Definition toLFunction (v : LValue) : option Func :=
  match v with LFunction f => Some f | _ => None end.

Definition toLTable (v : LValue) : option (list LValue * list (LValue * LValue)) :=
  match v with LTable a h => Some (a, h) | _ => None end.

Definition toLUserData (v : LValue) : option UserData :=
  match v with LUserData u => Some u | _ => None end.

Definition toFloat64 (v : LValue) : option Z :=
  match v with LNumber n => Some n | _ => None end.

(** ** Go values ([interface{}]) produced by the value bridge *)

Inductive GoValue :=
| GNil
| GBool (b : bool)
| GString (s : string)
| GFloat64 (n : Z)
| GMap (m : list (string * GoValue))
| GSlice (l : list GoValue)
| GLua (v : LValue).

(** [m[k] = v] on a Go map kept as an association list. *)
Fixpoint mapAssign {A : Type} (k : string) (v : A) (m : list (string * A))
  : list (string * A) :=
  match m with
  | [] => [(k, v)]
  | (k', v') :: rest =>
      if String.eqb k k' then (k, v) :: rest else (k', v') :: mapAssign k v rest
  end.

Section ValueBridge.

(** [fmt.Sprint], used for the keys of a converted map. *)
Variable Sprint : GoValue -> string.

Fixpoint toGoValue (lv : LValue) : GoValue :=
  match lv with
  | LNil => GNil
  | LBool b => GBool b
  | LString s => GString s
  | LNumber n => GFloat64 n
  | LTable array hash =>
      match MaxN array with
      | 0 =>
          GMap ((fix each (es : list (LValue * LValue))
                     (ret : list (string * GoValue)) {struct es} :=
                   match es with
                   | [] => ret
                   | (key, value) :: es' =>
                       each es'
                         (if isNil value then ret
                          else mapAssign (Sprint (toGoValue key))
                                 (toGoValue value) ret)
                   end) hash [])
      | S _ as maxn => GSlice (firstn maxn (List.map toGoValue array))
      end
  | v => GLua v
  end.

Definition toMap (v : LValue) : option (list (string * GoValue)) :=
  match toGoValue v with GMap m => Some m | _ => None end.

Definition toSlice (v : LValue) : option (list GoValue) :=
  match toGoValue v with
  | GSlice l => Some l
  | GMap m => if Nat.eqb (length m) 0 then Some [] else None
  | _ => None
  end.

End ValueBridge.

(** The [if s, ok := x.(string); ok { l = append(l, s) }] loop shared by
    every place that takes a list of strings. *)
Fixpoint appendStrings (acc : list string) (xs : list GoValue) : list string :=
  match xs with
  | [] => acc
  | GString s :: rest => appendStrings (acc ++ [s]) rest
  | _ :: rest => appendStrings acc rest
  end.

(** ** Entities *)

Inductive EngineFn :=
| EngineCallback (engineFn : Func)
| EngineFixed (engineStr : string).

Record Host := mkHost {
  hName : string;
  hRegistry : nat;
  hChild : option nat;
  hParent : option nat;
  hLValues : gmap string LValue;
  hSSHConfig : gmap string string;
  hProps : gmap string string;
  hTags : list string;
  hHooksBeforeConnect : list GoValue;
  hHooksAfterConnect : list GoValue;
  hHooksAfterDisconnect : list GoValue;
  hDescription : string;
  hHidden : bool
}.

Record Task := mkTask {
  tName : string;
  tRegistry : nat;
  tChild : option nat;
  tParent : option nat;
  tLValues : gmap string LValue;
  tBackend : string;
  tTargets : list string;
  tFilters : list string;
  tDescription : string;
  tPty : bool;
  tDriver : string;
  tParallel : bool;
  tPrivileged : bool;
  tDisabled : bool;
  tHidden : bool;
  tScript : list (gmap string string);
  tFile : string;
  tUsePrefix : bool;
  tPrefix : string;
  tPrepare : option Func;
  tProps : gmap string string;
  tArgs : list string
}.

Record Driver := mkDriver {
  dName : string;
  dRegistry : nat;
  dChild : option nat;
  dParent : option nat;
  dLValues : gmap string LValue;
  dEngine : option EngineFn
}.

(** A job carries no override link: [registerJob] records none. *)
Record Job := mkJob {
  jName : string;
  jDescription : string;
  jHidden : bool;
  jPrepare : option Func;
  jHosts : gmap string nat;
  jTasks : gmap string nat;
  jDrivers : gmap string nat;
  jLValues : gmap string LValue
}.

Record HostQuery := mkHostQuery {
  qDatasource : option (gmap string nat);
  qSelections : list string;
  qFilters : list string
}.

Record Package := mkPackage {
  pkgName : string;
  pkgValue : LValue
}.

Inductive RegistryType := RegistryTypeGlobal | RegistryTypeLocal.

Record Registry := mkRegistry {
  rDataDir : string;
  rType : RegistryType;
  rLoadedModules : gmap string Package
}.

(** Observable actions: standard output, the file system, the network
    fetch, and the calls into the Lua interpreter. *)
Inductive Event :=
| EvPrint (msg : string)
| EvStat (path : string)
| EvGetwd
| EvGet (src dst : string)
| EvDoFile (path : string)
| EvCall (fn : Func) (args : list LValue).

(** ** Outcomes

    How a Go function of the bridge ends: it returns; it returns a non-nil
    [error] to its caller; it raises a Lua error ([L.RaiseError]); or it
    panics.  [OutOfFuel] belongs to the model only: the recursion of the
    script normalizer through callables is bounded by a fuel argument. *)

Inductive Outcome (A : Type) :=
| Ok (a : A)
| Err (e : string)
| Raise (e : string)
| Panic (e : string)
| OutOfFuel.

Arguments Ok {A} a.
Arguments Err {A} e.
Arguments Raise {A} e.
Arguments Panic {A} e.
Arguments OutOfFuel {A}.

Definition isOk {A : Type} (o : Outcome A) : bool :=
  match o with Ok _ => true | _ => false end.

(** Fatal: the load is aborted. *)
Definition isFatal {A : Type} (o : Outcome A) : bool :=
  match o with Err _ | Raise _ | Panic _ => true | _ => false end.

Definition message {A : Type} (o : Outcome A) : option string :=
  match o with
  | Err e | Raise e | Panic e => Some e
  | _ => None
  end.

(** [contains sub s]: [sub] occurs in [s] (Go's [strings.Contains]). *)
Fixpoint contains (sub s : string) : bool :=
  if String.prefix sub s then true
  else match s with
       | EmptyString => false
       | String _ rest => contains sub rest
       end.

Definition nl : string := String (ascii_of_nat 10) EmptyString.

Inductive StatResult :=
| StatOk
| StatNotExist
| StatError (e : string).

Section Model.

(** Everything outside the process: files, network, interpreter heap. *)
Context {World : Type}.

(** The package-level variables of the program, and the Go heap as one
    arena per type; an address is a position in its arena. *)
Record State := mkState {
  Hosts : gmap string nat;
  Tasks : gmap string nat;
  Drivers : gmap string nat;
  Jobs : gmap string nat;
  hostArena : list Host;
  taskArena : list Task;
  driverArena : list Driver;
  jobArena : list Job;
  queryArena : list HostQuery;
  registryArena : list Registry;
  CurrentRegistry : nat;
  debugFlag : bool;
  updateFlag : bool;
  withGlobalFlag : bool;
  (** the Lua global [essh]: [None] when it is not a table, else the
      value of its field ["module"] *)
  esshModule : option LValue;
  GIT_SSH : string;
  trace : list Event;
  world : World
}.

Definition M (A : Type) : Type := State -> Outcome A * State.

Definition ret {A : Type} (a : A) : M A := fun s => (Ok a, s).

Definition bind {A B : Type} (m : M A) (k : A -> M B) : M B :=
  fun s =>
    match m s with
    | (Ok a, s') => k a s'
    | (Err e, s') => (Err e, s')
    | (Raise e, s') => (Raise e, s')
    | (Panic e, s') => (Panic e, s')
    | (OutOfFuel, s') => (OutOfFuel, s')
    end.

Definition raiseError {A : Type} (e : string) : M A := fun s => (Raise e, s).
Definition panic {A : Type} (e : string) : M A := fun s => (Panic e, s).
Definition errorf {A : Type} (e : string) : M A := fun s => (Err e, s).
Definition get : M State := fun s => (Ok s, s).
Definition modify (f : State -> State) : M unit := fun s => (Ok tt, f s).

(** Field updates of the state. *)
Definition upd_Hosts (f : gmap string nat -> gmap string nat) (s : State) : State :=
  mkState (f (Hosts s)) (Tasks s) (Drivers s) (Jobs s) (hostArena s) (taskArena s)
    (driverArena s) (jobArena s) (queryArena s) (registryArena s) (CurrentRegistry s)
    (debugFlag s) (updateFlag s) (withGlobalFlag s) (esshModule s) (GIT_SSH s)
    (trace s) (world s).
Definition upd_Tasks (f : gmap string nat -> gmap string nat) (s : State) : State :=
  mkState (Hosts s) (f (Tasks s)) (Drivers s) (Jobs s) (hostArena s) (taskArena s)
    (driverArena s) (jobArena s) (queryArena s) (registryArena s) (CurrentRegistry s)
    (debugFlag s) (updateFlag s) (withGlobalFlag s) (esshModule s) (GIT_SSH s)
    (trace s) (world s).
Definition upd_Drivers (f : gmap string nat -> gmap string nat) (s : State) : State :=
  mkState (Hosts s) (Tasks s) (f (Drivers s)) (Jobs s) (hostArena s) (taskArena s)
    (driverArena s) (jobArena s) (queryArena s) (registryArena s) (CurrentRegistry s)
    (debugFlag s) (updateFlag s) (withGlobalFlag s) (esshModule s) (GIT_SSH s)
    (trace s) (world s).
Definition upd_Jobs (f : gmap string nat -> gmap string nat) (s : State) : State :=
  mkState (Hosts s) (Tasks s) (Drivers s) (f (Jobs s)) (hostArena s) (taskArena s)
    (driverArena s) (jobArena s) (queryArena s) (registryArena s) (CurrentRegistry s)
    (debugFlag s) (updateFlag s) (withGlobalFlag s) (esshModule s) (GIT_SSH s)
    (trace s) (world s).
Definition upd_hostArena (f : list Host -> list Host) (s : State) : State :=
  mkState (Hosts s) (Tasks s) (Drivers s) (Jobs s) (f (hostArena s)) (taskArena s)
    (driverArena s) (jobArena s) (queryArena s) (registryArena s) (CurrentRegistry s)
    (debugFlag s) (updateFlag s) (withGlobalFlag s) (esshModule s) (GIT_SSH s)
    (trace s) (world s).
Definition upd_taskArena (f : list Task -> list Task) (s : State) : State :=
  mkState (Hosts s) (Tasks s) (Drivers s) (Jobs s) (hostArena s) (f (taskArena s))
    (driverArena s) (jobArena s) (queryArena s) (registryArena s) (CurrentRegistry s)
    (debugFlag s) (updateFlag s) (withGlobalFlag s) (esshModule s) (GIT_SSH s)
    (trace s) (world s).
Definition upd_driverArena (f : list Driver -> list Driver) (s : State) : State :=
  mkState (Hosts s) (Tasks s) (Drivers s) (Jobs s) (hostArena s) (taskArena s)
    (f (driverArena s)) (jobArena s) (queryArena s) (registryArena s) (CurrentRegistry s)
    (debugFlag s) (updateFlag s) (withGlobalFlag s) (esshModule s) (GIT_SSH s)
    (trace s) (world s).
Definition upd_jobArena (f : list Job -> list Job) (s : State) : State :=
  mkState (Hosts s) (Tasks s) (Drivers s) (Jobs s) (hostArena s) (taskArena s)
    (driverArena s) (f (jobArena s)) (queryArena s) (registryArena s) (CurrentRegistry s)
    (debugFlag s) (updateFlag s) (withGlobalFlag s) (esshModule s) (GIT_SSH s)
    (trace s) (world s).
Definition upd_queryArena (f : list HostQuery -> list HostQuery) (s : State) : State :=
  mkState (Hosts s) (Tasks s) (Drivers s) (Jobs s) (hostArena s) (taskArena s)
    (driverArena s) (jobArena s) (f (queryArena s)) (registryArena s) (CurrentRegistry s)
    (debugFlag s) (updateFlag s) (withGlobalFlag s) (esshModule s) (GIT_SSH s)
    (trace s) (world s).
Definition upd_registryArena (f : list Registry -> list Registry) (s : State) : State :=
  mkState (Hosts s) (Tasks s) (Drivers s) (Jobs s) (hostArena s) (taskArena s)
    (driverArena s) (jobArena s) (queryArena s) (f (registryArena s)) (CurrentRegistry s)
    (debugFlag s) (updateFlag s) (withGlobalFlag s) (esshModule s) (GIT_SSH s)
    (trace s) (world s).
Definition upd_esshModule (f : option LValue -> option LValue) (s : State) : State :=
  mkState (Hosts s) (Tasks s) (Drivers s) (Jobs s) (hostArena s) (taskArena s)
    (driverArena s) (jobArena s) (queryArena s) (registryArena s) (CurrentRegistry s)
    (debugFlag s) (updateFlag s) (withGlobalFlag s) (f (esshModule s)) (GIT_SSH s)
    (trace s) (world s).
Definition upd_GIT_SSH (f : string -> string) (s : State) : State :=
  mkState (Hosts s) (Tasks s) (Drivers s) (Jobs s) (hostArena s) (taskArena s)
    (driverArena s) (jobArena s) (queryArena s) (registryArena s) (CurrentRegistry s)
    (debugFlag s) (updateFlag s) (withGlobalFlag s) (esshModule s) (f (GIT_SSH s))
    (trace s) (world s).
Definition upd_trace (f : list Event -> list Event) (s : State) : State :=
  mkState (Hosts s) (Tasks s) (Drivers s) (Jobs s) (hostArena s) (taskArena s)
    (driverArena s) (jobArena s) (queryArena s) (registryArena s) (CurrentRegistry s)
    (debugFlag s) (updateFlag s) (withGlobalFlag s) (esshModule s) (GIT_SSH s)
    (f (trace s)) (world s).
Definition upd_world (f : World -> World) (s : State) : State :=
  mkState (Hosts s) (Tasks s) (Drivers s) (Jobs s) (hostArena s) (taskArena s)
    (driverArena s) (jobArena s) (queryArena s) (registryArena s) (CurrentRegistry s)
    (debugFlag s) (updateFlag s) (withGlobalFlag s) (esshModule s) (GIT_SSH s)
    (trace s) (f (world s)).

Definition emit (e : Event) : State -> State := upd_trace (fun t => t ++ [e]).

(** The collaborators this file calls but does not define. *)
Record Externals := mkExternals {
  (** [fmt.Sprint], the [%v] verb on a Lua value, and the colour helpers *)
  Sprint : GoValue -> string;
  fmtV : LValue -> string;
  color_FgYB : string -> string;
  color_FgBold : string -> string;
  (** Modelled from the spec: the constructors [NewHost], [NewTask],
      [NewDriver], [NewJob] are declared elsewhere; each gives the entity
      as it is before any field is assigned. *)
  NewHost : Host;
  NewTask : Task;
  NewDriver : Driver;
  NewJob : Job;
  DefaultTaskName : string;
  DefaultDriverName : string;
  DefaultJobName : string;
  DefaultDriver : nat;
  TASK_BACKEND_LOCAL : string;
  TASK_BACKEND_REMOTE : string;
  (** [Registry.PackagesDir], [path.Join], [filepath.Base], [filepath.Dir] *)
  PackagesDir : Registry -> string;
  path_Join : string -> string -> string;
  filepath_Base : string -> string;
  filepath_Dir : string -> string;
  (** [L.CallByParam] with [NRet: 1]: the Lua error, or the value
      returned; the callee may do anything to the program state. *)
  callLua : Func -> list LValue -> State -> (string + LValue) * State;
  (** [L.DoFile] followed by [L.Get(-1)]: the error, or the value on top
      of the stack after the file has run. *)
  doFile : string -> State -> (string + LValue) * State;
  os_Stat : string -> World -> StatResult;
  os_Getwd : World -> string + string;
  (** [getter.Client.Get] in directory mode *)
  getter_Get : string -> string -> string -> World -> option string * World
}.

Variable X : Externals.

Definition hostAt (s : State) (p : nat) : Host := default (NewHost X) (hostArena s !! p).
Definition taskAt (s : State) (p : nat) : Task := default (NewTask X) (taskArena s !! p).
Definition driverAt (s : State) (p : nat) : Driver := default (NewDriver X) (driverArena s !! p).
Definition jobAt (s : State) (p : nat) : Job := default (NewJob X) (jobArena s !! p).

Definition debugPrint (msg : string) (s : State) : State :=
  if debugFlag s then emit (EvPrint ("[essh debug] " +:+ msg +:+ nl)) s else s.

(** *** Entity records with one field replaced *)

Definition host_init (name : string) (reg : nat) (h : Host) : Host :=
  mkHost name reg (hChild h) (hParent h) (hLValues h) (hSSHConfig h) (hProps h)
    (hTags h) (hHooksBeforeConnect h) (hHooksAfterConnect h)
    (hHooksAfterDisconnect h) (hDescription h) (hHidden h).
Definition host_setChild (c : option nat) (h : Host) : Host :=
  mkHost (hName h) (hRegistry h) c (hParent h) (hLValues h) (hSSHConfig h) (hProps h)
    (hTags h) (hHooksBeforeConnect h) (hHooksAfterConnect h)
    (hHooksAfterDisconnect h) (hDescription h) (hHidden h).
Definition host_setParent (c : option nat) (h : Host) : Host :=
  mkHost (hName h) (hRegistry h) (hChild h) c (hLValues h) (hSSHConfig h) (hProps h)
    (hTags h) (hHooksBeforeConnect h) (hHooksAfterConnect h)
    (hHooksAfterDisconnect h) (hDescription h) (hHidden h).

Definition task_init (name : string) (reg : nat) (t : Task) : Task :=
  mkTask name reg (tChild t) (tParent t) (tLValues t) (tBackend t) (tTargets t)
    (tFilters t) (tDescription t) (tPty t) (tDriver t) (tParallel t) (tPrivileged t)
    (tDisabled t) (tHidden t) (tScript t) (tFile t) (tUsePrefix t) (tPrefix t)
    (tPrepare t) (tProps t) (tArgs t).
Definition task_setChild (c : option nat) (t : Task) : Task :=
  mkTask (tName t) (tRegistry t) c (tParent t) (tLValues t) (tBackend t) (tTargets t)
    (tFilters t) (tDescription t) (tPty t) (tDriver t) (tParallel t) (tPrivileged t)
    (tDisabled t) (tHidden t) (tScript t) (tFile t) (tUsePrefix t) (tPrefix t)
    (tPrepare t) (tProps t) (tArgs t).
Definition task_setParent (c : option nat) (t : Task) : Task :=
  mkTask (tName t) (tRegistry t) (tChild t) c (tLValues t) (tBackend t) (tTargets t)
    (tFilters t) (tDescription t) (tPty t) (tDriver t) (tParallel t) (tPrivileged t)
    (tDisabled t) (tHidden t) (tScript t) (tFile t) (tUsePrefix t) (tPrefix t)
    (tPrepare t) (tProps t) (tArgs t).

Definition driver_init (name : string) (reg : nat) (d : Driver) : Driver :=
  mkDriver name reg (dChild d) (dParent d) (dLValues d) (dEngine d).
Definition driver_setChild (c : option nat) (d : Driver) : Driver :=
  mkDriver (dName d) (dRegistry d) c (dParent d) (dLValues d) (dEngine d).
Definition driver_setParent (c : option nat) (d : Driver) : Driver :=
  mkDriver (dName d) (dRegistry d) (dChild d) c (dLValues d) (dEngine d).

Definition job_setName (name : string) (j : Job) : Job :=
  mkJob name (jDescription j) (jHidden j) (jPrepare j) (jHosts j) (jTasks j)
    (jDrivers j) (jLValues j).

Definition host_setLValues (v : gmap string LValue) (h : Host) : Host :=
  mkHost (hName h) (hRegistry h) (hChild h) (hParent h) v (hSSHConfig h) (hProps h)
    (hTags h) (hHooksBeforeConnect h) (hHooksAfterConnect h) (hHooksAfterDisconnect h)
    (hDescription h) (hHidden h).
Definition host_setSSHConfig (v : gmap string string) (h : Host) : Host :=
  mkHost (hName h) (hRegistry h) (hChild h) (hParent h) (hLValues h) v (hProps h)
    (hTags h) (hHooksBeforeConnect h) (hHooksAfterConnect h) (hHooksAfterDisconnect h)
    (hDescription h) (hHidden h).
Definition host_setProps (v : gmap string string) (h : Host) : Host :=
  mkHost (hName h) (hRegistry h) (hChild h) (hParent h) (hLValues h) (hSSHConfig h) v
    (hTags h) (hHooksBeforeConnect h) (hHooksAfterConnect h) (hHooksAfterDisconnect h)
    (hDescription h) (hHidden h).
Definition host_setTags (v : list string) (h : Host) : Host :=
  mkHost (hName h) (hRegistry h) (hChild h) (hParent h) (hLValues h) (hSSHConfig h)
    (hProps h) v (hHooksBeforeConnect h) (hHooksAfterConnect h) (hHooksAfterDisconnect
    h) (hDescription h) (hHidden h).
Definition host_setHooksBeforeConnect (v : list GoValue) (h : Host) : Host :=
  mkHost (hName h) (hRegistry h) (hChild h) (hParent h) (hLValues h) (hSSHConfig h)
    (hProps h) (hTags h) v (hHooksAfterConnect h) (hHooksAfterDisconnect h)
    (hDescription h) (hHidden h).
Definition host_setHooksAfterConnect (v : list GoValue) (h : Host) : Host :=
  mkHost (hName h) (hRegistry h) (hChild h) (hParent h) (hLValues h) (hSSHConfig h)
    (hProps h) (hTags h) (hHooksBeforeConnect h) v (hHooksAfterDisconnect h)
    (hDescription h) (hHidden h).
Definition host_setHooksAfterDisconnect (v : list GoValue) (h : Host) : Host :=
  mkHost (hName h) (hRegistry h) (hChild h) (hParent h) (hLValues h) (hSSHConfig h)
    (hProps h) (hTags h) (hHooksBeforeConnect h) (hHooksAfterConnect h) v
    (hDescription h) (hHidden h).
Definition host_setDescription (v : string) (h : Host) : Host :=
  mkHost (hName h) (hRegistry h) (hChild h) (hParent h) (hLValues h) (hSSHConfig h)
    (hProps h) (hTags h) (hHooksBeforeConnect h) (hHooksAfterConnect h)
    (hHooksAfterDisconnect h) v (hHidden h).
Definition host_setHidden (v : bool) (h : Host) : Host :=
  mkHost (hName h) (hRegistry h) (hChild h) (hParent h) (hLValues h) (hSSHConfig h)
    (hProps h) (hTags h) (hHooksBeforeConnect h) (hHooksAfterConnect h)
    (hHooksAfterDisconnect h) (hDescription h) v.
Definition task_setLValues (v : gmap string LValue) (t : Task) : Task :=
  mkTask (tName t) (tRegistry t) (tChild t) (tParent t) v (tBackend t) (tTargets t)
    (tFilters t) (tDescription t) (tPty t) (tDriver t) (tParallel t) (tPrivileged t)
    (tDisabled t) (tHidden t) (tScript t) (tFile t) (tUsePrefix t) (tPrefix t)
    (tPrepare t) (tProps t) (tArgs t).
Definition task_setBackend (v : string) (t : Task) : Task :=
  mkTask (tName t) (tRegistry t) (tChild t) (tParent t) (tLValues t) v (tTargets t)
    (tFilters t) (tDescription t) (tPty t) (tDriver t) (tParallel t) (tPrivileged t)
    (tDisabled t) (tHidden t) (tScript t) (tFile t) (tUsePrefix t) (tPrefix t)
    (tPrepare t) (tProps t) (tArgs t).
Definition task_setTargets (v : list string) (t : Task) : Task :=
  mkTask (tName t) (tRegistry t) (tChild t) (tParent t) (tLValues t) (tBackend t) v
    (tFilters t) (tDescription t) (tPty t) (tDriver t) (tParallel t) (tPrivileged t)
    (tDisabled t) (tHidden t) (tScript t) (tFile t) (tUsePrefix t) (tPrefix t)
    (tPrepare t) (tProps t) (tArgs t).
Definition task_setFilters (v : list string) (t : Task) : Task :=
  mkTask (tName t) (tRegistry t) (tChild t) (tParent t) (tLValues t) (tBackend t)
    (tTargets t) v (tDescription t) (tPty t) (tDriver t) (tParallel t) (tPrivileged t)
    (tDisabled t) (tHidden t) (tScript t) (tFile t) (tUsePrefix t) (tPrefix t)
    (tPrepare t) (tProps t) (tArgs t).
Definition task_setDescription (v : string) (t : Task) : Task :=
  mkTask (tName t) (tRegistry t) (tChild t) (tParent t) (tLValues t) (tBackend t)
    (tTargets t) (tFilters t) v (tPty t) (tDriver t) (tParallel t) (tPrivileged t)
    (tDisabled t) (tHidden t) (tScript t) (tFile t) (tUsePrefix t) (tPrefix t)
    (tPrepare t) (tProps t) (tArgs t).
Definition task_setPty (v : bool) (t : Task) : Task :=
  mkTask (tName t) (tRegistry t) (tChild t) (tParent t) (tLValues t) (tBackend t)
    (tTargets t) (tFilters t) (tDescription t) v (tDriver t) (tParallel t)
    (tPrivileged t) (tDisabled t) (tHidden t) (tScript t) (tFile t) (tUsePrefix t)
    (tPrefix t) (tPrepare t) (tProps t) (tArgs t).
Definition task_setDriver (v : string) (t : Task) : Task :=
  mkTask (tName t) (tRegistry t) (tChild t) (tParent t) (tLValues t) (tBackend t)
    (tTargets t) (tFilters t) (tDescription t) (tPty t) v (tParallel t) (tPrivileged
    t) (tDisabled t) (tHidden t) (tScript t) (tFile t) (tUsePrefix t) (tPrefix t)
    (tPrepare t) (tProps t) (tArgs t).
Definition task_setParallel (v : bool) (t : Task) : Task :=
  mkTask (tName t) (tRegistry t) (tChild t) (tParent t) (tLValues t) (tBackend t)
    (tTargets t) (tFilters t) (tDescription t) (tPty t) (tDriver t) v (tPrivileged t)
    (tDisabled t) (tHidden t) (tScript t) (tFile t) (tUsePrefix t) (tPrefix t)
    (tPrepare t) (tProps t) (tArgs t).
Definition task_setPrivileged (v : bool) (t : Task) : Task :=
  mkTask (tName t) (tRegistry t) (tChild t) (tParent t) (tLValues t) (tBackend t)
    (tTargets t) (tFilters t) (tDescription t) (tPty t) (tDriver t) (tParallel t) v
    (tDisabled t) (tHidden t) (tScript t) (tFile t) (tUsePrefix t) (tPrefix t)
    (tPrepare t) (tProps t) (tArgs t).
Definition task_setDisabled (v : bool) (t : Task) : Task :=
  mkTask (tName t) (tRegistry t) (tChild t) (tParent t) (tLValues t) (tBackend t)
    (tTargets t) (tFilters t) (tDescription t) (tPty t) (tDriver t) (tParallel t)
    (tPrivileged t) v (tHidden t) (tScript t) (tFile t) (tUsePrefix t) (tPrefix t)
    (tPrepare t) (tProps t) (tArgs t).
Definition task_setHidden (v : bool) (t : Task) : Task :=
  mkTask (tName t) (tRegistry t) (tChild t) (tParent t) (tLValues t) (tBackend t)
    (tTargets t) (tFilters t) (tDescription t) (tPty t) (tDriver t) (tParallel t)
    (tPrivileged t) (tDisabled t) v (tScript t) (tFile t) (tUsePrefix t) (tPrefix t)
    (tPrepare t) (tProps t) (tArgs t).
Definition task_setScript (v : list (gmap string string)) (t : Task) : Task :=
  mkTask (tName t) (tRegistry t) (tChild t) (tParent t) (tLValues t) (tBackend t)
    (tTargets t) (tFilters t) (tDescription t) (tPty t) (tDriver t) (tParallel t)
    (tPrivileged t) (tDisabled t) (tHidden t) v (tFile t) (tUsePrefix t) (tPrefix t)
    (tPrepare t) (tProps t) (tArgs t).
Definition task_setFile (v : string) (t : Task) : Task :=
  mkTask (tName t) (tRegistry t) (tChild t) (tParent t) (tLValues t) (tBackend t)
    (tTargets t) (tFilters t) (tDescription t) (tPty t) (tDriver t) (tParallel t)
    (tPrivileged t) (tDisabled t) (tHidden t) (tScript t) v (tUsePrefix t) (tPrefix t)
    (tPrepare t) (tProps t) (tArgs t).
Definition task_setUsePrefix (v : bool) (t : Task) : Task :=
  mkTask (tName t) (tRegistry t) (tChild t) (tParent t) (tLValues t) (tBackend t)
    (tTargets t) (tFilters t) (tDescription t) (tPty t) (tDriver t) (tParallel t)
    (tPrivileged t) (tDisabled t) (tHidden t) (tScript t) (tFile t) v (tPrefix t)
    (tPrepare t) (tProps t) (tArgs t).
Definition task_setPrefix (v : string) (t : Task) : Task :=
  mkTask (tName t) (tRegistry t) (tChild t) (tParent t) (tLValues t) (tBackend t)
    (tTargets t) (tFilters t) (tDescription t) (tPty t) (tDriver t) (tParallel t)
    (tPrivileged t) (tDisabled t) (tHidden t) (tScript t) (tFile t) (tUsePrefix t) v
    (tPrepare t) (tProps t) (tArgs t).
Definition task_setPrepare (v : option Func) (t : Task) : Task :=
  mkTask (tName t) (tRegistry t) (tChild t) (tParent t) (tLValues t) (tBackend t)
    (tTargets t) (tFilters t) (tDescription t) (tPty t) (tDriver t) (tParallel t)
    (tPrivileged t) (tDisabled t) (tHidden t) (tScript t) (tFile t) (tUsePrefix t)
    (tPrefix t) v (tProps t) (tArgs t).
Definition task_setProps (v : gmap string string) (t : Task) : Task :=
  mkTask (tName t) (tRegistry t) (tChild t) (tParent t) (tLValues t) (tBackend t)
    (tTargets t) (tFilters t) (tDescription t) (tPty t) (tDriver t) (tParallel t)
    (tPrivileged t) (tDisabled t) (tHidden t) (tScript t) (tFile t) (tUsePrefix t)
    (tPrefix t) (tPrepare t) v (tArgs t).
Definition task_setArgs (v : list string) (t : Task) : Task :=
  mkTask (tName t) (tRegistry t) (tChild t) (tParent t) (tLValues t) (tBackend t)
    (tTargets t) (tFilters t) (tDescription t) (tPty t) (tDriver t) (tParallel t)
    (tPrivileged t) (tDisabled t) (tHidden t) (tScript t) (tFile t) (tUsePrefix t)
    (tPrefix t) (tPrepare t) (tProps t) v.
Definition driver_setLValues (v : gmap string LValue) (d : Driver) : Driver :=
  mkDriver (dName d) (dRegistry d) (dChild d) (dParent d) v (dEngine d).
Definition driver_setEngine (v : option EngineFn) (d : Driver) : Driver :=
  mkDriver (dName d) (dRegistry d) (dChild d) (dParent d) (dLValues d) v.
Definition job_setDescription (v : string) (j : Job) : Job :=
  mkJob (jName j) v (jHidden j) (jPrepare j) (jHosts j) (jTasks j) (jDrivers j)
    (jLValues j).
Definition job_setHidden (v : bool) (j : Job) : Job :=
  mkJob (jName j) (jDescription j) v (jPrepare j) (jHosts j) (jTasks j) (jDrivers j)
    (jLValues j).
Definition job_setPrepare (v : option Func) (j : Job) : Job :=
  mkJob (jName j) (jDescription j) (jHidden j) v (jHosts j) (jTasks j) (jDrivers j)
    (jLValues j).
Definition job_setHosts (v : gmap string nat) (j : Job) : Job :=
  mkJob (jName j) (jDescription j) (jHidden j) (jPrepare j) v (jTasks j) (jDrivers j)
    (jLValues j).
Definition job_setTasks (v : gmap string nat) (j : Job) : Job :=
  mkJob (jName j) (jDescription j) (jHidden j) (jPrepare j) (jHosts j) v (jDrivers j)
    (jLValues j).
Definition job_setDrivers (v : gmap string nat) (j : Job) : Job :=
  mkJob (jName j) (jDescription j) (jHidden j) (jPrepare j) (jHosts j) (jTasks j) v
    (jLValues j).
Definition job_setLValues (v : gmap string LValue) (j : Job) : Job :=
  mkJob (jName j) (jDescription j) (jHidden j) (jPrepare j) (jHosts j) (jTasks j)
    (jDrivers j) v.
Definition query_setDatasource (v : option (gmap string nat)) (q : HostQuery) : HostQuery :=
  mkHostQuery v (qSelections q) (qFilters q).
Definition query_setSelections (v : list string) (q : HostQuery) : HostQuery :=
  mkHostQuery (qDatasource q) v (qFilters q).
Definition query_setFilters (v : list string) (q : HostQuery) : HostQuery :=
  mkHostQuery (qDatasource q) (qSelections q) v.
Definition registry_setLoadedModules (v : gmap string Package) (r : Registry) : Registry :=
  mkRegistry (rDataDir r) (rType r) v.

(** *** Registration *)

Definition registerHost (name : string) (s : State) : nat * State :=
  let s := debugPrint ("register host: " +:+ name) s in
  let h := length (hostArena s) in
  let s := upd_hostArena (fun a => a ++ [host_init name (CurrentRegistry s) (NewHost X)]) s in
  let s :=
    match Hosts s !! name with
    | Some host =>
        upd_hostArena (alter (host_setParent (Some h)) host)
          (upd_hostArena (alter (host_setChild (Some host)) h) s)
    | None => s
    end in
  (h, upd_Hosts <[name := h]> s).

Definition registerTask (name : string) (s : State) : nat * State :=
  let s := debugPrint ("register task: " +:+ name) s in
  let t := length (taskArena s) in
  let s := upd_taskArena (fun a => a ++ [task_init name (CurrentRegistry s) (NewTask X)]) s in
  let s :=
    match Tasks s !! name with
    | Some task =>
        upd_taskArena (alter (task_setParent (Some t)) task)
          (upd_taskArena (alter (task_setChild (Some task)) t) s)
    | None => s
    end in
  (t, upd_Tasks <[name := t]> s).

Definition registerDriver (name : string) (s : State) : nat * State :=
  let s := debugPrint ("register driver: " +:+ name) s in
  let d := length (driverArena s) in
  let s := upd_driverArena (fun a => a ++ [driver_init name (CurrentRegistry s) (NewDriver X)]) s in
  let s :=
    match Drivers s !! name with
    | Some driver =>
        upd_driverArena (alter (driver_setParent (Some d)) driver)
          (upd_driverArena (alter (driver_setChild (Some driver)) d) s)
    | None => s
    end in
  (d, upd_Drivers <[name := d]> s).

Definition registerJob (name : string) (s : State) : nat * State :=
  let s := debugPrint ("register job: " +:+ name) s in
  let j := length (jobArena s) in
  let s := upd_jobArena (fun a => a ++ [job_setName name (NewJob X)]) s in
  (j, upd_Jobs <[name := j]> s).

(** *** Argument checks of the Lua API *)

Definition Get (args : list LValue) (n : nat) : LValue := RawGetInt args n.

(** [L.CheckString]: a string, or a number converted to one. *)
Definition CheckString (args : list LValue) (n : nat) : M string :=
  match Get args n with
  | LString str => ret str
  | LNumber x => ret (fmtV X (LNumber x))
  | _ => raiseError "bad argument (string expected)"
  end.

Definition CheckAny (args : list LValue) (n : nat) : M LValue :=
  if length args <? n then raiseError "bad argument (value expected)"
  else ret (Get args n).

Definition CheckTable (args : list LValue) (n : nat)
  : M (list LValue * list (LValue * LValue)) :=
  match Get args n with
  | LTable a h => ret (a, h)
  | _ => raiseError "bad argument (table expected)"
  end.

Definition CheckUserData (args : list LValue) (n : nat) : M UserData :=
  match Get args n with
  | LUserData u => ret u
  | _ => raiseError "bad argument (userdata expected)"
  end.

(** [L.CallByParam] with one result.  With [Protect: true] the Lua error
    comes back as an [error]; without it the error unwinds as a panic. *)
Definition callProtected (fn : Func) (args : list LValue) : M LValue :=
  fun s =>
    match callLua X fn args (emit (EvCall fn args) s) with
    | (inl e, s') => (Err e, s')
    | (inr v, s') => (Ok v, s')
    end.

Definition callUnprotected (fn : Func) (args : list LValue) : M LValue :=
  fun s =>
    match callLua X fn args (emit (EvCall fn args) s) with
    | (inl e, s') => (Panic e, s')
    | (inr v, s') => (Ok v, s')
    end.

(** A loop [for _, x := range xs { body x }]. *)
Fixpoint forEachM {A : Type} (body : A -> M unit) (xs : list A) : M unit :=
  match xs with
  | [] => ret tt
  | x :: rest => bind (body x) (fun _ => forEachM body rest)
  end.

Definition setHost (h : nat) (f : Host -> Host) : M unit :=
  modify (upd_hostArena (alter f h)).
Definition setTask (t : nat) (f : Task -> Task) : M unit :=
  modify (upd_taskArena (alter f t)).
Definition setDriver (d : nat) (f : Driver -> Driver) : M unit :=
  modify (upd_driverArena (alter f d)).
Definition setJob (j : nat) (f : Job -> Job) : M unit :=
  modify (upd_jobArena (alter f j)).

(** *** Host fields *)

(** The first rune of the key (0 for the empty key) and
    [unicode.IsUpper] on it; keys are ASCII. *)
Definition firstChar (key : string) : nat :=
  match key with
  | EmptyString => 0
  | String c _ => nat_of_ascii c
  end.

Definition unicode_IsUpper (c : nat) : bool := (65 <=? c) && (c <=? 90).

(** [for i := 1; i <= maxn; i++ { hooks = append(hooks, toGoValue(tb.RawGetInt(i))) }] *)
Definition hooksOf (array : list LValue) : list GoValue :=
  List.map (fun i => toGoValue (Sprint X) (RawGetInt array i)) (seq 1 (MaxN array)).

Definition invalidHostField (key : string) : string :=
  "invalid value of a host's field '" +:+ key +:+ "'.".

Definition updateHost (h : nat) (key : string) (value : LValue) : M unit :=
  bind (setHost h (fun x => host_setLValues (<[key := value]> (hLValues x)) x)) (fun _ =>
  if unicode_IsUpper (firstChar key) then
    match toString value with
    | Some valuestr =>
        setHost h (fun x => host_setSSHConfig (<[key := valuestr]> (hSSHConfig x)) x)
    | None => panic "SSH property must be string"
    end
  else if String.eqb key "props" then
    match toLTable value with
    | Some (array, hash) =>
        bind (setHost h (host_setProps ∅)) (fun _ =>
        forEachM (fun kv =>
          match toString (fst kv) with
          | None =>
              raiseError ("props table's key must be a string: " +:+ fmtV X (fst kv))
          | Some propsKeyStr =>
              match toString (snd kv) with
              | None =>
                  raiseError
                    ("props table's value must be a string: " +:+ fmtV X (snd kv))
              | Some propsValueStr =>
                  setHost h (fun x =>
                    host_setProps (<[propsKeyStr := propsValueStr]> (hProps x)) x)
              end
          end) (ForEach array hash))
    | None => panic (invalidHostField key)
    end
  else if String.eqb key "hooks_before_connect" then
    match toLTable value with
    | Some (array, _) => setHost h (host_setHooksBeforeConnect (hooksOf array))
    | None => panic (invalidHostField key)
    end
  else if String.eqb key "hooks_after_connect" then
    match toLTable value with
    | Some (array, _) => setHost h (host_setHooksAfterConnect (hooksOf array))
    | None => panic (invalidHostField key)
    end
  else if String.eqb key "hooks_after_disconnect" then
    match toLTable value with
    | Some (array, _) => setHost h (host_setHooksAfterDisconnect (hooksOf array))
    | None => panic (invalidHostField key)
    end
  else if String.eqb key "description" then
    match toString value with
    | Some descStr => setHost h (host_setDescription descStr)
    | None => panic (invalidHostField key)
    end
  else if String.eqb key "hidden" then
    match toBool value with
    | Some hiddenBool => setHost h (host_setHidden hiddenBool)
    | None => panic (invalidHostField key)
    end
  else if String.eqb key "tags" then
    match toLTable value with
    | Some (array, hash) =>
        bind (setHost h (host_setTags [])) (fun _ =>
        forEachM (fun kv =>
          match toString (snd kv) with
          | Some vs => setHost h (fun x => host_setTags (hTags x ++ [vs]) x)
          | None => raiseError "unsupported format of tags."
          end) (ForEach array hash))
    | None => panic (invalidHostField key)
    end
  else panic ("unsupported host's field '" +:+ key +:+ "'.")).

Definition setupHost (h : nat) (array : list LValue) (hash : list (LValue * LValue))
  : M unit :=
  forEachM (fun kv =>
    match toString (fst kv) with
    | Some kstr => updateHost h kstr (snd kv)
    | None => ret tt
    end) (ForEach array hash).

(** *** Script normalizer *)

(** The [ForEach] body of the record case of [toScript]. *)
Fixpoint scriptRecord (es : list (LValue * LValue)) (m : gmap string string)
  : M (gmap string string) :=
  match es with
  | [] => ret m
  | (k, v) :: rest =>
      match toString v with
      | Some vs =>
          match toString k with
          | Some ks => scriptRecord rest (<[ks := vs]> m)
          | None => panic "if a 'script' entry is table, it's property has to be string."
          end
      | None =>
          match toBool v with
          | None => panic "if a 'script' entry is table, it's value has to be string or bool."
          | Some vb =>
              match toString k with
              | Some ks => scriptRecord rest (<[ks := if vb then "true" else "false"]> m)
              | None =>
                  panic "if a 'script' entry is table, it's property has to be string."
              end
          end
      end
  end.

(** The loop of the array case, over the values at indices [1..maxn];
    [rec] is the recursive call. *)
Fixpoint scriptArray (rec : LValue -> M (list (gmap string string)))
    (values : list LValue) (acc : list (gmap string string))
  : M (list (gmap string string)) :=
  match values with
  | [] => ret acc
  | value :: rest =>
      match toLFunction value with
      | Some fn =>
          bind (callUnprotected fn []) (fun funcRet =>
          bind (rec funcRet) (fun script =>
          scriptArray rec rest (acc ++ script)))
      | None =>
          bind (rec value) (fun script =>
          scriptArray rec rest (acc ++ script))
      end
  end.

Fixpoint toScript (fuel : nat) (value : LValue) : M (list (gmap string string)) :=
  match fuel with
  | 0 => fun s => (OutOfFuel, s)
  | S fuel' =>
      match toLTable value with
      | Some (array, hash) =>
          let maxn := MaxN array in
          if Nat.eqb maxn 0 then
            if isNil (RawGetString hash "code") then
              errorf "if a 'script' entry is table, it has to have 'code' property."
            else
              bind (scriptRecord (ForEach array hash) ∅) (fun m => ret [m])
          else
            scriptArray (toScript fuel') (List.map (RawGetInt array) (seq 1 maxn)) []
      | None =>
          match toString value with
          | Some str => ret [ {[ "code" := str ]} ]
          | None => errorf "'script' got a invalid value."
          end
      end
  end.

(** *** Task fields *)

Definition invalidTaskField (key : string) : string :=
  "invalid value of a task's field '" +:+ key +:+ "'.".

Definition scriptConflict : string :=
  "invalid task definition: can't use 'script_file' and 'script' at the same time.".

(** [if task.File != "" && len(task.Script) > 0 { L.RaiseError(...) }] *)
Definition checkScriptConflict (task : nat) : M unit :=
  fun s =>
    if negb (String.eqb (tFile (taskAt s task)) "")
       && (0 <? length (tScript (taskAt s task)))
    then (Raise scriptConflict, s)
    else (Ok tt, s).

Definition updateTask (fuel : nat) (task : nat) (key : string) (value : LValue)
  : M unit :=
  bind (setTask task (fun x => task_setLValues (<[key := value]> (tLValues x)) x)) (fun _ =>
  if String.eqb key "backend" then
    match toString value with
    | Some backendStr =>
        bind (setTask task (task_setBackend backendStr)) (fun _ =>
        if negb (String.eqb backendStr (TASK_BACKEND_LOCAL X))
           && negb (String.eqb backendStr (TASK_BACKEND_REMOTE X))
        then raiseError ("backend must be '" +:+ TASK_BACKEND_LOCAL X +:+ "' or '"
                         +:+ TASK_BACKEND_REMOTE X +:+ "'.")
        else ret tt)
    | None => ret tt
    end
  else if String.eqb key "targets" then
    match toString value with
    | Some targetsStr => setTask task (task_setTargets [targetsStr])
    | None =>
        match toSlice (Sprint X) value with
        | Some targetsSlice => setTask task (task_setTargets (appendStrings [] targetsSlice))
        | None => panic (invalidTaskField key)
        end
    end
  else if String.eqb key "filters" then
    match toString value with
    | Some filtersStr => setTask task (task_setFilters [filtersStr])
    | None =>
        match toSlice (Sprint X) value with
        | Some filtersSlice => setTask task (task_setFilters (appendStrings [] filtersSlice))
        | None => panic (invalidTaskField key)
        end
    end
  else if String.eqb key "description" then
    match toString value with
    | Some descStr => setTask task (task_setDescription descStr)
    | None => panic (invalidTaskField key)
    end
  else if String.eqb key "pty" then
    match toBool value with
    | Some ptyBool => setTask task (task_setPty ptyBool)
    | None => panic (invalidTaskField key)
    end
  else if String.eqb key "driver" then
    match toString value with
    | Some driverStr => setTask task (task_setDriver driverStr)
    | None => panic (invalidTaskField key)
    end
  else if String.eqb key "parallel" then
    match toBool value with
    | Some parallelBool => setTask task (task_setParallel parallelBool)
    | None => panic (invalidTaskField key)
    end
  else if String.eqb key "privileged" then
    match toBool value with
    | Some privilegedBool => setTask task (task_setPrivileged privilegedBool)
    | None => panic (invalidTaskField key)
    end
  else if String.eqb key "disabled" then
    match toBool value with
    | Some disabledBool => setTask task (task_setDisabled disabledBool)
    | None => panic (invalidTaskField key)
    end
  else if String.eqb key "hidden" then
    match toBool value with
    | Some hiddenBool => setTask task (task_setHidden hiddenBool)
    | None => panic (invalidTaskField key)
    end
  else if String.eqb key "script" then
    fun s =>
      match toScript fuel value s with
      | (Ok script, s') =>
          bind (setTask task (task_setScript script))
            (fun _ => checkScriptConflict task) s'
      | (Err e, s') => (Raise e, s')
      | (Raise e, s') => (Raise e, s')
      | (Panic e, s') => (Panic e, s')
      | (OutOfFuel, s') => (OutOfFuel, s')
      end
  else if String.eqb key "script_file" then
    match toString value with
    | Some fileStr =>
        bind (setTask task (task_setFile fileStr)) (fun _ => checkScriptConflict task)
    | None => panic (invalidTaskField key)
    end
  else if String.eqb key "prefix" then
    match toBool value with
    | Some prefixBool => setTask task (task_setUsePrefix prefixBool)
    | None =>
        match toString value with
        | Some prefixStr =>
            setTask task (fun x => task_setPrefix prefixStr (task_setUsePrefix true x))
        | None => panic (invalidTaskField key)
        end
    end
  else if String.eqb key "prepare" then
    match toLFunction value with
    | Some prepareFn => setTask task (task_setPrepare (Some prepareFn))
    | None => raiseError "prepare have to be a function."
    end
  else if String.eqb key "props" then
    match toLTable value with
    | Some (array, hash) =>
        bind (setTask task (task_setProps ∅)) (fun _ =>
        forEachM (fun kv =>
          match toString (fst kv) with
          | None =>
              raiseError ("props table's key must be a string: " +:+ fmtV X (fst kv))
          | Some propsKeyStr =>
              match toString (snd kv) with
              | None =>
                  raiseError
                    ("props table's value must be a string: " +:+ fmtV X (snd kv))
              | Some propsValueStr =>
                  setTask task (fun x =>
                    task_setProps (<[propsKeyStr := propsValueStr]> (tProps x)) x)
              end
          end) (ForEach array hash))
    | None => panic (invalidTaskField key)
    end
  else if String.eqb key "args" then
    match toSlice (Sprint X) value with
    | Some argsSlice => setTask task (task_setArgs (appendStrings [] argsSlice))
    | None => panic (invalidTaskField key)
    end
  else panic ("unsupported task's field '" +:+ key +:+ "'.")).

(** The closure stored by the [prepare] case, run: the callback receives
    the task; nil or true is success, false an error. *)
Definition runTaskPrepare (task : nat) (prepareFn : Func) : M unit :=
  bind (callUnprotected prepareFn [LUserData (UTask task)]) (fun r =>
  match r with
  | LBool false => errorf "returned false from the prepare function."
  | _ => ret tt
  end).

Definition setupTask (fuel : nat) (t : nat) (array : list LValue)
    (hash : list (LValue * LValue)) : M unit :=
  forEachM (fun kv =>
    match toString (fst kv) with
    | Some kstr => updateTask fuel t kstr (snd kv)
    | None => ret tt
    end) (ForEach array hash).

(** *** Driver fields *)

Definition updateDriver (driver : nat) (key : string) (value : LValue) : M unit :=
  bind (setDriver driver (fun x => driver_setLValues (<[key := value]> (dLValues x)) x))
    (fun _ =>
  if String.eqb key "engine" then
    match value with
    | LFunction engineFn =>
        setDriver driver (driver_setEngine (Some (EngineCallback engineFn)))
    | _ =>
        match toString value with
        | Some engineStr =>
            setDriver driver (driver_setEngine (Some (EngineFixed engineStr)))
        | None => raiseError "driver 'engine' have to be a function or string."
        end
    end
  else ret tt).

(** The two closures [updateDriver] stores in [driver.Engine], applied to
    a driver. *)
Definition runEngine (e : EngineFn) (driver : nat) : M string :=
  match e with
  | EngineCallback engineFn =>
      bind (callProtected engineFn [LUserData (UDriver driver)]) (fun r =>
      match toString r with
      | Some retStr => ret retStr
      | None => errorf "driver engine has to return a string."
      end)
  | EngineFixed engineStr => ret engineStr
  end.

(** One resolution of a driver's engine: [driver.Engine(driver)]. *)
Definition resolveEngine (driver : nat) : M string :=
  fun s =>
    match dEngine (driverAt s driver) with
    | Some e => runEngine e driver s
    | None => (Panic "invalid memory address or nil pointer dereference", s)
    end.

Definition setupDriver (d : nat) (array : list LValue) (hash : list (LValue * LValue))
  : M unit :=
  forEachM (fun kv =>
    match toString (fst kv) with
    | Some kstr => updateDriver d kstr (snd kv)
    | None => ret tt
    end) (ForEach array hash).

(** *** Declarations *)

Definition esshHost (args : list LValue) : M LValue :=
  bind (CheckString args 1) (fun name =>
  if Nat.eqb (length args) 1 then
    fun s => let '(h, s') := registerHost name s in (Ok (LUserData (UHost h)), s')
  else if Nat.eqb (length args) 2 then
    bind (CheckTable args 2) (fun tb =>
    fun s =>
      let '(h, s') := registerHost name s in
      bind (setupHost h (fst tb) (snd tb)) (fun _ => ret (LUserData (UHost h))) s')
  else panic "host requires 1 or 2 arguments").

Definition esshTask (fuel : nat) (args : list LValue) : M LValue :=
  bind (CheckAny args 1) (fun first =>
  match toLTable first with
  | Some tb =>
      fun s =>
        let '(j, s') := registerTask (DefaultTaskName X) s in
        bind (setupTask fuel j (fst tb) (snd tb)) (fun _ => ret (LUserData (UTask j))) s'
  | None =>
      bind (CheckString args 1) (fun name =>
      if Nat.eqb (length args) 1 then
        fun s => let '(t, s') := registerTask name s in (Ok (LUserData (UTask t)), s')
      else if Nat.eqb (length args) 2 then
        bind (CheckTable args 2) (fun tb =>
        fun s =>
          let '(t, s') := registerTask name s in
          bind (setupTask fuel t (fst tb) (snd tb))
            (fun _ => ret (LUserData (UTask t))) s')
      else panic "task requires 1 or 2 arguments")
  end).

Definition esshDriver (args : list LValue) : M LValue :=
  bind (CheckAny args 1) (fun first =>
  match toLTable first with
  | Some tb =>
      fun s =>
        let '(d, s') := registerDriver (DefaultDriverName X) s in
        bind (setupDriver d (fst tb) (snd tb)) (fun _ => ret (LUserData (UDriver d))) s'
  | None =>
      bind (CheckString args 1) (fun name =>
      if Nat.eqb (length args) 1 then
        fun s => let '(d, s') := registerDriver name s in (Ok (LUserData (UDriver d)), s')
      else if Nat.eqb (length args) 2 then
        bind (CheckTable args 2) (fun tb =>
        fun s =>
          let '(d, s') := registerDriver name s in
          bind (setupDriver d (fst tb) (snd tb))
            (fun _ => ret (LUserData (UDriver d))) s')
      else panic "driver requires 1 or 2 arguments")
  end).

(** *** Job fields *)

(** Modelled from the spec: [Job.RegisterHost], [Job.RegisterTask] and
    [Job.RegisterDriver] are declared elsewhere; each enters the entity
    into the job's sub-registry of its kind, under the entity's name. *)
Definition Job_RegisterHost (job h : nat) : M unit :=
  fun s => setJob job (fun x => job_setHosts (<[hName (hostAt s h) := h]> (jHosts x)) x) s.
Definition Job_RegisterTask (job t : nat) : M unit :=
  fun s => setJob job (fun x => job_setTasks (<[tName (taskAt s t) := t]> (jTasks x)) x) s.
Definition Job_RegisterDriver (job d : nat) : M unit :=
  fun s =>
    setJob job (fun x => job_setDrivers (<[dName (driverAt s d) := d]> (jDrivers x)) x) s.

Definition updateJob (fuel : nat) (job : nat) (key : string) (value : LValue) : M unit :=
  bind (setJob job (fun x => job_setLValues (<[key := value]> (jLValues x)) x)) (fun _ =>
  if String.eqb key "description" then
    match toString value with
    | Some descStr => setJob job (job_setDescription descStr)
    | None => panic ("invalid value of a job's field '" +:+ key +:+ "'.")
    end
  else if String.eqb key "hidden" then
    match toBool value with
    | Some hiddenBool => setJob job (job_setHidden hiddenBool)
    | None => panic ("invalid value of a job's field '" +:+ key +:+ "'.")
    end
  else if String.eqb key "prepare" then
    match toLFunction value with
    | Some prepareFn => setJob job (job_setPrepare (Some prepareFn))
    | None => raiseError "prepare have to be a function."
    end
  else if String.eqb key "hosts" then
    match toLTable value with
    | Some (array, hash) =>
        bind (setJob job (job_setHosts ∅)) (fun _ =>
        forEachM (fun kv =>
          match toString (fst kv) with
          | None =>
              panic ("expected string of host's name but got '" +:+ fmtV X (fst kv)
                     +:+ "'" +:+ nl)
          | Some name =>
              match toLTable (snd kv) with
              | None =>
                  panic ("expected table of host's config but got '"
                         +:+ fmtV X (snd kv) +:+ "'" +:+ nl)
              | Some config =>
                  fun s =>
                    let '(h, s') := registerHost name s in
                    bind (setupHost h (fst config) (snd config))
                      (fun _ => Job_RegisterHost job h) s'
              end
          end) (ForEach array hash))
    | None => panic ("expected table but got '" +:+ fmtV X value +:+ "'" +:+ nl)
    end
  else if String.eqb key "tasks" then
    match toLTable value with
    | Some (array, hash) =>
        bind (setJob job (job_setTasks ∅)) (fun _ =>
        forEachM (fun kv =>
          match toString (fst kv) with
          | None =>
              panic ("expected string of task's name but got '" +:+ fmtV X (fst kv)
                     +:+ "'" +:+ nl)
          | Some name =>
              match toLTable (snd kv) with
              | None =>
                  panic ("expected table of task's config but got '"
                         +:+ fmtV X (snd kv) +:+ "'" +:+ nl)
              | Some config =>
                  fun s =>
                    let '(t, s') := registerTask name s in
                    bind (setupTask fuel t (fst config) (snd config))
                      (fun _ => Job_RegisterTask job t) s'
              end
          end) (ForEach array hash))
    | None => panic ("expected table but got '" +:+ fmtV X value +:+ "'" +:+ nl)
    end
  else if String.eqb key "drivers" then
    match toLTable value with
    | Some (array, hash) =>
        bind (setJob job (job_setDrivers {[ DefaultDriverName X := DefaultDriver X ]}))
          (fun _ =>
        forEachM (fun kv =>
          match toString (fst kv) with
          | None =>
              panic ("expected string of driver's name but got '" +:+ fmtV X (fst kv)
                     +:+ "'" +:+ nl)
          | Some name =>
              match toLTable (snd kv) with
              | None =>
                  panic ("expected table of driver's config but got '"
                         +:+ fmtV X (snd kv) +:+ "'" +:+ nl)
              | Some config =>
                  fun s =>
                    let '(d, s') := registerDriver name s in
                    bind (setupDriver d (fst config) (snd config))
                      (fun _ => Job_RegisterDriver job d) s'
              end
          end) (ForEach array hash))
    | None => panic ("expected table but got '" +:+ fmtV X value +:+ "'" +:+ nl)
    end
  else panic ("unsupported job's field '" +:+ key +:+ "'.")).

(** *** Host selection query *)

(** Modelled from the spec: the [HostQuery] type with [NewHostQuery],
    [SetDatasource], [AppendSelections], [AppendFilters] and [GetHosts]
    is declared elsewhere.  The datasource defaults to the global host
    registry ([None]); selections and filters are extended in order;
    evaluation walks the datasource in declaration order and keeps a host
    that matches any selection (all hosts when there is none) and every
    filter, an expression matching a host's name or one of its tags. *)
Definition NewHostQuery : HostQuery := mkHostQuery None [] [].

Definition SetDatasource (ds : gmap string nat) (q : HostQuery) : HostQuery :=
  query_setDatasource (Some ds) q.

Definition AppendSelections (sel : list string) (q : HostQuery) : HostQuery :=
  query_setSelections (qSelections q ++ sel) q.

Definition AppendFilters (fs : list string) (q : HostQuery) : HostQuery :=
  query_setFilters (qFilters q ++ fs) q.

Definition hostMatches (h : Host) (expr : string) : bool :=
  String.eqb expr (hName h) || existsb (String.eqb expr) (hTags h).

Definition GetHosts (q : HostQuery) (s : State) : list nat :=
  let ds := match qDatasource q with Some m => m | None => Hosts s end in
  List.filter (fun p =>
      let h := hostAt s p in
      bool_decide (ds !! hName h = Some p)
      && (Nat.eqb (length (qSelections q)) 0 || existsb (hostMatches h) (qSelections q))
      && forallb (hostMatches h) (qFilters q))
    (seq 0 (length (hostArena s))).

Definition queryAt (s : State) (p : nat) : HostQuery :=
  default NewHostQuery (queryArena s !! p).

Definition newLHostQuery (q : HostQuery) : M LValue :=
  fun s =>
    (Ok (LUserData (UHostQuery (length (queryArena s)))),
     upd_queryArena (fun a => a ++ [q]) s).

(** The string-or-list argument of [select_hosts] and of [filter]. *)
Definition stringsArg (what : string) (value : LValue) : M (list string) :=
  match toString value with
  | Some str => ret [str]
  | None =>
      match toSlice (Sprint X) value with
      | Some slice => ret (appendStrings [] slice)
      | None => panic (what +:+ " can receive string or array table of strings.")
      end
  end.

Definition esshSelectHosts (args : list LValue) : M LValue :=
  let hostQuery := NewHostQuery in
  if 2 <? length args then panic "select_hosts can receive max 2 argument."
  else
    bind (match Get args 1 with
          | LUserData (UJob j) => ret (Some j)
          | LUserData _ => panic "expected a job but got an other userdata."
          | _ => ret None
          end) (fun job =>
    bind (if Nat.eqb (length args) 1 then
            match job with
            | None =>
                bind (CheckAny args 1) (fun value =>
                bind (stringsArg "select_hosts" value) (fun selections =>
                ret (AppendSelections selections hostQuery)))
            | Some j => fun s => (Ok (SetDatasource (jHosts (jobAt s j)) hostQuery), s)
            end
          else if Nat.eqb (length args) 2 then
            match job with
            | Some j =>
                bind (CheckAny args 2) (fun value =>
                bind (stringsArg "select_hosts" value) (fun selections =>
                fun s =>
                  (Ok (AppendSelections selections
                         (SetDatasource (jHosts (jobAt s j)) hostQuery)), s)))
            | None => panic "expected a job but got an other userdata."
            end
          else ret hostQuery)
      newLHostQuery).

Definition checkHostQuery (args : list LValue) : M nat :=
  bind (CheckUserData args 1) (fun ud =>
  match ud with
  | UHostQuery q => ret q
  | _ => raiseError "bad argument (HostQuery object expected)"
  end).

(** What a Go function leaves to Lua: it pushes values on the stack that
    holds its arguments and returns a count [n]; the results are the top
    [n] values. *)
Definition returnTop (n : nat) (stack : list LValue) : list LValue :=
  skipn (length stack - n) stack.

(** [hostQueryIndex], the [__index] metamethod of a query handle. *)
Definition hostQueryIndex (args : list LValue) : M (list LValue) :=
  bind (CheckString args 2) (fun index =>
  if String.eqb index "filter" then
    ret (returnTop 1 (args ++ [LFunction (GoFn GQueryFilter)]))
  else if String.eqb index "get" then
    ret (returnTop 1 (args ++ [LFunction (GoFn GQueryGet)]))
  else if String.eqb index "first" then
    ret (returnTop 1 (args ++ [LFunction (GoFn GQueryFirstOuter)] ++ [LNil]))
  else
    ret (returnTop 1 (args ++ [LNil]))).

(** The bodies of the closures created in [hostQueryIndex]. *)
Definition callGo (g : GFunction) (args : list LValue) : M (list LValue) :=
  match g with
  | GQueryFilter =>
      bind (checkHostQuery args) (fun hostQuery =>
      bind (CheckUserData args 1) (fun ud =>
      if negb (Nat.eqb (length args) 2) then panic "filter must receive max 2 argument."
      else
        bind (CheckAny args 2) (fun value =>
        bind (stringsArg "filter" value) (fun filters =>
        bind (modify (upd_queryArena (alter (AppendFilters filters) hostQuery))) (fun _ =>
        ret (returnTop 1 (args ++ [LUserData ud])))))))
  | GQueryGet =>
      bind (checkHostQuery args) (fun hostQuery =>
      fun s =>
        (Ok (returnTop 1
               (args ++ [LTable (List.map (fun h => LUserData (UHost h))
                                   (GetHosts (queryAt s hostQuery) s)) []])), s))
  | GQueryFirstOuter =>
      ret (returnTop 1 (args ++ [LFunction (GoFn GQueryFirstInner)]))
  | GQueryFirstInner =>
      bind (checkHostQuery args) (fun hostQuery =>
      fun s =>
        match GetHosts (queryAt s hostQuery) s with
        | h :: _ => (Ok (returnTop 1 (args ++ [LUserData (UHost h)])), s)
        | [] => (Ok (returnTop 1 (args ++ [LNil])), s)
        end)
  end.

(** Lua's call of a value: a function is run, anything else is an error
    (a query handle has no [__call]). *)
Definition callValue (f : LValue) (args : list LValue) : M (list LValue) :=
  match f with
  | LFunction (GoFn g) => callGo g args
  | LFunction (LuaFn id) => bind (callUnprotected (LuaFn id) args) (fun v => ret [v])
  | _ => raiseError "attempt to call a non-function object"
  end.

(** Lua's [q:name(args)] on a query handle [q]: [name] is looked up through
    [__index], the first result is called with [q] in front of [args]. *)
Definition queryMethod (q : nat) (name : string) (args : list LValue)
  : M (list LValue) :=
  bind (hostQueryIndex [LUserData (UHostQuery q); LString name]) (fun rs =>
  callValue (hd LNil rs) (LUserData (UHostQuery q) :: args)).

(** What [.first()] is specified to give: the first match, or nil. *)
Definition firstOrEmpty (q : nat) (s : State) : LValue :=
  match GetHosts (queryAt s q) s with
  | h :: _ => LUserData (UHost h)
  | [] => LNil
  end.

(** *** Module importer *)

Definition curReg (s : State) : Registry :=
  default (mkRegistry "" RegistryTypeGlobal ∅) (registryArena s !! CurrentRegistry s).

Fixpoint replaceAll (old new : ascii) (str : string) : string :=
  match str with
  | EmptyString => EmptyString
  | String c rest =>
      String (if Ascii.eqb c old then new else c) (replaceAll old new rest)
  end.

Definition Package_Key (name : string) : string :=
  replaceAll ":" "-" (replaceAll "/" "-" name).

Definition Package_Dir (name : string) (s : State) : string :=
  path_Join X (PackagesDir X (curReg s)) (Package_Key name).

Definition Package_IndexFile (name : string) (s : State) : string :=
  path_Join X (Package_Dir name s) "index.lua".

Definition stat (path : string) : State -> StatResult * State :=
  fun s => (os_Stat X path (world s), emit (EvStat path) s).

Definition printInstalling (verb name : string) (s : State) : State :=
  emit (EvPrint ("This functionality deprecated! " +:+ verb +:+ " package: '"
                 +:+ color_FgYB X name +:+ "' (into "
                 +:+ color_FgBold X (rDataDir (curReg s)) +:+ ")" +:+ nl)) s.

(** The body of [Package.Load] between the [GIT_SSH] swap and its
    deferred restore. *)
Definition Package_fetch (name : string) (update : bool) : M unit :=
  fun s =>
    let src := name in
    let dst := Package_Dir name s in
    let proceed (s : State) : Outcome unit * State :=
      let s := debugPrint ("module src '" +:+ src +:+ "'") s in
      let s :=
        if update then
          match stat dst s with
          | (StatOk, s') => printInstalling "Updating" name s'
          | (_, s') => printInstalling "Installing" name s'
          end
        else printInstalling "Installing" name s in
      match os_Getwd X (world s) with
      | inl e => (Err e, emit EvGetwd s)
      | inr pwd =>
          let s := emit (EvGet src dst) (emit EvGetwd s) in
          match getter_Get X src dst pwd (world s) with
          | (Some e, w) => (Err e, upd_world (fun _ => w) s)
          | (None, w) => (Ok tt, upd_world (fun _ => w) s)
          end
      end in
    if update then proceed s
    else
      match stat dst s with
      | (StatOk, s') => (Ok tt, s')
      | (StatNotExist, s') => proceed s'
      | (StatError e, s') => (Err ("Error reading directory: " +:+ e), s')
      end.

Definition Package_Load (name : string) (update : bool) : M unit :=
  fun s =>
    let gitssh := GIT_SSH s in
    if String.eqb (filepath_Base X gitssh) "essh" then
      let '(r, s') := Package_fetch name update (upd_GIT_SSH (fun _ => "ssh") s) in
      (r, upd_GIT_SSH (fun _ => gitssh) s')
    else Package_fetch name update s.

Definition nestedImport : string :=
  "'essh.module' is existed. does not support nested module importing.".

(** [esshImport], first part: the argument and the guard on [essh.module]. *)
Definition importGuard (args : list LValue) : M string :=
  bind (CheckString args 1) (fun name =>
  fun s =>
    match esshModule s with
    | None => (Raise "'essh' global variable is broken", s)
    | Some marker =>
        if isNil marker then (Ok name, s) else (Raise nestedImport, s)
    end).

Definition modulevar (indexFile name : string) : LValue :=
  LTable [] [ (LString "path", LString (filepath_Dir X indexFile));
              (LString "import_path", LString name) ].

(** Second part, for a name not loaded yet: load the package, require its
    entrypoint and set [essh.module]. *)
Definition importPrepare (name : string) : M string :=
  fun s =>
    let update :=
      match rType (curReg s) with
      | RegistryTypeGlobal => if withGlobalFlag s then updateFlag s else false
      | RegistryTypeLocal => updateFlag s
      end in
    match Package_Load name update s with
    | (Ok _, s1) =>
        let indexFile := Package_IndexFile name s1 in
        match stat indexFile s1 with
        | (StatOk, s2) =>
            (Ok indexFile,
             upd_esshModule (fun _ => Some (modulevar indexFile name)) s2)
        | (StatNotExist, s2) =>
            (Raise ("invalid module: stat " +:+ indexFile
                    +:+ ": no such file or directory"), s2)
        | (StatError e, s2) => (Raise ("invalid module: " +:+ e), s2)
        end
    | (Err e, s1) | (Raise e, s1) => (Raise e, s1)
    | (Panic e, s1) => (Panic e, s1)
    | (OutOfFuel, s1) => (OutOfFuel, s1)
    end.

(** Third part: evaluate the entrypoint, clear [essh.module], keep the
    value.  [NewModule] is declared elsewhere; the module it creates is
    taken to be a [Package] of that name. *)
Definition importEvaluate (name indexFile : string) : M LValue :=
  fun s =>
    match doFile X indexFile (emit (EvDoFile indexFile) s) with
    | (inl e, s1) => (Panic e, s1)
    | (inr ret, s1) =>
        let s2 := upd_esshModule (fun m => (fun _ => LNil) <$> m) s1 in
        (Ok ret,
         upd_registryArena
           (alter (fun r => registry_setLoadedModules
                              (<[name := mkPackage name ret]> (rLoadedModules r)) r)
              (CurrentRegistry s2)) s2)
    end.

Definition esshImport (args : list LValue) : M LValue :=
  bind (importGuard args) (fun name =>
  fun s =>
    match rLoadedModules (curReg s) !! name with
    | None => bind (importPrepare name) (importEvaluate name) s
    | Some module => (Ok (pkgValue module), s)
    end).

(** Registration, lookup by name and the override link, per kind. *)
Definition register (k : Kind) : string -> State -> nat * State :=
  match k with
  | KHost => registerHost
  | KTask => registerTask
  | KDriver => registerDriver
  | KJob => registerJob
  end.

Definition lookupByName (k : Kind) (s : State) (name : string) : option nat :=
  match k with
  | KHost => Hosts s !! name
  | KTask => Tasks s !! name
  | KDriver => Drivers s !! name
  | KJob => Jobs s !! name
  end.

(** The override predecessor ([Child]) of the entity at [p]; a [Job] has
    no such field. *)
Definition overridePredecessor (k : Kind) (s : State) (p : nat) : option nat :=
  match k with
  | KHost => hChild (hostAt s p)
  | KTask => tChild (taskAt s p)
  | KDriver => dChild (driverAt s p)
  | KJob => None
  end.

Definition arenaSize (k : Kind) (s : State) : nat :=
  match k with
  | KHost => length (hostArena s)
  | KTask => length (taskArena s)
  | KDriver => length (driverArena s)
  | KJob => length (jobArena s)
  end.

(** Every registered address is allocated. *)
Definition registryClosed (k : Kind) (s : State) : Prop :=
  forall name p, lookupByName k s name = Some p -> p < arenaSize k s.

(** *** Handles: the call, index and assignment metamethods

    What indexing a handle gives: the closure that answers the entity's
    name, the [select_hosts] function (jobs only), or a value of the raw
    property bag. *)

Inductive Member :=
| MemberHostName (h : nat)
| MemberTaskName (t : nat)
| MemberDriverName (d : nat)
| MemberJobName (j : nat)
| MemberSelectHosts
| MemberValue (v : LValue).

Definition checkHost (args : list LValue) : M nat :=
  bind (CheckUserData args 1) (fun ud =>
  match ud with
  | UHost h => ret h
  | _ => raiseError "bad argument (Host object expected)"
  end).

Definition checkTask (args : list LValue) : M nat :=
  bind (CheckUserData args 1) (fun ud =>
  match ud with
  | UTask t => ret t
  | _ => raiseError "bad argument (Task object expected)"
  end).

Definition checkDriver (args : list LValue) : M nat :=
  bind (CheckUserData args 1) (fun ud =>
  match ud with
  | UDriver d => ret d
  | _ => raiseError "bad argument (Driver object expected)"
  end).

Definition checkJob (args : list LValue) : M nat :=
  bind (CheckUserData args 1) (fun ud =>
  match ud with
  | UJob j => ret j
  | _ => raiseError "bad argument (Job object expected)"
  end).

Definition hostCall (args : list LValue) : M (list LValue) :=
  bind (checkHost args) (fun host =>
  bind (CheckTable args 2) (fun tb =>
  bind (setupHost host (fst tb) (snd tb)) (fun _ =>
  bind (CheckUserData args 1) (fun ud =>
  ret (returnTop 1 (args ++ [LUserData ud])))))).

Definition hostIndex (args : list LValue) : M Member :=
  bind (checkHost args) (fun host =>
  bind (CheckString args 2) (fun index =>
  if String.eqb index "name" then ret (MemberHostName host)
  else fun s => (Ok (MemberValue (default LNil (hLValues (hostAt s host) !! index))), s))).

Definition hostNewindex (args : list LValue) : M (list LValue) :=
  bind (checkHost args) (fun host =>
  bind (CheckString args 2) (fun index =>
  bind (CheckAny args 3) (fun value =>
  bind (updateHost host index value) (fun _ => ret [])))).

Definition taskCall (fuel : nat) (args : list LValue) : M (list LValue) :=
  bind (checkTask args) (fun task =>
  bind (CheckTable args 2) (fun tb =>
  bind (setupTask fuel task (fst tb) (snd tb)) (fun _ =>
  bind (CheckUserData args 1) (fun ud =>
  ret (returnTop 1 (args ++ [LUserData ud])))))).

Definition taskIndex (args : list LValue) : M Member :=
  bind (checkTask args) (fun task =>
  bind (CheckString args 2) (fun index =>
  if String.eqb index "name" then ret (MemberTaskName task)
  else fun s => (Ok (MemberValue (default LNil (tLValues (taskAt s task) !! index))), s))).

Definition taskNewindex (fuel : nat) (args : list LValue) : M (list LValue) :=
  bind (checkTask args) (fun task =>
  bind (CheckString args 2) (fun index =>
  bind (CheckAny args 3) (fun value =>
  bind (updateTask fuel task index value) (fun _ => ret [])))).

Definition driverCall (args : list LValue) : M (list LValue) :=
  bind (checkDriver args) (fun driver =>
  bind (CheckTable args 2) (fun tb =>
  bind (setupDriver driver (fst tb) (snd tb)) (fun _ =>
  bind (CheckUserData args 1) (fun ud =>
  ret (returnTop 1 (args ++ [LUserData ud])))))).

Definition driverIndex (args : list LValue) : M Member :=
  bind (checkDriver args) (fun driver =>
  bind (CheckString args 2) (fun index =>
  if String.eqb index "name" then ret (MemberDriverName driver)
  else
    fun s => (Ok (MemberValue (default LNil (dLValues (driverAt s driver) !! index))), s))).

Definition driverNewindex (args : list LValue) : M (list LValue) :=
  bind (checkDriver args) (fun driver =>
  bind (CheckString args 2) (fun index =>
  bind (CheckAny args 3) (fun value =>
  bind (updateDriver driver index value) (fun _ => ret [])))).

Definition jobIndex (args : list LValue) : M Member :=
  bind (checkJob args) (fun job =>
  bind (CheckString args 2) (fun index =>
  if String.eqb index "name" then ret (MemberJobName job)
  else if String.eqb index "select_hosts" then ret MemberSelectHosts
  else fun s => (Ok (MemberValue (default LNil (jLValues (jobAt s job) !! index))), s))).

Definition jobNewindex (fuel : nat) (args : list LValue) : M (list LValue) :=
  bind (checkJob args) (fun job =>
  bind (CheckString args 2) (fun index =>
  bind (CheckAny args 3) (fun value =>
  bind (updateJob fuel job index value) (fun _ => ret [])))).

(** Calling what an index gave: the name closures push the entity's name
    as it is at the time of the call. *)
Definition callMember (m : Member) (args : list LValue) : M (list LValue) :=
  match m with
  | MemberHostName h => fun s => (Ok [LString (hName (hostAt s h))], s)
  | MemberTaskName t => fun s => (Ok [LString (tName (taskAt s t))], s)
  | MemberDriverName d => fun s => (Ok [LString (dName (driverAt s d))], s)
  | MemberJobName j => fun s => (Ok [LString (jName (jobAt s j))], s)
  | MemberSelectHosts => bind (esshSelectHosts args) (fun q => ret [q])
  | MemberValue v => callValue v args
  end.

(** *** Jobs *)

(** [LTable.RawSetString] on the hash part. *)
Fixpoint RawSetString (hash : list (LValue * LValue)) (key : string) (v : LValue)
  : list (LValue * LValue) :=
  match hash with
  | [] => [(LString key, v)]
  | (k, v') :: rest =>
      if isStringKey key k then (k, v) :: rest else (k, v') :: RawSetString rest key v
  end.

(** Modelled from the spec: [MapLValuesToLTable] is declared elsewhere; it
    writes the entity's raw property bag, key by key, into the table. *)
Definition MapLValuesToLTable (bag : gmap string LValue) : LValue :=
  LTable [] (List.map (fun kv => (LString (fst kv), snd kv)) (map_to_list bag)).

(** The first half of each case of the second pass of [setupJob]: the
    entity's bag is entered under its name in the table
    [job.LValues[field]], which is created when the key is missing. *)
Definition mirrorInto (job : nat) (field name : string) (bag : gmap string LValue)
  : M unit :=
  fun s =>
    let current := default (LTable [] []) (jLValues (jobAt s job) !! field) in
    match toLTable current with
    | Some (array, hash) =>
        setJob job (fun x =>
          job_setLValues
            (<[field := LTable array (RawSetString hash name (MapLValuesToLTable bag))]>
               (jLValues x)) x) s
    | None => (Panic ("broken '" +:+ field +:+ "' table"), s)
    end.

Definition setupJob (fuel : nat) (job : nat) (array : list LValue)
    (hash : list (LValue * LValue)) : M unit :=
  bind (forEachM (fun kv =>
          match toString (fst kv) with
          | Some kstr => updateJob fuel job kstr (snd kv)
          | None => ret tt
          end) (ForEach array hash)) (fun _ =>
  forEachM (fun kv =>
    match toString (fst kv) with
    | Some _ => ret tt
    | None =>
        match toFloat64 (fst kv) with
        | Some _ =>
            match snd kv with
            | LUserData (UHost h) =>
                bind (fun s => mirrorInto job "hosts" (hName (hostAt s h))
                                 (hLValues (hostAt s h)) s)
                  (fun _ => Job_RegisterHost job h)
            | LUserData (UTask t) =>
                bind (fun s => mirrorInto job "tasks" (tName (taskAt s t))
                                 (tLValues (taskAt s t)) s)
                  (fun _ => Job_RegisterTask job t)
            | LUserData (UDriver d) =>
                bind (fun s => mirrorInto job "drivers" (dName (driverAt s d))
                                 (dLValues (driverAt s d)) s)
                  (fun _ => Job_RegisterDriver job d)
            | LUserData u =>
                panic ("expected host, task or driver but got '"
                       +:+ fmtV X (LUserData u) +:+ "'" +:+ nl)
            | v =>
                panic ("expected userdata (host, task or driver) but got '"
                       +:+ fmtV X v +:+ "'" +:+ nl)
            end
        | None => panic ("invalid operation" +:+ nl)
        end
    end) (ForEach array hash)).

Definition esshJob (fuel : nat) (args : list LValue) : M LValue :=
  bind (CheckAny args 1) (fun first =>
  match toLTable first with
  | Some tb =>
      fun s =>
        let '(j, s') := registerJob (DefaultJobName X) s in
        bind (setupJob fuel j (fst tb) (snd tb)) (fun _ => ret (LUserData (UJob j))) s'
  | None =>
      bind (CheckString args 1) (fun name =>
      if Nat.eqb (length args) 1 then
        fun s => let '(j, s') := registerJob name s in (Ok (LUserData (UJob j)), s')
      else if Nat.eqb (length args) 2 then
        bind (CheckTable args 2) (fun tb =>
        fun s =>
          let '(j, s') := registerJob name s in
          bind (setupJob fuel j (fst tb) (snd tb))
            (fun _ => ret (LUserData (UJob j))) s')
      else panic "job requires 1 or 2 arguments")
  end).

Definition jobCall (fuel : nat) (args : list LValue) : M (list LValue) :=
  bind (checkJob args) (fun job =>
  bind (CheckTable args 2) (fun tb =>
  bind (setupJob fuel job (fst tb) (snd tb)) (fun _ => ret []))).

(** *** Utility functions *)

Definition esshDebug (args : list LValue) : M (list LValue) :=
  bind (CheckString args 1) (fun msg =>
  fun s => (Ok [], debugPrint msg s)).

Definition esshGetJob (args : list LValue) : M LValue :=
  bind (CheckString args 1) (fun name =>
  fun s =>
    match Jobs s !! name with
    | None => (Ok LNil, s)
    | Some job => (Ok (LUserData (UJob job)), s)
    end).

Definition esshCurrentRegistry (args : list LValue) : M LValue :=
  fun s => (Ok (LUserData (URegistry (CurrentRegistry s))), s).

Definition checkRegistry (args : list LValue) : M nat :=
  bind (CheckUserData args 1) (fun ud =>
  match ud with
  | URegistry r => ret r
  | _ => raiseError "bad argument (Registry object expected)"
  end).

Definition registryDataDir (args : list LValue) : M LValue :=
  bind (checkRegistry args) (fun reg =>
  fun s =>
    (Ok (LString (rDataDir (default (mkRegistry "" RegistryTypeGlobal ∅)
                              (registryArena s !! reg)))), s)).

End Model.

Arguments State World : clear implicits.
Arguments Externals World : clear implicits.
Arguments M World A : clear implicits.

(** ** A small concrete world

    The outside world is a counter.  The package directory is missing
    until something has been fetched; Lua closure 0 answers ["sh"],
    closure 1 answers a number, closure 2 answers ["bash"] and ["zsh"] in
    turn, closure 3 answers the list [{"x", "y"}]; every other closure
    fails. *)
Module Demo.

Definition zeroHost : Host := mkHost "" 0 None None ∅ ∅ ∅ [] [] [] [] "" false.
Definition zeroTask : Task :=
  mkTask "" 0 None None ∅ "" [] [] "" false "" false false false false [] "" false ""
    None ∅ [].
Definition zeroDriver : Driver := mkDriver "" 0 None None ∅ None.
Definition zeroJob : Job := mkJob "" "" false None ∅ ∅ ∅ ∅.

Definition call (fn : Func) (args : list LValue) (s : State nat)
  : (string + LValue) * State nat :=
  match fn with
  | LuaFn 0 => (inr (LString "sh"), s)
  | LuaFn 1 => (inr (LNumber 7), upd_world S s)
  | LuaFn 2 =>
      (inr (LString (if Nat.even (world s) then "bash" else "zsh")), upd_world S s)
  | LuaFn 3 => (inr (LTable [LString "x"; LString "y"] []), s)
  | _ => (inl "error", s)
  end.

Definition ext : Externals nat :=
  {| Sprint := fun g => match g with GString str => str | _ => "?" end;
     fmtV := fun v => match v with LString str => str | _ => "?" end;
     color_FgYB := fun str => str;
     color_FgBold := fun str => str;
     NewHost := zeroHost;
     NewTask := zeroTask;
     NewDriver := zeroDriver;
     NewJob := zeroJob;
     DefaultTaskName := "default";
     DefaultDriverName := "default";
     DefaultJobName := "default";
     DefaultDriver := 0;
     TASK_BACKEND_LOCAL := "local";
     TASK_BACKEND_REMOTE := "remote";
     PackagesDir := fun r => rDataDir r +:+ "/packages";
     path_Join := fun a b => a +:+ "/" +:+ b;
     filepath_Base := fun str => str;
     filepath_Dir := fun str => str;
     callLua := call;
     doFile := fun _ s => (inr (LString "module value"), s);
     os_Stat := fun _ w => match w with 0 => StatNotExist | _ => StatOk end;
     os_Getwd := fun _ => inr "/home/essh";
     getter_Get := fun _ _ _ w => (None, S w) |}.

(** The state of a fresh process: nothing declared, one (local)
    registry, no import in progress. *)
Definition init : State nat :=
  mkState ∅ ∅ ∅ ∅ [] [] [] [] [] [mkRegistry "/data" RegistryTypeLocal ∅] 0
    false false false (Some LNil) "" [] 0.

(** As [ext], but every entrypoint begins by importing ["inner"]. *)
Definition extNested : Externals nat :=
  {| Sprint := Sprint ext;
     fmtV := fmtV ext;
     color_FgYB := color_FgYB ext;
     color_FgBold := color_FgBold ext;
     NewHost := zeroHost;
     NewTask := zeroTask;
     NewDriver := zeroDriver;
     NewJob := zeroJob;
     DefaultTaskName := "default";
     DefaultDriverName := "default";
     DefaultJobName := "default";
     DefaultDriver := 0;
     TASK_BACKEND_LOCAL := "local";
     TASK_BACKEND_REMOTE := "remote";
     PackagesDir := PackagesDir ext;
     path_Join := path_Join ext;
     filepath_Base := filepath_Base ext;
     filepath_Dir := filepath_Dir ext;
     callLua := call;
     doFile := fun _ s =>
       match esshImport ext [LString "inner"] s with
       | (Ok v, s') => (inr v, s')
       | (o, s') => (inl (default "" (message o)), s')
       end;
     os_Stat := os_Stat ext;
     os_Getwd := os_Getwd ext;
     getter_Get := getter_Get ext |}.

(** A process in which driver ["docker"], task ["deploy"], or the hosts
    ["web01"] (tagged ["web"]) and ["db01"] have been declared. *)
Definition withDriver : State nat := snd (registerDriver ext "docker" init).

Definition withTask : State nat := snd (registerTask ext "deploy" init).

Definition withHosts : State nat :=
  snd (esshHost ext [LString "db01"]
         (snd (esshHost ext
                 [LString "web01"; LTable [] [(LString "tags", LTable [LString "web"] [])]]
                 init))).

(** [select_hosts("web")] in that process; the query handle is 0. *)
Definition withQuery : State nat := snd (esshSelectHosts ext [LString "web"] withHosts).

Definition mixedList : list LValue := [LString "web"; LNumber 7; LString "db"].

Definition importedOnce : State nat :=
  snd (esshImport ext [LString "github.com/a/b"] init).

Definition scripted : State nat :=
  snd (updateTask ext 1 0 "script" (LString "echo hi") withTask).

Definition anonymousOnce : State nat :=
  snd (esshTask ext 2 [LTable [] [(LString "script", LString "echo 1")]] init).

Definition anonymousTwice : State nat :=
  snd (esshTask ext 2 [LTable [] [(LString "script", LString "echo 2")]] anonymousOnce).

(** As [ext], but the network is unreachable. *)
Definition extOffline : Externals nat :=
  {| Sprint := Sprint ext;
     fmtV := fmtV ext;
     color_FgYB := color_FgYB ext;
     color_FgBold := color_FgBold ext;
     NewHost := zeroHost;
     NewTask := zeroTask;
     NewDriver := zeroDriver;
     NewJob := zeroJob;
     DefaultTaskName := "default";
     DefaultDriverName := "default";
     DefaultJobName := "default";
     DefaultDriver := 0;
     TASK_BACKEND_LOCAL := "local";
     TASK_BACKEND_REMOTE := "remote";
     PackagesDir := PackagesDir ext;
     path_Join := path_Join ext;
     filepath_Base := filepath_Base ext;
     filepath_Dir := filepath_Dir ext;
     callLua := call;
     doFile := doFile ext;
     os_Stat := os_Stat ext;
     os_Getwd := os_Getwd ext;
     getter_Get := fun _ _ _ w => (Some "network unreachable", w) |}.

(** A process started with [--update] whose current registry is the
    global one, its packages already on disk. *)
Definition globalCached : State nat :=
  mkState ∅ ∅ ∅ ∅ [] [] [] [] [] [mkRegistry "/data" RegistryTypeGlobal ∅] 0
    false true false (Some LNil) "" [] 1.

End Demo.

(** ** The schema: the field names each updater has a case for *)

Definition hostFields : list string :=
  ["props"; "hooks_before_connect"; "hooks_after_connect"; "hooks_after_disconnect";
   "description"; "hidden"; "tags"].

Definition taskFields : list string :=
  ["backend"; "targets"; "filters"; "description"; "pty"; "driver"; "parallel";
   "privileged"; "disabled"; "hidden"; "script"; "script_file"; "prefix"; "prepare";
   "props"; "args"].

Definition jobFields : list string :=
  ["description"; "hidden"; "prepare"; "hosts"; "tasks"; "drivers"].

(** ** Lists of strings

    The elements of a Lua list, the values at its indices [1..MaxN], and
    those of them that are strings, in order. *)

Definition listElements (array : list LValue) : list LValue :=
  firstn (MaxN array) array.

Definition stringElements (array : list LValue) : list string :=
  omap toString (listElements array).

(** ** Engine resolution *)

(** [k] resolutions of a driver's engine, one after the other, with the
    outcome of each. *)
Fixpoint resolveTimes {World : Type} (X : Externals World) (k : nat) (driver : nat)
    (s : State World) : list (Outcome string) * State World :=
  match k with
  | 0 => ([], s)
  | S k' =>
      let '(r, s1) := resolveEngine X driver s in
      let '(rs, s2) := resolveTimes X k' driver s1 in
      (r :: rs, s2)
  end.

(** What a resolution makes of one call of the callback: its error, its
    string, or the complaint that it did not return a string. *)
Definition engineAnswer {World : Type} (r : (string + LValue) * State World)
  : Outcome string * State World :=
  match r with
  | (inl e, s) => (Err e, s)
  | (inr (LString str), s) => (Ok str, s)
  | (inr _, s) => (Err "driver engine has to return a string.", s)
  end.

(** ** Script and script-file *)

(** The task holds a script-file and a script. *)
Definition holdsBoth (t : Task) : bool :=
  negb (String.eqb (tFile t) "") && (0 <? length (tScript t)).

(** ** Callbacks that declare nothing

    [taskFrame s s']: from [s] to [s'] the task registry, the number of
    tasks and every task's override link are the same.  Callbacks are
    quiet when each call is such a step. *)

Definition taskFrame {World : Type} (X : Externals World) (s s' : State World) : Prop :=
  Tasks s' = Tasks s
  /\ length (taskArena s') = length (taskArena s)
  /\ forall p, tChild (taskAt X s' p) = tChild (taskAt X s p).

Definition quietCallbacks {World : Type} (X : Externals World) : Prop :=
  forall fn args s, taskFrame X s (snd (callLua X fn args s)).

Definition preserves {World : Type} (X : Externals World) {A : Type} (m : M World A)
  : Prop :=
  forall s o s', m s = (o, s') -> taskFrame X s s'.

(** ** Counting fetches and evaluations in a trace *)

Definition isGet (e : Event) : bool :=
  match e with EvGet _ _ => true | _ => false end.

Definition isDoFile (e : Event) : bool :=
  match e with EvDoFile _ => true | _ => false end.

Definition fetches (t : list Event) : nat := length (List.filter isGet t).

Definition evaluations (t : list Event) : nat := length (List.filter isDoFile t).

(** ** What the script normalizer is specified to do

    The specification, clause by clause, as a relation between a value,
    the state it is normalized in, and the result: the segments with the
    state reached, or [None] when normalization is fatal.  A record is a
    table without a list part, an array a table with one.  A segment is a
    string map, so a record entry is merged only if its key is a string
    and its value a string or a boolean. *)

Definition coerceValue (v : LValue) : option string :=
  match v with
  | LString str => Some str
  | LBool true => Some "true"
  | LBool false => Some "false"
  | _ => None
  end.

Definition coerceEntry (kv : LValue * LValue) : option (string * string) :=
  match toString (fst kv), coerceValue (snd kv) with
  | Some k, Some v => Some (k, v)
  | _, _ => None
  end.

Fixpoint mergeEntries (m : gmap string string) (es : list (LValue * LValue))
  : option (gmap string string) :=
  match es with
  | [] => Some m
  | kv :: rest =>
      match coerceEntry kv with
      | Some (k, v) => mergeEntries (<[k := v]> m) rest
      | None => None
      end
  end.

Definition splice {S : Type} (segs : list (gmap string string))
    (r : option (list (gmap string string) * S)) : option (list (gmap string string) * S) :=
  match r with
  | Some (more, s) => Some (segs ++ more, s)
  | None => None
  end.

Section Specification.

Context {World : Type} (X : Externals World).

Inductive normalizes
  : LValue -> State World -> option (list (gmap string string) * State World) -> Prop :=
| norm_string str s :
    normalizes (LString str) s (Some ([ {[ "code" := str ]} ], s))
| norm_record array hash s m :
    MaxN array = 0 ->
    isNil (RawGetString hash "code") = false ->
    mergeEntries ∅ (ForEach array hash) = Some m ->
    normalizes (LTable array hash) s (Some ([m], s))
| norm_record_without_code array hash s :
    MaxN array = 0 ->
    isNil (RawGetString hash "code") = true ->
    normalizes (LTable array hash) s None
| norm_record_bad_entry array hash s :
    MaxN array = 0 ->
    isNil (RawGetString hash "code") = false ->
    mergeEntries ∅ (ForEach array hash) = None ->
    normalizes (LTable array hash) s None
| norm_array array hash s r :
    0 < MaxN array ->
    normalizesAll (listElements array) s r ->
    normalizes (LTable array hash) s r
| norm_other value s :
    toLTable value = None -> toString value = None ->
    normalizes value s None
with normalizesAll
  : list LValue -> State World -> option (list (gmap string string) * State World) -> Prop :=
| all_done s :
    normalizesAll [] s (Some ([], s))
| all_callable fn rest s v s1 segs s2 r :
    callLua X fn [] (emit (EvCall fn []) s) = (inr v, s1) ->
    normalizes v s1 (Some (segs, s2)) ->
    normalizesAll rest s2 r ->
    normalizesAll (LFunction fn :: rest) s (splice segs r)
| all_callable_fails fn rest s e s1 :
    callLua X fn [] (emit (EvCall fn []) s) = (inl e, s1) ->
    normalizesAll (LFunction fn :: rest) s None
| all_callable_fatal fn rest s v s1 :
    callLua X fn [] (emit (EvCall fn []) s) = (inr v, s1) ->
    normalizes v s1 None ->
    normalizesAll (LFunction fn :: rest) s None
| all_value value rest s segs s1 r :
    toLFunction value = None ->
    normalizes value s (Some (segs, s1)) ->
    normalizesAll rest s1 r ->
    normalizesAll (value :: rest) s (splice segs r)
| all_value_fatal value rest s :
    toLFunction value = None ->
    normalizes value s None ->
    normalizesAll (value :: rest) s None.

Scheme normalizes_mut := Minimality for normalizes Sort Prop
  with normalizesAll_mut := Minimality for normalizesAll Sort Prop.

(** How an outcome of the code reads as a result of the specification;
    [observedFrom acc] for the loop that extends the segments [acc]. *)
Definition observedFrom (acc : list (gmap string string))
    (o : Outcome (list (gmap string string))) (s' : State World)
    (r : option (list (gmap string string) * State World)) : Prop :=
  match o with
  | Ok segs => exists more, segs = acc ++ more /\ r = Some (more, s')
  | Err _ | Raise _ | Panic _ => r = None
  | OutOfFuel => False
  end.

Definition observed (o : Outcome (list (gmap string string))) (s' : State World)
    (r : option (list (gmap string string) * State World)) : Prop :=
  match o with
  | Ok segs => r = Some (segs, s')
  | Err _ | Raise _ | Panic _ => r = None
  | OutOfFuel => False
  end.

End Specification.

(** ** Frames

    [keeps R m]: every run of [m], however it ends, is an [R]-step. *)

Definition keeps {World A : Type} (R : State World -> State World -> Prop)
    (m : M World A) : Prop :=
  forall s o s', m s = (o, s') -> R s s'.

(** What identifies a host among the declarations: its name, registry and
    override links; the same with its raw property bag. *)
Definition hostCore (x : Host) : string * nat * option nat * option nat :=
  (hName x, hRegistry x, hChild x, hParent x).

Definition hostCoreBag (x : Host)
  : string * nat * option nat * option nat * gmap string LValue :=
  (hName x, hRegistry x, hChild x, hParent x, hLValues x).

(** [onlyHost proj h s s']: from [s] to [s'] nothing but the host arena
    changed, in it nothing but the host at [h], and of any host nothing
    that [proj] shows. *)
Definition onlyHost {World T : Type} (proj : Host -> T) (h : nat)
    (s s' : State World) : Prop :=
  s' = upd_hostArena (fun _ => hostArena s') s
  /\ length (hostArena s') = length (hostArena s)
  /\ (forall p, p <> h -> hostArena s' !! p = hostArena s !! p)
  /\ (forall p, proj <$> (hostArena s' !! p) = proj <$> (hostArena s !! p)).

(** The same for a driver. *)
Definition driverCore (x : Driver) : string * nat * option nat * option nat :=
  (dName x, dRegistry x, dChild x, dParent x).

Definition onlyDriver {World T : Type} (proj : Driver -> T) (d : nat)
    (s s' : State World) : Prop :=
  s' = upd_driverArena (fun _ => driverArena s') s
  /\ length (driverArena s') = length (driverArena s)
  /\ (forall p, p <> d -> driverArena s' !! p = driverArena s !! p)
  /\ (forall p, proj <$> (driverArena s' !! p) = proj <$> (driverArena s !! p)).

(** A monadic computation with its result dropped. *)
Definition void {World A : Type} (m : M World A) : M World unit :=
  bind m (fun _ => ret tt).

(** ** Well-formed registries

    The name an entity carries, the override link a blank entity starts
    with, and the invariant of a registry: every registered address is
    allocated, every name is bound to an entity of that name, and every
    override link of an allocated entity points to an older one. *)

Definition entityName {World : Type} (X : Externals World) (k : Kind)
    (s : State World) (p : nat) : string :=
  match k with
  | KHost => hName (hostAt X s p)
  | KTask => tName (taskAt X s p)
  | KDriver => dName (driverAt X s p)
  | KJob => jName (jobAt X s p)
  end.

Definition blankChild {World : Type} (X : Externals World) (k : Kind) : option nat :=
  match k with
  | KHost => hChild (NewHost X)
  | KTask => tChild (NewTask X)
  | KDriver => dChild (NewDriver X)
  | KJob => None
  end.

Definition namesAgree {World : Type} (X : Externals World) (k : Kind)
    (s : State World) : Prop :=
  forall n p, lookupByName k s n = Some p -> entityName X k s p = n.

Definition chainsDescend {World : Type} (X : Externals World) (k : Kind)
    (s : State World) : Prop :=
  forall p c, p < arenaSize k s -> overridePredecessor X k s p = Some c -> c < p.

Definition wellFormed {World : Type} (X : Externals World) (k : Kind)
    (s : State World) : Prop :=
  registryClosed k s /\ namesAgree X k s /\ chainsDescend X k s.

(** ** Packages

    [allChars p str]: every character of [str] satisfies [p]. *)
Fixpoint allChars (p : ascii -> bool) (str : string) : bool :=
  match str with
  | EmptyString => true
  | String c rest => p c && allChars p rest
  end.

(** Whether [Package.Load] gets as far as the getter: an update is asked
    for or the package directory does not exist, and the working directory
    can be read. *)
Definition loadFetches {World : Type} (X : Externals World) (name : string)
    (update : bool) (s : State World) : bool :=
  (update
   || match os_Stat X (Package_Dir X name s) (world s) with
      | StatNotExist => true
      | _ => false
      end)
  && match os_Getwd X (world s) with inr _ => true | inl _ => false end.

(** A step that keeps the registry of kind [k] well formed. *)
Definition keepsWellFormed {World : Type} (X : Externals World) (k : Kind)
    (s s' : State World) : Prop :=
  wellFormed X k s -> wellFormed X k s'.

(** * Properties *)

Section Properties.

Context {World : Type} (X : Externals World).

Implicit Types (s : State World) (name key : string) (value : LValue).

(** ** Registration *)

Ltac unfold_upd :=
  unfold upd_Hosts, upd_Tasks, upd_Drivers, upd_Jobs, upd_hostArena, upd_taskArena,
    upd_driverArena, upd_jobArena, upd_queryArena, upd_registryArena, upd_esshModule,
    upd_GIT_SSH, upd_trace, upd_world, emit.

Lemma registerHost_fst name s : fst (registerHost X name s) = length (hostArena s).
Proof. destruct s as [? ? ? ? ? ? ? ? ? ? ? [] ? ? ? ? ? ?]; reflexivity. Qed.

Lemma registerHost_Hosts name s :
  Hosts (snd (registerHost X name s)) = <[name := length (hostArena s)]> (Hosts s).
Proof.
  destruct s as [H ? ? ? ? ? ? ? ? ? ? [] ? ? ? ? ? ?]; unfold registerHost, debugPrint;
    cbn; destruct (H !! name); reflexivity.
Qed.

Lemma registerHost_arena name s :
  hostArena (snd (registerHost X name s)) =
    let h := length (hostArena s) in
    let a := hostArena s ++ [host_init name (CurrentRegistry s) (NewHost X)] in
    match Hosts s !! name with
    | Some host => alter (host_setParent (Some h)) host (alter (host_setChild (Some host)) h a)
    | None => a
    end.
Proof.
  destruct s as [H ? ? ? ? ? ? ? ? ? ? [] ? ? ? ? ? ?]; unfold registerHost, debugPrint;
    cbn; destruct (H !! name); reflexivity.
Qed.

Lemma registerTask_fst name s : fst (registerTask X name s) = length (taskArena s).
Proof. destruct s as [? ? ? ? ? ? ? ? ? ? ? [] ? ? ? ? ? ?]; reflexivity. Qed.

Lemma registerTask_Tasks name s :
  Tasks (snd (registerTask X name s)) = <[name := length (taskArena s)]> (Tasks s).
Proof.
  destruct s as [? T ? ? ? ? ? ? ? ? ? [] ? ? ? ? ? ?]; unfold registerTask, debugPrint;
    cbn; destruct (T !! name); reflexivity.
Qed.

Lemma registerTask_arena name s :
  taskArena (snd (registerTask X name s)) =
    let t := length (taskArena s) in
    let a := taskArena s ++ [task_init name (CurrentRegistry s) (NewTask X)] in
    match Tasks s !! name with
    | Some task => alter (task_setParent (Some t)) task (alter (task_setChild (Some task)) t a)
    | None => a
    end.
Proof.
  destruct s as [? T ? ? ? ? ? ? ? ? ? [] ? ? ? ? ? ?]; unfold registerTask, debugPrint;
    cbn; destruct (T !! name); reflexivity.
Qed.

Lemma registerDriver_fst name s : fst (registerDriver X name s) = length (driverArena s).
Proof. destruct s as [? ? ? ? ? ? ? ? ? ? ? [] ? ? ? ? ? ?]; reflexivity. Qed.

Lemma registerDriver_Drivers name s :
  Drivers (snd (registerDriver X name s)) = <[name := length (driverArena s)]> (Drivers s).
Proof.
  destruct s as [? ? D ? ? ? ? ? ? ? ? [] ? ? ? ? ? ?]; unfold registerDriver, debugPrint;
    cbn; destruct (D !! name); reflexivity.
Qed.

Lemma registerDriver_arena name s :
  driverArena (snd (registerDriver X name s)) =
    let d := length (driverArena s) in
    let a := driverArena s ++ [driver_init name (CurrentRegistry s) (NewDriver X)] in
    match Drivers s !! name with
    | Some driver =>
        alter (driver_setParent (Some d)) driver (alter (driver_setChild (Some driver)) d a)
    | None => a
    end.
Proof.
  destruct s as [? ? D ? ? ? ? ? ? ? ? [] ? ? ? ? ? ?]; unfold registerDriver, debugPrint;
    cbn; destruct (D !! name); reflexivity.
Qed.

Lemma registerJob_fst name s : fst (registerJob X name s) = length (jobArena s).
Proof. destruct s as [? ? ? ? ? ? ? ? ? ? ? [] ? ? ? ? ? ?]; reflexivity. Qed.

Lemma registerJob_Jobs name s :
  Jobs (snd (registerJob X name s)) = <[name := length (jobArena s)]> (Jobs s).
Proof. destruct s as [? ? ? ? ? ? ? ? ? ? ? [] ? ? ? ? ? ?]; reflexivity. Qed.

Lemma registerJob_arena name s :
  jobArena (snd (registerJob X name s)) = jobArena s ++ [job_setName name (NewJob X)].
Proof. destruct s as [? ? ? ? ? ? ? ? ? ? ? [] ? ? ? ? ? ?]; reflexivity. Qed.

Lemma register_fst k name s : fst (register X k name s) = arenaSize k s.
Proof.
  destruct k;
    [apply registerHost_fst | apply registerTask_fst | apply registerDriver_fst
    | apply registerJob_fst].
Qed.

Lemma register_size k name s :
  arenaSize k (snd (register X k name s)) = S (arenaSize k s).
Proof.
  destruct k; unfold arenaSize, register.
  - rewrite registerHost_arena. cbn. destruct (Hosts s !! name);
      rewrite ?length_alter, length_app; cbn; lia.
  - rewrite registerTask_arena. cbn. destruct (Tasks s !! name);
      rewrite ?length_alter, length_app; cbn; lia.
  - rewrite registerDriver_arena. cbn. destruct (Drivers s !! name);
      rewrite ?length_alter, length_app; cbn; lia.
  - rewrite registerJob_arena, length_app. cbn. lia.
Qed.

Lemma register_lookup k name s n :
  lookupByName k (snd (register X k name s)) n =
    if decide (name = n) then Some (arenaSize k s) else lookupByName k s n.
Proof.
  destruct k; unfold lookupByName, register, arenaSize;
    rewrite ?registerHost_Hosts, ?registerTask_Tasks, ?registerDriver_Drivers,
      ?registerJob_Jobs; apply lookup_insert.
Qed.

(** Registration keeps the registry closed. *)
Lemma register_closed k name s :
  registryClosed k s -> registryClosed k (snd (register X k name s)).
Proof.
  intros Hc n p. rewrite register_lookup, register_size.
  case_decide; intros Hp.
  - injection Hp as <-. lia.
  - apply Hc in Hp. lia.
Qed.

(** On a redeclared name the new entity's override predecessor is the
    entity registered before, for the kinds that carry the link. *)
Lemma register_predecessor k name s old :
  k <> KJob -> lookupByName k s name = Some old -> old < arenaSize k s ->
  overridePredecessor X k (snd (register X k name s)) (arenaSize k s) = Some old.
Proof.
  intros Hk Hl Hlt.
  destruct k; unfold lookupByName, register, arenaSize, overridePredecessor in *;
    try congruence.
  - unfold hostAt. rewrite registerHost_arena. cbn. rewrite Hl.
    rewrite list_lookup_alter_ne by lia. rewrite list_lookup_alter_eq.
    rewrite lookup_app_r by lia. now rewrite Nat.sub_diag.
  - unfold taskAt. rewrite registerTask_arena. cbn. rewrite Hl.
    rewrite list_lookup_alter_ne by lia. rewrite list_lookup_alter_eq.
    rewrite lookup_app_r by lia. now rewrite Nat.sub_diag.
  - unfold driverAt. rewrite registerDriver_arena. cbn. rewrite Hl.
    rewrite list_lookup_alter_ne by lia. rewrite list_lookup_alter_eq.
    rewrite lookup_app_r by lia. now rewrite Nat.sub_diag.
Qed.

(** C1 (as amended).  Registering a name twice leaves the registry
    mapping the name to the second instance only: no name looks up the
    first instance, which stays allocated.  For a Host, a Task and a
    Driver the second instance's override predecessor is the first; a Job
    has no override link, so the first job is simply replaced. *)
Theorem C1_redeclaration_shadows k name s p1 s1 p2 s2 :
  registryClosed k s ->
  register X k name s = (p1, s1) ->
  register X k name s1 = (p2, s2) ->
  lookupByName k s2 name = Some p2
  /\ p1 <> p2
  /\ (forall n, lookupByName k s2 n <> Some p1)
  /\ p1 < arenaSize k s2
  /\ overridePredecessor X k s2 p2 = match k with KJob => None | _ => Some p1 end.
Proof.
  intros Hc H1 H2.
  pose proof (register_fst k name s) as F1. rewrite H1 in F1. cbn in F1.
  pose proof (register_fst k name s1) as F2. rewrite H2 in F2. cbn in F2.
  pose proof (register_size k name s) as Z1. rewrite H1 in Z1. cbn in Z1.
  pose proof (register_size k name s1) as Z2. rewrite H2 in Z2. cbn in Z2.
  pose proof (register_lookup k name s) as L1. rewrite H1 in L1. cbn in L1.
  pose proof (register_lookup k name s1) as L2. rewrite H2 in L2. cbn in L2.
  assert (Hn : lookupByName k s1 name = Some p1).
  { rewrite L1. rewrite decide_True by reflexivity. now rewrite F1. }
  repeat split.
  - rewrite L2. rewrite decide_True by reflexivity. now rewrite F2.
  - lia.
  - intros n. rewrite L2. case_decide.
    + intros E. injection E as E. lia.
    + rewrite L1. case_decide; [congruence |].
      intros E. apply Hc in E. lia.
  - lia.
  - destruct (decide (k = KJob)) as [-> | Hk]; [reflexivity |].
    assert (overridePredecessor X k s2 p2 = Some p1) as ->.
    { pose proof (register_predecessor k name s1 p1 Hk Hn) as P.
      rewrite H2 in P. cbn in P. rewrite F2. apply P. lia. }
    now destruct k.
Qed.

(** ** Field updaters *)

Ltac run := unfold bind, ret, modify, panic, raiseError, errorf, setHost, setTask,
  setDriver, setJob; cbn.

Lemma prefix_app sub rest : String.prefix sub (sub +:+ rest) = true.
Proof.
  induction sub as [| c sub IH]; simpl; [now destruct rest |].
  destruct (ascii_dec c c); [exact IH | congruence].
Qed.

(** A message built around [key] names it. *)
Lemma contains_app pre key post : contains key (pre +:+ key +:+ post) = true.
Proof.
  induction pre as [| c pre IH].
  - change ("" +:+ key +:+ post) with (key +:+ post).
    pose proof (prefix_app key post) as P.
    destruct (key +:+ post); unfold contains; now rewrite P.
  - change (String c pre +:+ key +:+ post) with (String c (pre +:+ key +:+ post)).
    unfold contains; fold contains. rewrite IH. now destruct (String.prefix _ _).
Qed.

(** [updateDriver] has a single case and no default: any other field name
    is stored in the raw bag and accepted. *)
Lemma updateDriver_other_key d key value s :
  key <> "engine" ->
  updateDriver d key value s =
    (Ok tt, upd_driverArena
              (alter (fun x => driver_setLValues (<[key := value]> (dLValues x)) x) d) s).
Proof.
  intros Hk. unfold updateDriver. run.
  destruct (String.eqb_spec key "engine"); [contradiction | reflexivity].
Qed.

(** The [backend] case of [updateTask] has no [else]: a value that is not
    a string is accepted and ignored. *)
Lemma updateTask_backend_not_string fuel t value s :
  toString value = None ->
  updateTask X fuel t "backend" value s =
    (Ok tt, upd_taskArena
              (alter (fun x => task_setLValues (<["backend" := value]> (tLValues x)) x) t) s).
Proof. intros Hv. unfold updateTask. run. now rewrite Hv. Qed.

(** The sibling updaters reject an unknown field name, naming it. *)
Lemma eqb_not_in key (l : list string) k :
  ~ In key l -> In k l -> String.eqb key k = false.
Proof.
  intros Hn Hi. destruct (String.eqb_spec key k); [subst; contradiction | reflexivity].
Qed.

Lemma updateHost_unknown_field h key value s :
  unicode_IsUpper (firstChar key) = false -> ~ In key hostFields ->
  exists msg s', updateHost X h key value s = (Panic msg, s')
                 /\ contains key msg = true.
Proof.
  intros Hu Hn. unfold updateHost. run. rewrite Hu.
  rewrite !(eqb_not_in key hostFields) by (assumption || (cbn; tauto)).
  eexists _, _. split; [reflexivity | apply contains_app].
Qed.

Lemma updateTask_unknown_field fuel t key value s :
  ~ In key taskFields ->
  exists msg s', updateTask X fuel t key value s = (Panic msg, s')
                 /\ contains key msg = true.
Proof.
  intros Hn. unfold updateTask. run.
  rewrite !(eqb_not_in key taskFields) by (assumption || (cbn; tauto)).
  eexists _, _. split; [reflexivity | apply contains_app].
Qed.

Lemma updateJob_unknown_field fuel j key value s :
  ~ In key jobFields ->
  exists msg s', updateJob X fuel j key value s = (Panic msg, s')
                 /\ contains key msg = true.
Proof.
  intros Hn. unfold updateJob. run.
  rewrite !(eqb_not_in key jobFields) by (assumption || (cbn; tauto)).
  eexists _, _. split; [reflexivity | apply contains_app].
Qed.

(** C2, evaluated where the code departs from it.  On every driver and in
    every state, assigning the unknown field ["colour"] succeeds; on every
    task, assigning a boolean to the recognized field ["backend"]
    succeeds; on every host, assigning a number to the passthrough field
    ["Port"] fails with a message that does not name the field. *)
Theorem C2_updaters_accept_bad_fields :
  (forall d value s, fst (updateDriver d "colour" value s) = Ok tt)
  /\ (forall fuel t b s, fst (updateTask X fuel t "backend" (LBool b) s) = Ok tt)
  /\ (forall h n s, exists msg,
         fst (updateHost X h "Port" (LNumber n) s) = Panic msg
         /\ contains "Port" msg = false).
Proof.
  split; [| split].
  - intros d value s. now rewrite updateDriver_other_key.
  - intros fuel t b s. now rewrite updateTask_backend_not_string.
  - intros h n s. eexists. unfold updateHost. run. split; reflexivity.
Qed.

(** ** Host selection query *)

(** The inner closure of the [first] case does what [.first()] is meant
    to do; it is never reached. *)
Lemma first_inner_gives_first_or_empty q s :
  callGo X GQueryFirstInner [LUserData (UHostQuery q)] s = (Ok [firstOrEmpty X q s], s).
Proof.
  unfold callGo, checkHostQuery, CheckUserData, firstOrEmpty. run.
  now destruct (GetHosts X (queryAt s q) s).
Qed.

(** C3, evaluated on the code.  For every query handle, every argument
    list and every state, the [__index] metamethod answers nil for
    ["first"] (the nil pushed last is the one value returned), so
    [q:first()] raises a Lua error instead of giving a host or nil. *)
Theorem C3_first_always_raises q args s :
  hostQueryIndex X [LUserData (UHostQuery q); LString "first"] s = (Ok [LNil], s)
  /\ queryMethod X q "first" args s = (Raise "attempt to call a non-function object", s).
Proof. split; reflexivity. Qed.

(** ** Lists of strings *)

#[local] Arguments stringsArg : simpl never.
#[local] Arguments toSlice : simpl never.

Lemma toGoValue_string v str :
  toGoValue (Sprint X) v = GString str <-> v = LString str.
Proof.
  split; [| now intros ->].
  destruct v; cbn; try congruence. destruct (MaxN array); discriminate.
Qed.

Lemma appendStrings_toGoValue acc (xs : list LValue) :
  appendStrings acc (List.map (toGoValue (Sprint X)) xs) = acc ++ omap toString xs.
Proof.
  revert acc. induction xs as [| v xs IH]; intros acc; cbn [List.map appendStrings].
  - cbn. now rewrite app_nil_r.
  - destruct (toGoValue (Sprint X) v) eqn:E.
    3: { apply toGoValue_string in E. subst v. rewrite IH. cbn.
         now rewrite <- app_assoc. }
    all: rewrite IH; destruct v; cbn in *; try reflexivity; try discriminate.
Qed.

Lemma toSlice_list array hash :
  0 < MaxN array ->
  toSlice (Sprint X) (LTable array hash)
  = Some (List.map (toGoValue (Sprint X)) (listElements array)).
Proof.
  intros Hn. unfold toSlice, listElements. cbn [toGoValue].
  destruct (MaxN array) eqn:E; [lia |]. now rewrite firstn_map.
Qed.

Lemma stringsArg_list what array hash s :
  0 < MaxN array ->
  stringsArg X what (LTable array hash) s = (Ok (stringElements array), s).
Proof.
  intros Hn. unfold stringsArg. cbn [toString].
  rewrite toSlice_list by assumption. now rewrite appendStrings_toGoValue.
Qed.


(** ** Driver engine *)

Lemma driverAt_alter2 (f g : Driver -> Driver) d s x :
  driverArena s !! d = Some x ->
  driverAt X (upd_driverArena (alter f d) (upd_driverArena (alter g d) s)) d = f (g x).
Proof.
  intros Hx. unfold driverAt. unfold_upd. cbn.
  rewrite !list_lookup_alter_eq, Hx. reflexivity.
Qed.

Lemma resolveEngine_fixed d str s :
  dEngine (driverAt X s d) = Some (EngineFixed str) ->
  resolveEngine X d s = (Ok str, s).
Proof. intros He. unfold resolveEngine. now rewrite He. Qed.

Lemma resolveEngine_callback d f s :
  dEngine (driverAt X s d) = Some (EngineCallback f) ->
  resolveEngine X d s =
    engineAnswer (callLua X f [LUserData (UDriver d)]
                    (emit (EvCall f [LUserData (UDriver d)]) s)).
Proof.
  intros He. unfold resolveEngine. rewrite He.
  unfold runEngine, callProtected, bind, engineAnswer, errorf, ret.
  destruct (callLua X f _ _) as [[e | v] s']; [reflexivity |].
  now destruct v.
Qed.

Lemma resolveTimes_fixed d str k s :
  dEngine (driverAt X s d) = Some (EngineFixed str) ->
  resolveTimes X k d s = (replicate k (Ok str), s).
Proof.
  intros He. induction k as [| k IH]; [reflexivity |].
  cbn [resolveTimes replicate]. rewrite (resolveEngine_fixed d str s He).
  now rewrite IH.
Qed.

Lemma resolveTimes_callback_trace d f k :
  (forall a s, trace (snd (callLua X f a s)) = trace s
               /\ driverArena (snd (callLua X f a s)) !! d = driverArena s !! d) ->
  forall s, dEngine (driverAt X s d) = Some (EngineCallback f) ->
  trace (snd (resolveTimes X k d s))
  = trace s ++ replicate k (EvCall f [LUserData (UDriver d)]).
Proof.
  intros Hf. induction k as [| k IH]; intros s He.
  - cbn. now rewrite app_nil_r.
  - cbn [resolveTimes replicate]. rewrite (resolveEngine_callback d f s He).
    set (ev := EvCall f [LUserData (UDriver d)]) in *.
    destruct (Hf [LUserData (UDriver d)] (emit ev s)) as [Ht Hd].
    destruct (callLua X f [LUserData (UDriver d)] (emit ev s)) as [r s1] eqn:Ec.
    cbn [snd] in Ht, Hd.
    assert (Es : exists o, engineAnswer (r, s1) = (o, s1)).
    { unfold engineAnswer. destruct r as [e | v]; [eauto |]. destruct v; eauto. }
    destruct Es as [o ->].
    assert (He1 : dEngine (driverAt X s1 d) = Some (EngineCallback f)).
    { unfold driverAt in *. rewrite Hd. exact He. }
    specialize (IH s1 He1).
    destruct (resolveTimes X k d s1) as [rs s2]. cbn [snd] in *.
    rewrite IH, Ht. unfold_upd. cbn. now rewrite <- app_assoc.
Qed.

(** C8.  On an allocated driver, [engine = str] makes every resolution
    give [str] (and touch nothing); [engine = f] makes every resolution,
    in whatever state it happens, one call of [f] on the driver whose
    answer is used as it is: a string is the result, anything else the
    error "driver engine has to return a string."; [k] resolutions leave
    [k] calls of [f] in the trace when [f] itself is silent. *)
Theorem C8_engine_resolution d s :
  d < length (driverArena s) ->
  (forall str,
     let s1 := snd (updateDriver d "engine" (LString str) s) in
     fst (updateDriver d "engine" (LString str) s) = Ok tt
     /\ forall k, resolveTimes X k d s1 = (replicate k (Ok str), s1))
  /\ (forall f,
     let s1 := snd (updateDriver d "engine" (LFunction f) s) in
     fst (updateDriver d "engine" (LFunction f) s) = Ok tt
     /\ (forall s', dEngine (driverAt X s' d) = dEngine (driverAt X s1 d) ->
            resolveEngine X d s' =
              engineAnswer (callLua X f [LUserData (UDriver d)]
                              (emit (EvCall f [LUserData (UDriver d)]) s')))
     /\ ((forall a s', trace (snd (callLua X f a s')) = trace s'
                        /\ driverArena (snd (callLua X f a s')) !! d
                           = driverArena s' !! d) ->
         forall k, trace (snd (resolveTimes X k d s1))
                   = trace s1 ++ replicate k (EvCall f [LUserData (UDriver d)]))).
Proof.
  intros Hd. destruct (lookup_lt_is_Some_2 _ _ Hd) as [x Hx].
  split.
  - intros str. cbn zeta. split; [reflexivity |].
    intros k. apply resolveTimes_fixed.
    unfold updateDriver. run. now rewrite (driverAt_alter2 _ _ d s x Hx).
  - intros f. cbn zeta.
    assert (He : dEngine (driverAt X (snd (updateDriver d "engine" (LFunction f) s)) d)
                 = Some (EngineCallback f)).
    { unfold updateDriver. run. now rewrite (driverAt_alter2 _ _ d s x Hx). }
    split; [reflexivity |]. split.
    + intros s' Hs'. apply resolveEngine_callback. now rewrite Hs'.
    + intros Hf k. now apply resolveTimes_callback_trace.
Qed.

(** ** Script normalizer: a normalized script has at least one segment *)

Lemma bind_Ok {A B} (m : M World A) (k : A -> M World B) s b s' :
  bind m k s = (Ok b, s') ->
  exists a s1, m s = (Ok a, s1) /\ k a s1 = (Ok b, s').
Proof.
  unfold bind. destruct (m s) as [[a | e | e | e |] s1]; try discriminate.
  intros H. eauto.
Qed.

Lemma scriptArray_length (rec : LValue -> M World (list (gmap string string))) values :
  (forall v s r s', rec v s = (Ok r, s') -> 1 <= length r) ->
  forall acc s r s',
    scriptArray X rec values acc s = (Ok r, s') ->
    length acc + length values <= length r.
Proof.
  intros Hrec. induction values as [| value rest IH]; intros acc s r s' H.
  - cbn in H. injection H as <- _. cbn. lia.
  - cbn [scriptArray] in H. destruct (toLFunction value) as [fn |].
    + apply bind_Ok in H as (funcRet & s1 & _ & H).
      apply bind_Ok in H as (script & s2 & Hr & H).
      apply Hrec in Hr. apply IH in H. rewrite length_app in H. cbn. lia.
    + apply bind_Ok in H as (script & s2 & Hr & H).
      apply Hrec in Hr. apply IH in H. rewrite length_app in H. cbn. lia.
Qed.

Lemma toScript_nonempty fuel :
  forall value s r s', toScript X fuel value s = (Ok r, s') -> 1 <= length r.
Proof.
  induction fuel as [| fuel IH]; intros value s r s' H; [discriminate |].
  cbn [toScript] in H. destruct (toLTable value) as [[array hash] |].
  - cbv zeta in H. destruct (Nat.eqb_spec (MaxN array) 0) as [E | E].
    + destruct (isNil (RawGetString hash "code")); [discriminate |].
      apply bind_Ok in H as (m & s1 & _ & H). injection H as <- _. cbn. lia.
    + apply scriptArray_length in H; [| exact IH].
      rewrite length_map, length_seq in H. cbn in H. lia.
  - destruct (toString value); [| discriminate]. injection H as <- _. cbn. lia.
Qed.

(** ** Script and script-file exclude each other *)

Lemma taskAt_alter (f : Task -> Task) t s :
  t < length (taskArena s) ->
  taskAt X (upd_taskArena (alter f t) s) t = f (taskAt X s t).
Proof.
  intros Ht. destruct (lookup_lt_is_Some_2 _ _ Ht) as [x Hx].
  unfold taskAt. unfold_upd. cbn. rewrite list_lookup_alter_eq, Hx. reflexivity.
Qed.

Lemma length_taskArena_alter (f : Task -> Task) t s :
  length (taskArena (upd_taskArena (alter f t) s)) = length (taskArena s).
Proof. unfold upd_taskArena. cbn. apply length_alter. Qed.

Lemma checkScriptConflict_eq t s :
  checkScriptConflict X t s =
    (if holdsBoth (taskAt X s t) then Raise scriptConflict else Ok tt, s).
Proof. unfold checkScriptConflict, holdsBoth. now destruct (_ && _). Qed.

Lemma updateTask_script fuel t value s :
  updateTask X fuel t "script" value s =
    match toScript X fuel value
            (upd_taskArena
               (alter (fun x => task_setLValues (<["script" := value]> (tLValues x)) x) t)
               s) with
    | (Ok script, s') =>
        checkScriptConflict X t (upd_taskArena (alter (task_setScript script) t) s')
    | (Err e, s') | (Raise e, s') => (Raise e, s')
    | (Panic e, s') => (Panic e, s')
    | (OutOfFuel, s') => (OutOfFuel, s')
    end.
Proof. unfold updateTask. run. now destruct (toScript _ _ _ _) as [[] ?]. Qed.

Lemma updateTask_script_file fuel t f s :
  updateTask X fuel t "script_file" (LString f) s =
    checkScriptConflict X t
      (upd_taskArena (alter (task_setFile f) t)
         (upd_taskArena
            (alter (fun x => task_setLValues (<["script_file" := LString f]> (tLValues x)) x)
               t) s)).
Proof. unfold updateTask. run. reflexivity. Qed.

Lemma updateTask_script_Ok fuel t value s s1 :
  updateTask X fuel t "script" value s = (Ok tt, s1) ->
  holdsBoth (taskAt X s1 t) = false
  /\ (t < length (taskArena s1) -> 1 <= length (tScript (taskAt X s1 t))).
Proof.
  rewrite updateTask_script.
  destruct (toScript _ _ _ _) as [[script | e | e | e |] s'] eqn:E; try discriminate.
  rewrite checkScriptConflict_eq.
  destruct (holdsBoth _) eqn:Hb; [discriminate |]. intros H. injection H as <-.
  split; [exact Hb |]. intros Ht. rewrite length_taskArena_alter in Ht.
  rewrite taskAt_alter by assumption. cbn. now apply toScript_nonempty in E.
Qed.


(** ** Anonymous tasks *)

Lemma taskFrame_refl s : taskFrame X s s.
Proof. repeat split. Qed.

Lemma taskFrame_trans s1 s2 s3 :
  taskFrame X s1 s2 -> taskFrame X s2 s3 -> taskFrame X s1 s3.
Proof.
  intros (A1 & B1 & C1) (A2 & B2 & C2).
  split; [congruence | split; [congruence |]].
  intros p. now rewrite C2.
Qed.

Lemma taskFrame_alter (f : Task -> Task) t s :
  (forall x, tChild (f x) = tChild x) ->
  taskFrame X s (upd_taskArena (alter f t) s).
Proof.
  intros Hf. split; [reflexivity | split].
  - apply length_taskArena_alter.
  - intros p. unfold taskAt, upd_taskArena. cbn.
    destruct (decide (t = p)) as [-> | Hne].
    + rewrite list_lookup_alter_eq. destruct (taskArena s !! p); cbn; [apply Hf | reflexivity].
    + now rewrite list_lookup_alter_ne.
Qed.

Lemma preserves_ret {A} (a : A) : preserves X (ret a).
Proof. intros s o s' H. injection H as _ <-. apply taskFrame_refl. Qed.

Lemma preserves_panic {A} e : preserves X (panic (A := A) e).
Proof. intros s o s' H. injection H as _ <-. apply taskFrame_refl. Qed.

Lemma preserves_raiseError {A} e : preserves X (raiseError (A := A) e).
Proof. intros s o s' H. injection H as _ <-. apply taskFrame_refl. Qed.

Lemma preserves_errorf {A} e : preserves X (errorf (A := A) e).
Proof. intros s o s' H. injection H as _ <-. apply taskFrame_refl. Qed.

Lemma preserves_bind {A B} (m : M World A) (k : A -> M World B) :
  preserves X m -> (forall a, preserves X (k a)) -> preserves X (bind m k).
Proof.
  intros Hm Hk s o s' H. unfold bind in H.
  destruct (m s) as [r s1] eqn:E. apply Hm in E.
  destruct r; try (injection H as _ <-; exact E).
  apply Hk in H. eapply taskFrame_trans; eassumption.
Qed.

Lemma preserves_catch {A B} (m : M World A) (k : A -> M World B) :
  preserves X m -> (forall a, preserves X (k a)) ->
  preserves X (fun s =>
    match m s with
    | (Ok a, s') => k a s'
    | (Err e, s') => (Raise e, s')
    | (Raise e, s') => (Raise e, s')
    | (Panic e, s') => (Panic e, s')
    | (OutOfFuel, s') => (OutOfFuel, s')
    end).
Proof.
  intros Hm Hk s o s' H.
  destruct (m s) as [r s1] eqn:E. apply Hm in E.
  destruct r; try (injection H as _ <-; exact E).
  apply Hk in H. eapply taskFrame_trans; eassumption.
Qed.

Lemma preserves_setTask t (f : Task -> Task) :
  (forall x, tChild (f x) = tChild x) -> preserves X (setTask t f).
Proof.
  intros Hf s o s' H. injection H as _ <-. now apply taskFrame_alter.
Qed.

Lemma preserves_forEachM {A} (body : A -> M World unit) xs :
  (forall x, preserves X (body x)) -> preserves X (forEachM body xs).
Proof.
  intros Hb. induction xs as [| x xs IH]; cbn [forEachM].
  - apply preserves_ret.
  - apply preserves_bind; [apply Hb | intros _; exact IH].
Qed.

Lemma preserves_checkScriptConflict t : preserves X (checkScriptConflict X t).
Proof.
  intros s o s' H. rewrite checkScriptConflict_eq in H. injection H as _ <-.
  apply taskFrame_refl.
Qed.

Section Quiet.

Hypothesis quiet : quietCallbacks X.

Lemma preserves_callUnprotected fn args : preserves X (callUnprotected X fn args).
Proof.
  intros s o s' H. unfold callUnprotected in H.
  pose proof (quiet fn args (emit (EvCall fn args) s)) as Q.
  destruct (callLua X fn args _) as [[e | v] s1]; injection H as _ <-; exact Q.
Qed.

Lemma preserves_scriptRecord es m : preserves X (scriptRecord es m).
Proof.
  revert m. induction es as [| [k v] es IH]; intros m; cbn [scriptRecord].
  - apply preserves_ret.
  - repeat match goal with
           | |- preserves _ (match ?x with _ => _ end) => destruct x
           | |- _ => apply IH || apply preserves_panic
           end.
Qed.

Lemma preserves_scriptArray (rec : LValue -> M World (list (gmap string string)))
    values acc :
  (forall v, preserves X (rec v)) -> preserves X (scriptArray X rec values acc).
Proof.
  intros Hrec. revert acc.
  induction values as [| v values IH]; intros acc; cbn [scriptArray].
  - apply preserves_ret.
  - destruct (toLFunction v).
    + apply preserves_bind; [apply preserves_callUnprotected | intros r].
      apply preserves_bind; [apply Hrec | intros script; apply IH].
    + apply preserves_bind; [apply Hrec | intros script; apply IH].
Qed.

Lemma preserves_toScript fuel value : preserves X (toScript X fuel value).
Proof.
  revert value. induction fuel as [| fuel IH]; intros value; cbn [toScript].
  - intros s o s' H. injection H as _ <-. apply taskFrame_refl.
  - destruct (toLTable value) as [[array hash] |]; cbv zeta.
    + destruct (Nat.eqb (MaxN array) 0).
      * destruct (isNil _); [apply preserves_errorf |].
        apply preserves_bind; [apply preserves_scriptRecord | intros m].
        apply preserves_ret.
      * now apply preserves_scriptArray.
    + destruct (toString value); [apply preserves_ret | apply preserves_errorf].
Qed.

Lemma preserves_updateTask fuel t key value :
  preserves X (updateTask X fuel t key value).
Proof.
  unfold updateTask.
  apply preserves_bind; [now apply preserves_setTask | intros _].
  repeat match goal with
         | |- preserves _ (if String.eqb key ?k then _ else _) =>
             destruct (String.eqb key k)
         end;
    try (apply preserves_catch;
         [apply preserves_toScript
         | intros script; apply preserves_bind;
           [now apply preserves_setTask | intros _; apply preserves_checkScriptConflict]]);
    repeat match goal with
           | |- preserves _ (match ?x with _ => _ end) => destruct x
           | |- preserves _ (if ?b then _ else _) => destruct b
           | |- preserves _ (bind _ _) => apply preserves_bind; [| intros ?]
           | |- preserves _ (forEachM _ _) => apply preserves_forEachM; intros ?
           | |- preserves _ (setTask _ _) => apply preserves_setTask; reflexivity
           | |- preserves _ (checkScriptConflict _ _) => apply preserves_checkScriptConflict
           | |- _ => apply preserves_ret || apply preserves_panic
                     || apply preserves_raiseError
           end.
Qed.

Lemma preserves_setupTask fuel t array hash :
  preserves X (setupTask X fuel t array hash).
Proof.
  unfold setupTask. apply preserves_forEachM. intros kv.
  destruct (toString (fst kv)); [apply preserves_updateTask | apply preserves_ret].
Qed.

#[local] Arguments registerTask : simpl never.
#[local] Arguments setupTask : simpl never.

Lemma esshTask_anonymous fuel array hash s u s' :
  esshTask X fuel [LTable array hash] s = (Ok u, s') ->
  u = LUserData (UTask (length (taskArena s)))
  /\ taskFrame X (snd (registerTask X (DefaultTaskName X) s)) s'.
Proof.
  unfold esshTask, CheckAny. run.
  pose proof (registerTask_fst (DefaultTaskName X) s) as F.
  destruct (registerTask X (DefaultTaskName X) s) as [j sr]. cbn in F. subst j.
  intros H. apply bind_Ok in H as ([] & s1 & Hs & H).
  injection H as <- <-. split; [reflexivity |].
  cbn. eapply preserves_setupTask, Hs.
Qed.


End Quiet.

(** ** Module importer *)

Lemma importGuard_Ok name rest s r s' :
  importGuard X (LString name :: rest) s = (Ok r, s') ->
  r = name /\ s' = s /\ esshModule s = Some LNil.
Proof.
  unfold importGuard, CheckString. run.
  destruct (esshModule s) as [marker |]; [| discriminate].
  destruct marker; cbn; try discriminate. intros H. now injection H as <- <-.
Qed.

Lemma importGuard_pass name rest s :
  esshModule s = Some LNil -> importGuard X (LString name :: rest) s = (Ok name, s).
Proof. intros H. unfold importGuard, CheckString. run. now rewrite H. Qed.

(** An import of a loaded name, outside any entrypoint, is a lookup. *)
Lemma esshImport_hit name rest s module :
  esshModule s = Some LNil ->
  rLoadedModules (curReg s) !! name = Some module ->
  esshImport X (LString name :: rest) s = (Ok (pkgValue module), s).
Proof.
  intros Hm Hl. unfold esshImport, bind. rewrite importGuard_pass by assumption.
  now rewrite Hl.
Qed.

Lemma esshImport_nested name rest s marker :
  esshModule s = Some marker -> isNil marker = false ->
  esshImport X (LString name :: rest) s = (Raise nestedImport, s).
Proof.
  intros Hm Hn. unfold esshImport, bind, importGuard, CheckString. run.
  now rewrite Hm, Hn.
Qed.

(** What [Package.Load] does to the trace: at most one fetch and no
    evaluation. *)
Lemma Package_Load_trace name update s o s' :
  Package_Load X name update s = (o, s') ->
  exists evs, trace s' = trace s ++ evs /\ fetches evs <= 1 /\ evaluations evs = 0.
Proof.
  destruct s as [? ? ? ? ? ? ? ? ? ? ? dbg ? ? ? gitssh ? w].
  unfold Package_Load, Package_fetch, stat, printInstalling, debugPrint. cbn.
  destruct (String.eqb (filepath_Base X gitssh) "essh"), update, dbg; cbn;
    repeat match goal with
           | |- context [match os_Stat X ?p ?w with _ => _ end] =>
               destruct (os_Stat X p w); cbn
           | |- context [match os_Getwd X ?w with _ => _ end] =>
               destruct (os_Getwd X w); cbn
           | |- context [getter_Get X ?a ?b ?c ?w] =>
               destruct (getter_Get X a b c w) as [[?|] ?]; cbn
           end;
    intros H; injection H as _ <-; cbn; rewrite <- ?app_assoc;
    (eexists; split; [reflexivity | cbn; split; [lia | reflexivity]])
    || (exists []; rewrite app_nil_r; cbn; split; [reflexivity | split; [lia | reflexivity]]).
Qed.

Lemma importPrepare_Ok name s idx s0 :
  importPrepare X name s = (Ok idx, s0) ->
  esshModule s0 = Some (modulevar X idx name)
  /\ exists evs, trace s0 = trace s ++ evs /\ fetches evs <= 1 /\ evaluations evs = 0.
Proof.
  unfold importPrepare.
  destruct (Package_Load X name _ s) as [o s1] eqn:El.
  apply Package_Load_trace in El as (evs & Ht & Hf & He).
  destruct o; try discriminate.
  unfold stat. destruct (os_Stat X _ (world s1)); try discriminate.
  intros H. injection H as <- <-. split; [reflexivity |].
  exists (evs ++ [EvStat (Package_IndexFile X name s1)]).
  unfold_upd. cbn. rewrite Ht, <- app_assoc. split; [reflexivity |].
  unfold fetches, evaluations in *. rewrite !List.filter_app, !length_app. cbn. lia.
Qed.

Lemma esshImport_miss name rest s v s1 :
  rLoadedModules (curReg s) !! name = None ->
  esshImport X (LString name :: rest) s = (Ok v, s1) ->
  exists idx s0 sA,
    importPrepare X name s = (Ok idx, s0)
    /\ doFile X idx (emit (EvDoFile idx) s0) = (inr v, sA)
    /\ s1 = upd_registryArena
              (alter (fun r => registry_setLoadedModules
                                 (<[name := mkPackage name v]> (rLoadedModules r)) r)
                 (CurrentRegistry sA))
              (upd_esshModule (fun m => (fun _ => LNil) <$> m) sA).
Proof.
  intros Hl H. unfold esshImport in H.
  apply bind_Ok in H as (n & s' & Hg & H).
  apply importGuard_Ok in Hg as (-> & -> & _). rewrite Hl in H.
  apply bind_Ok in H as (idx & s0 & Hp & H).
  unfold importEvaluate in H.
  destruct (doFile X idx (emit (EvDoFile idx) s0)) as [[e | ret] sA] eqn:Ed;
    [discriminate |].
  injection H as <- <-. eauto 10.
Qed.



(** ** The script normalizer meets its specification *)

Lemma MaxN_le_length array : MaxN array <= length array.
Proof.
  induction array as [| x rest IH]; cbn; [lia |].
  destruct (MaxN rest); [destruct (isNil x); lia | lia].
Qed.

Lemma map_nth_seq {A} (d : A) (l : list A) n :
  n <= length l -> List.map (fun j => nth j l d) (seq 0 n) = firstn n l.
Proof.
  revert n. induction l as [| x l IH]; intros [| n] Hn; cbn in *; try reflexivity; try lia.
  f_equal. rewrite <- seq_shift, List.map_map. cbn. apply IH. lia.
Qed.

Lemma elements_by_index array :
  List.map (RawGetInt array) (seq 1 (MaxN array)) = listElements array.
Proof.
  unfold listElements. rewrite <- seq_shift, List.map_map. cbn.
  apply map_nth_seq, MaxN_le_length.
Qed.

Lemma scriptRecord_spec es m s :
  match mergeEntries m es with
  | Some m' => scriptRecord (World := World) es m s = (Ok m', s)
  | None => exists e, scriptRecord (World := World) es m s = (Panic e, s)
  end.
Proof.
  revert m. induction es as [| [k v] es IH]; intros m; cbn [mergeEntries scriptRecord].
  - reflexivity.
  - unfold coerceEntry. cbn [fst snd].
    destruct v as [| [] | vs | | | |], k as [| | ks | | | |]; cbn;
      try (eexists; reflexivity); apply IH.
Qed.

Lemma observed_not_OutOfFuel o s' r : observed o s' r -> o <> OutOfFuel.
Proof. destruct o; cbn; congruence. Qed.

Lemma observedFrom_not_OutOfFuel acc o s' r : observedFrom acc o s' r -> o <> OutOfFuel.
Proof. destruct o; cbn; congruence. Qed.

Lemma toLFunction_Some value fn : toLFunction value = Some fn -> value = LFunction fn.
Proof. destruct value; cbn; congruence. Qed.

Lemma scriptArray_sound (rec : LValue -> M World (list (gmap string string))) values :
  (forall v s o s', rec v s = (o, s') -> o <> OutOfFuel ->
                    exists r, normalizes X v s r /\ observed o s' r) ->
  forall acc s o s',
    scriptArray X rec values acc s = (o, s') -> o <> OutOfFuel ->
    exists r, normalizesAll X values s r /\ observedFrom acc o s' r.
Proof.
  intros Hrec. induction values as [| value rest IH]; intros acc s o s' H Ho.
  - injection H as <- <-. exists (Some ([], s)). split; [constructor |].
    exists []. now rewrite app_nil_r.
  - cbn [scriptArray] in H. destruct (toLFunction value) as [fn |] eqn:Ef.
    + apply toLFunction_Some in Ef. subst value.
      unfold bind at 1, callUnprotected in H.
      destruct (callLua X fn [] (emit (EvCall fn []) s)) as [[e | v] s1] eqn:Ec.
      { injection H as <- <-. exists None. split; [| reflexivity].
        eapply all_callable_fails; eassumption. }
      unfold bind at 1 in H. destruct (rec v s1) as [o1 s2] eqn:Er.
      destruct o1 as [segs | e | e | e |];
        try (injection H as <- <-;
             destruct (Hrec _ _ _ _ Er ltac:(discriminate)) as (r1 & N1 & O1);
             cbn in O1; subst r1; exists None; split; [| reflexivity];
             eapply all_callable_fatal; eassumption).
      * destruct (Hrec _ _ _ _ Er ltac:(discriminate)) as (r1 & N1 & O1).
        cbn in O1. subst r1.
        destruct (IH _ _ _ _ H Ho) as (r & Nr & Or).
        exists (splice segs r). split; [eapply all_callable; eassumption |].
        destruct o; cbn in *; try (now subst r); try contradiction.
        destruct Or as (more & -> & ->). exists (segs ++ more).
        now rewrite app_assoc.
      * injection H as <- <-. contradiction.
    + unfold bind at 1 in H. destruct (rec value s) as [o1 s2] eqn:Er.
      destruct o1 as [segs | e | e | e |];
        try (injection H as <- <-;
             destruct (Hrec _ _ _ _ Er ltac:(discriminate)) as (r1 & N1 & O1);
             cbn in O1; subst r1; exists None; split; [| reflexivity];
             eapply all_value_fatal; eassumption).
      * destruct (Hrec _ _ _ _ Er ltac:(discriminate)) as (r1 & N1 & O1).
        cbn in O1. subst r1.
        destruct (IH _ _ _ _ H Ho) as (r & Nr & Or).
        exists (splice segs r). split; [eapply all_value; eassumption |].
        destruct o; cbn in *; try (now subst r); try contradiction.
        destruct Or as (more & -> & ->). exists (segs ++ more).
        now rewrite app_assoc.
      * injection H as <- <-. contradiction.
Qed.

Lemma toScript_sound fuel :
  forall value s o s',
    toScript X fuel value s = (o, s') -> o <> OutOfFuel ->
    exists r, normalizes X value s r /\ observed o s' r.
Proof.
  induction fuel as [| fuel IH]; intros value s o s' H Ho.
  - injection H as <- <-. contradiction.
  - cbn [toScript] in H. destruct value as [| b | str | n | f | u | array hash];
      cbn [toLTable toString] in H;
      try (injection H as <- <-; exists None; split; [now constructor | reflexivity]).
    + injection H as <- <-. eexists. split; [constructor | reflexivity].
    + cbv zeta in H. destruct (Nat.eqb_spec (MaxN array) 0) as [E | E].
      * destruct (isNil (RawGetString hash "code")) eqn:Ec.
        { injection H as <- <-. exists None. split; [| reflexivity].
          now apply norm_record_without_code. }
        unfold bind in H.
        pose proof (scriptRecord_spec (ForEach array hash) ∅ s) as R.
        destruct (mergeEntries ∅ (ForEach array hash)) as [m |] eqn:Em.
        -- rewrite R in H. injection H as <- <-.
           exists (Some ([m], s)). split; [now apply norm_record | reflexivity].
        -- destruct R as [e R]. rewrite R in H. injection H as <- <-.
           exists None. split; [now apply norm_record_bad_entry | reflexivity].
      * destruct (scriptArray_sound _ _ IH _ _ _ _ H Ho) as (r & Nr & Or).
        rewrite elements_by_index in Nr.
        exists r. split; [apply norm_array; [lia | exact Nr] |].
        destruct o; cbn in *; try assumption.
        now destruct Or as (more & -> & ->).
Qed.

Lemma scriptArray_mono (rec rec' : LValue -> M World (list (gmap string string))) values :
  (forall v s o s', rec v s = (o, s') -> o <> OutOfFuel -> rec' v s = (o, s')) ->
  forall acc s o s',
    scriptArray X rec values acc s = (o, s') -> o <> OutOfFuel ->
    scriptArray X rec' values acc s = (o, s').
Proof.
  intros Hrec. induction values as [| value rest IH]; intros acc s o s' H Ho;
    [exact H |].
  cbn [scriptArray] in *. destruct (toLFunction value) as [fn |].
  - unfold bind at 1 in H. unfold bind at 1.
    destruct (callUnprotected X fn [] s) as [[v | e | e | e |] s1]; try exact H.
    unfold bind at 1 in H. unfold bind at 1.
    destruct (rec v s1) as [o1 s2] eqn:Er.
    destruct o1 as [segs | e | e | e |];
      try (rewrite (Hrec _ _ _ _ Er ltac:(discriminate)); try exact H; now apply IH).
    injection H as <- <-. contradiction.
  - unfold bind at 1 in H. unfold bind at 1.
    destruct (rec value s) as [o1 s2] eqn:Er.
    destruct o1 as [segs | e | e | e |];
      try (rewrite (Hrec _ _ _ _ Er ltac:(discriminate)); try exact H; now apply IH).
    injection H as <- <-. contradiction.
Qed.

(** More fuel does not change a result. *)
Lemma toScript_mono n :
  forall m value s o s',
    n <= m -> toScript X n value s = (o, s') -> o <> OutOfFuel ->
    toScript X m value s = (o, s').
Proof.
  induction n as [| n IH]; intros m value s o s' Hle H Ho.
  - injection H as <- <-. contradiction.
  - destruct m as [| m]; [lia |]. cbn [toScript] in *.
    destruct (toLTable value) as [[array hash] |]; [| exact H].
    cbv zeta in *. destruct (Nat.eqb (MaxN array) 0); [exact H |].
    eapply scriptArray_mono; [| exact H | exact Ho].
    intros v s0 o0 s0' Hv Ho0. apply IH; [lia | assumption | assumption].
Qed.

Lemma toScript_complete value s r :
  normalizes X value s r ->
  exists fuel o s', toScript X fuel value s = (o, s') /\ observed o s' r.
Proof.
  revert value s r.
  apply (normalizes_mut X
    (fun value s r =>
       exists fuel o s', toScript X fuel value s = (o, s') /\ observed o s' r)
    (fun values s r =>
       exists fuel, forall acc, exists o s',
         scriptArray X (toScript X fuel) values acc s = (o, s')
         /\ observedFrom acc o s' r)).
  - intros str s. exists 1. eexists _, _. split; reflexivity.
  - intros array hash s m E Ec Em. exists 1. cbn [toScript toLTable]. cbv zeta.
    rewrite E, Ec. cbn [Nat.eqb]. unfold bind.
    pose proof (scriptRecord_spec (ForEach array hash) ∅ s) as R. rewrite Em in R.
    rewrite R. eexists _, _. split; reflexivity.
  - intros array hash s E Ec. exists 1. cbn [toScript toLTable]. cbv zeta.
    rewrite E, Ec. eexists _, _. split; reflexivity.
  - intros array hash s E Ec Em. exists 1. cbn [toScript toLTable]. cbv zeta.
    rewrite E, Ec. cbn [Nat.eqb]. unfold bind.
    pose proof (scriptRecord_spec (ForEach array hash) ∅ s) as R. rewrite Em in R.
    destruct R as [e R]. rewrite R. eexists _, _. split; reflexivity.
  - intros array hash s r E _ [fuel Hall]. exists (S fuel).
    cbn [toScript toLTable]. cbv zeta.
    destruct (Nat.eqb_spec (MaxN array) 0) as [E0 | _]; [lia |].
    rewrite elements_by_index.
    destruct (Hall []) as (o & s' & Hs & Ho). exists o, s'. split; [exact Hs |].
    destruct o; cbn in *; try assumption. now destruct Ho as (more & -> & ->).
  - intros value s Et Es. exists 1. cbn [toScript]. rewrite Et, Es.
    eexists _, _. split; reflexivity.
  - intros s. exists 0. intros acc. exists (Ok acc), s. split; [reflexivity |].
    exists []. now rewrite app_nil_r.
  - intros fn rest s v s1 segs s2 r Ec _ (f1 & o1 & s1' & H1 & O1) _ (f2 & H2).
    destruct o1; cbn in O1; try discriminate; try contradiction.
    injection O1 as <- <-.
    exists (Nat.max f1 f2). intros acc.
    destruct (H2 (acc ++ segs)) as (o & s' & Hs & Ho).
    exists o, s'. split.
    + cbn [scriptArray toLFunction]. unfold bind at 1, callUnprotected. rewrite Ec.
      unfold bind at 1.
      rewrite (toScript_mono f1 (Nat.max f1 f2) v s1 _ _ ltac:(lia) H1 ltac:(discriminate)).
      eapply scriptArray_mono; [| exact Hs | eapply observedFrom_not_OutOfFuel, Ho].
      intros v0 s0 o0 s0' Hv Ho0. eapply toScript_mono; [| exact Hv | exact Ho0]. lia.
    + destruct o; cbn in *; try (now subst r); try contradiction.
      destruct Ho as (more & -> & ->). exists (segs ++ more). now rewrite app_assoc.
  - intros fn rest s e s1 Ec. exists 0. intros acc. exists (Panic e), s1.
    split; [| reflexivity].
    cbn [scriptArray toLFunction]. unfold bind at 1, callUnprotected. now rewrite Ec.
  - intros fn rest s v s1 Ec _ (f1 & o1 & s1' & H1 & O1).
    exists f1. intros acc. exists o1, s1'. split.
    + cbn [scriptArray toLFunction]. unfold bind at 1, callUnprotected. rewrite Ec.
      unfold bind at 1. rewrite H1.
      destruct o1; cbn in O1; try discriminate; try contradiction; reflexivity.
    + destruct o1; cbn in *; try discriminate; try contradiction; reflexivity.
  - intros value rest s segs s1 r Ef _ (f1 & o1 & s1' & H1 & O1) _ (f2 & H2).
    destruct o1; cbn in O1; try discriminate; try contradiction.
    injection O1 as <- <-.
    exists (Nat.max f1 f2). intros acc.
    destruct (H2 (acc ++ segs)) as (o & s' & Hs & Ho).
    exists o, s'. split.
    + cbn [scriptArray]. rewrite Ef. unfold bind at 1.
      rewrite (toScript_mono f1 (Nat.max f1 f2) value s _ _ ltac:(lia) H1
                 ltac:(discriminate)).
      eapply scriptArray_mono; [| exact Hs | eapply observedFrom_not_OutOfFuel, Ho].
      intros v0 s0 o0 s0' Hv Ho0. eapply toScript_mono; [| exact Hv | exact Ho0]. lia.
    + destruct o; cbn in *; try (now subst r); try contradiction.
      destruct Ho as (more & -> & ->). exists (segs ++ more). now rewrite app_assoc.
  - intros value rest s Ef _ (f1 & o1 & s1' & H1 & O1).
    exists f1. intros acc. exists o1, s1'. split.
    + cbn [scriptArray]. rewrite Ef. unfold bind at 1. rewrite H1.
      destruct o1; cbn in O1; try discriminate; try contradiction; reflexivity.
    + destruct o1; cbn in *; try discriminate; try contradiction; reflexivity.
Qed.

(** C4.  The script normalizer does what its specification says: a value
    normalizes to a result (the segments and the state reached, or a fatal
    error) exactly when [toScript], given enough fuel, ends with that
    result. *)
Theorem C4_toScript_meets_specification value s r :
  normalizes X value s r
  <-> exists fuel o s', toScript X fuel value s = (o, s') /\ observed o s' r.
Proof.
  split.
  - apply toScript_complete.
  - intros (fuel & o & s' & H & Ho).
    destruct (toScript_sound fuel value s o s' H (observed_not_OutOfFuel _ _ _ Ho))
      as (r' & Nr & Or).
    destruct o; cbn in *; try contradiction; congruence.
Qed.

(** ** Further properties of the bridge *)

(** *** Frames of the host and driver updaters *)

Lemma keeps_ret {A} (R : State World -> State World -> Prop) `{!Reflexive R} (a : A) :
  keeps R (ret a).
Proof. intros s o s' H. injection H as _ <-. reflexivity. Qed.

Lemma keeps_panic {A} (R : State World -> State World -> Prop) `{!Reflexive R} e :
  keeps R (panic (A := A) e).
Proof. intros s o s' H. injection H as _ <-. reflexivity. Qed.

Lemma keeps_raiseError {A} (R : State World -> State World -> Prop) `{!Reflexive R} e :
  keeps R (raiseError (A := A) e).
Proof. intros s o s' H. injection H as _ <-. reflexivity. Qed.

Lemma keeps_bind {A B} (R : State World -> State World -> Prop)
    `{!Reflexive R} `{!Transitive R} (m : M World A) (k : A -> M World B) :
  keeps R m -> (forall a, keeps R (k a)) -> keeps R (bind m k).
Proof.
  intros Hm Hk s o s' H. unfold bind in H.
  destruct (m s) as [r s1] eqn:E. apply Hm in E.
  destruct r; try (injection H as _ <-; exact E).
  apply Hk in H. etransitivity; eassumption.
Qed.

Lemma keeps_forEachM {A} (R : State World -> State World -> Prop)
    `{!Reflexive R} `{!Transitive R} (body : A -> M World unit) xs :
  (forall x, keeps R (body x)) -> keeps R (forEachM body xs).
Proof.
  intros Hb. induction xs as [| x xs IH]; cbn [forEachM].
  - now apply keeps_ret.
  - apply keeps_bind; [assumption | assumption | apply Hb | intros _; exact IH].
Qed.

#[local] Instance onlyHost_refl {T} (proj : Host -> T) h :
  Reflexive (onlyHost (World := World) proj h).
Proof. intros s. split; [now destruct s | repeat split]. Qed.

#[local] Instance onlyHost_trans {T} (proj : Host -> T) h :
  Transitive (onlyHost (World := World) proj h).
Proof.
  intros s1 s2 s3 (E1 & L1 & O1 & P1) (E2 & L2 & O2 & P2).
  split; [| split; [congruence | split]].
  - rewrite E2 at 1. rewrite E1. now destruct s1.
  - intros p Hp. now rewrite O2, O1.
  - intros p. now rewrite P2, P1.
Qed.

Lemma keeps_setHost {T} (proj : Host -> T) h (f : Host -> Host) :
  (forall x, proj (f x) = proj x) ->
  keeps (World := World) (onlyHost proj h) (setHost h f).
Proof.
  intros Hf s o s' H. injection H as _ <-. split; [now destruct s |].
  unfold upd_hostArena. cbn. split; [apply length_alter | split].
  - intros p Hp. now apply list_lookup_alter_ne.
  - intros p. destruct (decide (h = p)) as [-> | Hne].
    + rewrite list_lookup_alter_eq. destruct (hostArena s !! p); cbn; [| reflexivity].
      now rewrite Hf.
    + now rewrite list_lookup_alter_ne.
Qed.

Lemma onlyHost_weaken {T U} (proj : Host -> T) (g : T -> U) h s s' :
  onlyHost (World := World) proj h s s' -> onlyHost (fun x => g (proj x)) h s s'.
Proof.
  intros (E & L & O & P). repeat split; try assumption.
  intros p. specialize (P p).
  destruct (hostArena s' !! p), (hostArena s !! p); cbn in *; congruence.
Qed.

(** After the raw bag has been written, the rest of [updateHost] leaves
    the bag, the name and the links alone. *)
Lemma updateHost_tail h key value s o s' :
  updateHost X h key value s = (o, s') ->
  onlyHost hostCoreBag h
    (upd_hostArena
       (alter (fun x => host_setLValues (<[key := value]> (hLValues x)) x) h) s) s'.
Proof.
  unfold updateHost. unfold bind at 1. unfold setHost at 1, modify at 1.
  match goal with
  | |- ?m ?s1 = _ -> _ =>
      assert (K : keeps (onlyHost hostCoreBag h) m); [| intros H; exact (K _ _ _ H)]
  end.
  repeat match goal with
         | |- keeps _ (if ?b then _ else _) => destruct b
         | |- keeps _ (match ?x with _ => _ end) => destruct x
         | |- keeps _ (bind _ _) => apply keeps_bind; try apply _; [| intros ?]
         | |- keeps _ (forEachM _ _) => apply keeps_forEachM; try apply _; intros ?
         | |- keeps _ (setHost _ _) => apply keeps_setHost; reflexivity
         | |- keeps _ (ret _) => apply keeps_ret; apply _
         | |- keeps _ (panic _) => apply keeps_panic; apply _
         | |- keeps _ (raiseError _) => apply keeps_raiseError; apply _
         end.
Qed.

Lemma keeps_updateHost h key value :
  keeps (onlyHost hostCore h) (updateHost X h key value).
Proof.
  intros s o s' H. apply updateHost_tail in H.
  transitivity (upd_hostArena
       (alter (fun x => host_setLValues (<[key := value]> (hLValues x)) x) h) s).
  - eapply (keeps_setHost hostCore h); [| reflexivity]. reflexivity.
  - apply (onlyHost_weaken hostCoreBag fst) in H.
    destruct H as (E & L & O & P). repeat split; try assumption.
Qed.

Lemma keeps_setupHost h array hash :
  keeps (onlyHost hostCore h) (setupHost X h array hash).
Proof.
  unfold setupHost. apply keeps_forEachM; try apply _. intros kv.
  destruct (toString (fst kv)); [apply keeps_updateHost | apply keeps_ret; apply _].
Qed.

(** X1.  [updateHost] changes nothing in the program state but the host
    it is given, and of that host never the name, the registry or the
    override links, whatever the field and however the update ends. *)
Theorem X1_updateHost_touches_only_its_host h key value s :
  onlyHost hostCore h s (snd (updateHost X h key value s)).
Proof.
  destruct (updateHost X h key value s) as [o s'] eqn:H. cbn [snd].
  exact (keeps_updateHost h key value s o s' H).
Qed.

(** *** Declaring a host *)

Lemma esshHost_configured name array hash s :
  esshHost X [LString name; LTable array hash] s =
    match setupHost X (length (hostArena s)) array hash (snd (registerHost X name s)) with
    | (Ok _, s') => (Ok (LUserData (UHost (length (hostArena s)))), s')
    | (Err e, s') => (Err e, s')
    | (Raise e, s') => (Raise e, s')
    | (Panic e, s') => (Panic e, s')
    | (OutOfFuel, s') => (OutOfFuel, s')
    end.
Proof.
  unfold esshHost, CheckString, CheckTable. cbn [Get RawGetInt nth length Nat.eqb].
  unfold bind at 1. cbn [ret]. unfold bind at 1. cbn [ret fst snd].
  pose proof (registerHost_fst name s) as F.
  destruct (registerHost X name s) as [h s1]. cbn in F. subst h. cbn [snd].
  unfold bind, ret. now destruct (setupHost X _ array hash s1) as [[] ?].
Qed.

(** X2.  [host(name, config)] registers before it configures: however the
    configuration ends, also when it panics, [name] is bound to the new
    host, no other binding has changed, and the new host carries the
    name. *)
Theorem X2_host_registered_even_if_configuration_fails name array hash s :
  let s' := snd (esshHost X [LString name; LTable array hash] s) in
  Hosts s' = <[name := length (hostArena s)]> (Hosts s)
  /\ length (hostArena s') = S (length (hostArena s))
  /\ hName (hostAt X s' (length (hostArena s))) = name.
Proof.
  cbv zeta. rewrite esshHost_configured.
  set (h := length (hostArena s)).
  destruct (setupHost X h array hash (snd (registerHost X name s))) as [o s'] eqn:E.
  apply keeps_setupHost in E as (Es & L & _ & P).
  assert (Hs : snd (match o with
                    | Ok _ => (Ok (LUserData (UHost h)), s')
                    | Err e => (Err e, s')
                    | Raise e => (Raise e, s')
                    | Panic e => (Panic e, s')
                    | OutOfFuel => (OutOfFuel, s')
                    end) = s') by now destruct o.
  rewrite Hs. clear Hs. split; [| split].
  - rewrite Es. cbn. apply registerHost_Hosts.
  - rewrite L. apply (register_size KHost).
  - specialize (P h). unfold hostAt.
    assert (Hn : hName <$> (hostArena (snd (registerHost X name s)) !! h) = Some name).
    { rewrite registerHost_arena. cbn zeta. fold h.
      assert (Hi : (hostArena s ++ [host_init name (CurrentRegistry s) (NewHost X)]) !! h
                   = Some (host_init name (CurrentRegistry s) (NewHost X))).
      { rewrite lookup_app_r by (unfold h; lia).
        replace (h - length (hostArena s)) with 0 by (unfold h; lia). reflexivity. }
      destruct (Hosts s !! name) as [old |]; [| now rewrite Hi].
      destruct (decide (old = h)) as [-> | Hne].
      - rewrite !list_lookup_alter_eq, Hi. reflexivity.
      - rewrite list_lookup_alter_ne by assumption.
        rewrite list_lookup_alter_eq, Hi. reflexivity. }
    destruct (hostArena s' !! h) as [x |], (hostArena (snd (registerHost X name s)) !! h)
      as [y |]; cbn in *; try discriminate.
    injection P as P _ _ _. congruence.
Qed.

(** *** The raw property bag *)

Lemma snd_bind_ret {A B} (m : M World A) (b : B) s :
  snd (bind m (fun _ => ret b) s) = snd (m s).
Proof. unfold bind, ret. now destruct (m s) as [[] ?]. Qed.

Lemma updateHost_bag h key value s x :
  hostArena s !! h = Some x ->
  hLValues (hostAt X (snd (updateHost X h key value s)) h) = <[key := value]> (hLValues x)
  /\ hName (hostAt X (snd (updateHost X h key value s)) h) = hName x.
Proof.
  intros Hx. destruct (updateHost X h key value s) as [o s'] eqn:H. cbn [snd].
  apply updateHost_tail in H as (_ & _ & _ & P). specialize (P h).
  unfold upd_hostArena in P. cbn in P. rewrite list_lookup_alter_eq, Hx in P.
  unfold hostAt. destruct (hostArena s' !! h) as [y |]; [| discriminate].
  cbn in *. injection P as -> _ _ _ ->. split; reflexivity.
Qed.

Lemma updateDriver_bag d key value s x :
  driverArena s !! d = Some x ->
  dLValues (driverAt X (snd (updateDriver d key value s)) d) = <[key := value]> (dLValues x)
  /\ dName (driverAt X (snd (updateDriver d key value s)) d) = dName x.
Proof.
  intros Hx. unfold updateDriver, bind, setDriver, modify, ret, raiseError, driverAt.
  destruct (String.eqb key "engine"); [| cbn; now rewrite list_lookup_alter_eq, Hx].
  destruct value; cbn; rewrite ?list_lookup_alter_eq, Hx; split; reflexivity.
Qed.

Lemma hostIndex_eq h key s :
  hostIndex X [LUserData (UHost h); LString key] s
  = (Ok (if String.eqb key "name" then MemberHostName h
         else MemberValue (default LNil (hLValues (hostAt X s h) !! key))), s).
Proof.
  unfold hostIndex, checkHost, CheckUserData, CheckString, bind, ret. cbn.
  now destruct (String.eqb key "name").
Qed.

Lemma driverIndex_eq d key s :
  driverIndex X [LUserData (UDriver d); LString key] s
  = (Ok (if String.eqb key "name" then MemberDriverName d
         else MemberValue (default LNil (dLValues (driverAt X s d) !! key))), s).
Proof.
  unfold driverIndex, checkDriver, CheckUserData, CheckString, bind, ret. cbn.
  now destruct (String.eqb key "name").
Qed.

(** X3.  Assigning a field on a host or driver handle writes the value
    into the raw bag before anything is checked: reading the field back
    gives the value that was assigned, also when the assignment failed.
    The member [name] is the exception: however it is assigned, indexing
    it gives the name closure, which still answers the declared name. *)
Theorem X3_assigned_field_reads_back h d key value s :
  h < length (hostArena s) -> d < length (driverArena s) ->
  let sh := snd (hostNewindex X [LUserData (UHost h); LString key; value] s) in
  let sd := snd (driverNewindex X [LUserData (UDriver d); LString key; value] s) in
  hostIndex X [LUserData (UHost h); LString key] sh
  = (Ok (if String.eqb key "name" then MemberHostName h else MemberValue value), sh)
  /\ driverIndex X [LUserData (UDriver d); LString key] sd
     = (Ok (if String.eqb key "name" then MemberDriverName d else MemberValue value), sd)
  /\ callMember X (MemberHostName h) [] sh = (Ok [LString (hName (hostAt X s h))], sh)
  /\ callMember X (MemberDriverName d) [] sd = (Ok [LString (dName (driverAt X s d))], sd).
Proof.
  intros Hh Hd. cbv zeta.
  destruct (lookup_lt_is_Some_2 _ _ Hh) as [x Hx].
  destruct (lookup_lt_is_Some_2 _ _ Hd) as [y Hy].
  assert (Eh : snd (hostNewindex X [LUserData (UHost h); LString key; value] s)
               = snd (updateHost X h key value s)).
  { unfold hostNewindex, checkHost, CheckUserData, CheckString, CheckAny.
    cbn [Get RawGetInt nth length Nat.ltb Nat.leb]. unfold bind at 1 2 3 4. cbn [ret].
    apply snd_bind_ret. }
  assert (Ed : snd (driverNewindex X [LUserData (UDriver d); LString key; value] s)
               = snd (updateDriver d key value s)).
  { unfold driverNewindex, checkDriver, CheckUserData, CheckString, CheckAny.
    cbn [Get RawGetInt nth length Nat.ltb Nat.leb]. unfold bind at 1 2 3 4. cbn [ret].
    apply snd_bind_ret. }
  rewrite Eh, Ed.
  destruct (updateHost_bag h key value s x Hx) as [Bh Nh].
  destruct (updateDriver_bag d key value s y Hy) as [Bd Nd].
  repeat split.
  - rewrite hostIndex_eq, Bh, lookup_insert_eq. reflexivity.
  - rewrite driverIndex_eq, Bd, lookup_insert_eq. reflexivity.
  - unfold callMember. rewrite Nh. unfold hostAt. now rewrite Hx.
  - unfold callMember. rewrite Nd. unfold driverAt. now rewrite Hy.
Qed.

(** *** Positional entries of a configuration table *)

Lemma forEachM_app {A} (body : A -> M World unit) xs ys s :
  forEachM body (xs ++ ys) s = bind (forEachM body xs) (fun _ => forEachM body ys) s.
Proof.
  revert s. induction xs as [| x xs IH]; intros s; cbn [forEachM app].
  - reflexivity.
  - unfold bind. destruct (body x s) as [[[] | | | |] s1]; try reflexivity.
    rewrite IH. reflexivity.
Qed.

Lemma forEachM_skip {A} (body : A -> M World unit) xs s :
  (forall x, In x xs -> body x = ret tt) -> forEachM body xs s = (Ok tt, s).
Proof.
  induction xs as [| x xs IH]; intros Hb; cbn [forEachM]; [reflexivity |].
  unfold bind. rewrite (Hb x (or_introl eq_refl)). cbn.
  apply IH. intros y Hy. apply Hb. now right.
Qed.

Lemma arrayEntries_keys i array kv :
  In kv (arrayEntries i array) -> toString (fst kv) = None.
Proof.
  revert i. induction array as [| v rest IH]; intros i; cbn; [tauto |].
  intros [<- | H]; [reflexivity | eauto].
Qed.

(** A loop over the entries of a table whose body skips every key that
    is not a string sees the hash part only. *)
Lemma forEach_string_keys (body : string -> LValue -> M World unit) array hash s :
  forEachM (fun kv => match toString (fst kv) with
                      | Some kstr => body kstr (snd kv)
                      | None => ret tt
                      end) (ForEach array hash) s
  = forEachM (fun kv => match toString (fst kv) with
                        | Some kstr => body kstr (snd kv)
                        | None => ret tt
                        end) (ForEach [] hash) s.
Proof.
  unfold ForEach. cbn [arrayEntries app]. rewrite List.filter_app, forEachM_app.
  unfold bind. rewrite forEachM_skip; [reflexivity |].
  intros kv Hin. apply List.filter_In in Hin as [Hin _].
  now rewrite (arrayEntries_keys _ _ _ Hin).
Qed.

(** X4.  The positional entries of a configuration table are ignored by
    [setupHost], [setupTask] and [setupDriver]: configuring with a table
    is configuring with its string-keyed entries alone. *)
Theorem X4_positional_entries_ignored fuel p array hash s :
  setupHost X p array hash s = setupHost X p [] hash s
  /\ setupTask X fuel p array hash s = setupTask X fuel p [] hash s
  /\ setupDriver p array hash s = setupDriver p [] hash s.
Proof.
  split; [| split].
  - apply (forEach_string_keys (fun kstr v => updateHost X p kstr v)).
  - apply (forEach_string_keys (fun kstr v => updateTask X fuel p kstr v)).
  - apply (forEach_string_keys (fun kstr v => updateDriver p kstr v)).
Qed.

(** *** The two styles of declaration *)

Ltac run_args :=
  unfold CheckUserData, CheckString, CheckTable, CheckAny, bind, ret;
  cbn [Get RawGetInt nth length Nat.eqb Nat.ltb Nat.leb fst snd toLTable returnTop
         Nat.sub skipn app].

(** X5.  Declaring in the DSL style, [host "n" { ... }] (the declaration
    with the name alone, then a call of the handle with the table), is the
    same as the function style [host("n", { ... })]: same final state,
    same outcome, the handle returned; likewise for tasks and drivers.
    For a job the two styles reach the same state and outcome, but the
    call of a job handle returns nothing. *)
Theorem X5_declaration_styles_agree fuel name array hash s :
  bind (esshHost X [LString name]) (fun u => hostCall X [u; LTable array hash]) s
  = bind (esshHost X [LString name; LTable array hash]) (fun u => ret [u]) s
  /\ bind (esshTask X fuel [LString name])
       (fun u => taskCall X fuel [u; LTable array hash]) s
     = bind (esshTask X fuel [LString name; LTable array hash]) (fun u => ret [u]) s
  /\ bind (esshDriver X [LString name]) (fun u => driverCall [u; LTable array hash]) s
     = bind (esshDriver X [LString name; LTable array hash]) (fun u => ret [u]) s
  /\ bind (esshJob X fuel [LString name])
       (fun u => jobCall X fuel [u; LTable array hash]) s
     = bind (esshJob X fuel [LString name; LTable array hash]) (fun _ => ret []) s.
Proof.
  split; [| split; [| split]].
  - unfold esshHost, hostCall, checkHost. run_args.
    destruct (registerHost X name s) as [h s1]. run_args.
    now destruct (setupHost X h array hash s1) as [[] s2].
  - unfold esshTask, taskCall, checkTask. run_args.
    destruct (registerTask X name s) as [t s1]. run_args.
    now destruct (setupTask X fuel t array hash s1) as [[] s2].
  - unfold esshDriver, driverCall, checkDriver. run_args.
    destruct (registerDriver X name s) as [d s1]. run_args.
    now destruct (setupDriver d array hash s1) as [[] s2].
  - unfold esshJob, jobCall, checkJob. run_args.
    destruct (registerJob X name s) as [j s1]. run_args.
    now destruct (setupJob X fuel j array hash s1) as [[] s2].
Qed.

(** *** The registry invariant *)

Lemma lookup_alter_proj {A T} (proj : A -> T) (f : A -> A) i (l : list A) j :
  (forall x, proj (f x) = proj x) -> proj <$> (alter f i l !! j) = proj <$> (l !! j).
Proof.
  intros Hf. destruct (decide (i = j)) as [-> | Hne].
  - rewrite list_lookup_alter_eq. destruct (l !! j); cbn; [now rewrite Hf | reflexivity].
  - now rewrite list_lookup_alter_ne.
Qed.

(** The name and the override link of the entity at [p] after a
    registration: the new entity has the name and links to the entity the
    name was bound to; the older ones are as they were. *)
Lemma register_entity k name s p :
  let s' := snd (register X k name s) in
  (p < arenaSize k s ->
     entityName X k s' p = entityName X k s p
     /\ overridePredecessor X k s' p = overridePredecessor X k s p)
  /\ (p = arenaSize k s ->
        entityName X k s' p = name
        /\ overridePredecessor X k s' p =
             match lookupByName k s name with
             | Some old => match k with KJob => None | _ => Some old end
             | None => blankChild X k
             end).
Proof.
  cbv zeta.
  destruct k; unfold entityName, overridePredecessor, arenaSize, register, lookupByName,
    blankChild, hostAt, taskAt, driverAt, jobAt;
    rewrite ?registerHost_arena, ?registerTask_arena, ?registerDriver_arena,
      ?registerJob_arena; cbv zeta.
  - split.
    + intros Hp.
      assert (E : forall l, (hostArena s ++ l) !! p = hostArena s !! p)
        by (intros l; now apply lookup_app_l).
      destruct (Hosts s !! name) as [old |]; [| now rewrite E].
      pose proof (lookup_alter_proj (fun x => (hName x, hChild x))
                    (host_setParent (Some (length (hostArena s)))) old
                    (alter (host_setChild (Some old)) (length (hostArena s))
                       (hostArena s ++ [host_init name (CurrentRegistry s) (NewHost X)]))
                    p (fun _ => eq_refl)) as A1.
      rewrite (list_lookup_alter_ne _ _ (length (hostArena s)) p), E in A1 by lia.
      destruct (alter _ old _ !! p), (hostArena s !! p); cbn in *;
        try discriminate; [injection A1 as -> ->; now split | now split].
    + intros ->.
      assert (E : (hostArena s ++ [host_init name (CurrentRegistry s) (NewHost X)])
                    !! length (hostArena s)
                  = Some (host_init name (CurrentRegistry s) (NewHost X))).
      { rewrite lookup_app_r by lia. now rewrite Nat.sub_diag. }
      destruct (Hosts s !! name) as [old |]; [| now rewrite E].
      pose proof (lookup_alter_proj (fun x => (hName x, hChild x))
                    (host_setParent (Some (length (hostArena s)))) old
                    (alter (host_setChild (Some old)) (length (hostArena s))
                       (hostArena s ++ [host_init name (CurrentRegistry s) (NewHost X)]))
                    (length (hostArena s)) (fun _ => eq_refl)) as A1.
      rewrite (list_lookup_alter_eq (_ (Some old))), E in A1.
      destruct (alter _ old _ !! length (hostArena s)); cbn in *; [| discriminate].
      injection A1 as -> ->. now split.
  - split.
    + intros Hp.
      assert (E : forall l, (taskArena s ++ l) !! p = taskArena s !! p)
        by (intros l; now apply lookup_app_l).
      destruct (Tasks s !! name) as [old |]; [| now rewrite E].
      pose proof (lookup_alter_proj (fun x => (tName x, tChild x))
                    (task_setParent (Some (length (taskArena s)))) old
                    (alter (task_setChild (Some old)) (length (taskArena s))
                       (taskArena s ++ [task_init name (CurrentRegistry s) (NewTask X)]))
                    p (fun _ => eq_refl)) as A1.
      rewrite (list_lookup_alter_ne _ _ (length (taskArena s)) p), E in A1 by lia.
      destruct (alter _ old _ !! p), (taskArena s !! p); cbn in *;
        try discriminate; [injection A1 as -> ->; now split | now split].
    + intros ->.
      assert (E : (taskArena s ++ [task_init name (CurrentRegistry s) (NewTask X)])
                    !! length (taskArena s)
                  = Some (task_init name (CurrentRegistry s) (NewTask X))).
      { rewrite lookup_app_r by lia. now rewrite Nat.sub_diag. }
      destruct (Tasks s !! name) as [old |]; [| now rewrite E].
      pose proof (lookup_alter_proj (fun x => (tName x, tChild x))
                    (task_setParent (Some (length (taskArena s)))) old
                    (alter (task_setChild (Some old)) (length (taskArena s))
                       (taskArena s ++ [task_init name (CurrentRegistry s) (NewTask X)]))
                    (length (taskArena s)) (fun _ => eq_refl)) as A1.
      rewrite (list_lookup_alter_eq (_ (Some old))), E in A1.
      destruct (alter _ old _ !! length (taskArena s)); cbn in *; [| discriminate].
      injection A1 as -> ->. now split.
  - split.
    + intros Hp.
      assert (E : forall l, (driverArena s ++ l) !! p = driverArena s !! p)
        by (intros l; now apply lookup_app_l).
      destruct (Drivers s !! name) as [old |]; [| now rewrite E].
      pose proof (lookup_alter_proj (fun x => (dName x, dChild x))
                    (driver_setParent (Some (length (driverArena s)))) old
                    (alter (driver_setChild (Some old)) (length (driverArena s))
                       (driverArena s
                          ++ [driver_init name (CurrentRegistry s) (NewDriver X)]))
                    p (fun _ => eq_refl)) as A1.
      rewrite (list_lookup_alter_ne _ _ (length (driverArena s)) p), E in A1 by lia.
      destruct (alter _ old _ !! p), (driverArena s !! p); cbn in *;
        try discriminate; [injection A1 as -> ->; now split | now split].
    + intros ->.
      assert (E : (driverArena s ++ [driver_init name (CurrentRegistry s) (NewDriver X)])
                    !! length (driverArena s)
                  = Some (driver_init name (CurrentRegistry s) (NewDriver X))).
      { rewrite lookup_app_r by lia. now rewrite Nat.sub_diag. }
      destruct (Drivers s !! name) as [old |]; [| now rewrite E].
      pose proof (lookup_alter_proj (fun x => (dName x, dChild x))
                    (driver_setParent (Some (length (driverArena s)))) old
                    (alter (driver_setChild (Some old)) (length (driverArena s))
                       (driverArena s
                          ++ [driver_init name (CurrentRegistry s) (NewDriver X)]))
                    (length (driverArena s)) (fun _ => eq_refl)) as A1.
      rewrite (list_lookup_alter_eq (_ (Some old))), E in A1.
      destruct (alter _ old _ !! length (driverArena s)); cbn in *; [| discriminate].
      injection A1 as -> ->. now split.
  - split.
    + intros Hp. rewrite lookup_app_l by assumption. now split.
    + intros ->. rewrite lookup_app_r by lia. rewrite Nat.sub_diag. cbn.
      split; [reflexivity | now destruct (Jobs s !! name)].
Qed.

Lemma register_wellFormed k name s :
  blankChild X k = None -> wellFormed X k s -> wellFormed X k (snd (register X k name s)).
Proof.
  intros Hb (Hc & Hn & Hd).
  split; [now apply register_closed | split].
  - intros n p. rewrite register_lookup. case_decide as Hdec.
    + intros E. injection E as <-. subst n.
      now apply (proj2 (register_entity k name s (arenaSize k s))).
    + intros E. pose proof (Hc n p E) as Hp.
      destruct (proj1 (register_entity k name s p) Hp) as [-> _]. now apply Hn.
  - intros p c. rewrite register_size. intros Hp.
    destruct (decide (p = arenaSize k s)) as [-> | Hne].
    + destruct (proj2 (register_entity k name s (arenaSize k s)) eq_refl) as [_ ->].
      destruct (lookupByName k s name) as [old |] eqn:El.
      * destruct k; intros E; try discriminate; injection E as <-; exact (Hc _ _ El).
      * rewrite Hb. discriminate.
    + destruct (proj1 (register_entity k name s p) ltac:(lia)) as [_ ->].
      apply Hd. lia.
Qed.

(** X6.  Registration keeps the registry well formed, for every kind whose
    blank entity carries no override link: every registered address stays
    allocated, every name stays bound to an entity carrying that name (so
    no entity is bound under two names), and every override link points to
    an entity declared earlier (so override chains are finite). *)
Theorem X6_register_keeps_registry_well_formed k name s :
  blankChild X k = None ->
  wellFormed X k s ->
  wellFormed X k (snd (register X k name s))
  /\ (forall n1 n2 p, lookupByName k s n1 = Some p -> lookupByName k s n2 = Some p ->
        n1 = n2).
Proof.
  intros Hb Hw. split; [now apply register_wellFormed |].
  destruct Hw as (_ & Hn & _).
  intros n1 n2 p H1 H2. rewrite <- (Hn n1 p H1). now apply Hn.
Qed.

(** *** The invariant along the host and driver API *)

#[local] Instance keepsWellFormed_refl k : Reflexive (keepsWellFormed X k).
Proof. intros s H. exact H. Qed.

#[local] Instance keepsWellFormed_trans k : Transitive (keepsWellFormed X k).
Proof. intros s1 s2 s3 H1 H2 H. auto. Qed.

Lemma keeps_weaken {A} (R R' : State World -> State World -> Prop) (m : M World A) :
  (forall s s', R s s' -> R' s s') -> keeps R m -> keeps R' m.
Proof. intros HR Hm s o s' H. eauto. Qed.

Lemma keeps_CheckString (R : State World -> State World -> Prop) `{!Reflexive R} args n :
  keeps R (CheckString X args n).
Proof.
  unfold CheckString. destruct (Get args n);
    (apply keeps_ret || apply keeps_raiseError); assumption.
Qed.

Lemma keeps_CheckTable (R : State World -> State World -> Prop) `{!Reflexive R} args n :
  keeps R (CheckTable (World := World) args n).
Proof.
  unfold CheckTable. destruct (Get args n);
    (apply keeps_ret || apply keeps_raiseError); assumption.
Qed.

Lemma keeps_CheckUserData (R : State World -> State World -> Prop) `{!Reflexive R} args n :
  keeps R (CheckUserData (World := World) args n).
Proof.
  unfold CheckUserData. destruct (Get args n);
    (apply keeps_ret || apply keeps_raiseError); assumption.
Qed.

Lemma keeps_CheckAny (R : State World -> State World -> Prop) `{!Reflexive R} args n :
  keeps R (CheckAny (World := World) args n).
Proof.
  unfold CheckAny. destruct (length args <? n);
    (apply keeps_ret || apply keeps_raiseError); assumption.
Qed.

Lemma keeps_checkHost (R : State World -> State World -> Prop)
    `{!Reflexive R} `{!Transitive R} args :
  keeps R (checkHost (World := World) args).
Proof.
  unfold checkHost. apply keeps_bind; try assumption; [now apply keeps_CheckUserData |].
  intros []; (apply keeps_ret || apply keeps_raiseError); assumption.
Qed.

Lemma keeps_checkDriver (R : State World -> State World -> Prop)
    `{!Reflexive R} `{!Transitive R} args :
  keeps R (checkDriver (World := World) args).
Proof.
  unfold checkDriver. apply keeps_bind; try assumption; [now apply keeps_CheckUserData |].
  intros []; (apply keeps_ret || apply keeps_raiseError); assumption.
Qed.

Lemma onlyHost_wellFormed h s s' :
  onlyHost hostCore h s s' -> keepsWellFormed X KHost s s'.
Proof.
  intros (E & L & _ & P) (Hc & Hn & Hd).
  assert (Hh : Hosts s' = Hosts s) by (rewrite E; reflexivity).
  assert (Hcore : forall p, hostCore (hostAt X s' p) = hostCore (hostAt X s p)).
  { intros p. specialize (P p). unfold hostAt.
    destruct (hostArena s' !! p), (hostArena s !! p); cbn in *; congruence. }
  split; [| split].
  - intros n p. cbn. rewrite Hh, L. apply Hc.
  - intros n p. cbn. rewrite Hh. intros Hl. specialize (Hcore p).
    injection Hcore as -> _ _ _. now apply Hn.
  - intros p c. cbn. rewrite L. intros Hp. specialize (Hcore p).
    injection Hcore as _ _ -> _. now apply Hd.
Qed.

Lemma keeps_registerHost_then {A} (k : nat -> M World A) name :
  blankChild X KHost = None ->
  (forall h, keeps (keepsWellFormed X KHost) (k h)) ->
  keeps (keepsWellFormed X KHost)
    (fun s => let '(h, s') := registerHost X name s in k h s').
Proof.
  intros Hb Hk s o s' H Hw.
  pose proof (register_wellFormed KHost name s Hb Hw) as Hw1. cbn [register] in Hw1.
  destruct (registerHost X name s) as [h s1]. cbn [snd] in Hw1.
  exact (Hk h s1 o s' H Hw1).
Qed.

(** X7.  The host API keeps the host registry well formed (when a blank
    host carries no override link): a declaration [host(...)], a
    configuration call on a host handle and an assignment to a field of a
    host handle, whatever their arguments and however they end. *)
Theorem X7_host_api_keeps_registry_well_formed args s :
  blankChild X KHost = None ->
  wellFormed X KHost s ->
  wellFormed X KHost (snd (esshHost X args s))
  /\ wellFormed X KHost (snd (hostCall X args s))
  /\ wellFormed X KHost (snd (hostNewindex X args s)).
Proof.
  intros Hb Hw.
  assert (Hup : forall h key value,
             keeps (keepsWellFormed X KHost) (updateHost X h key value)).
  { intros h key value. eapply keeps_weaken; [| apply keeps_updateHost].
    apply onlyHost_wellFormed. }
  assert (Hset : forall h array hash,
             keeps (keepsWellFormed X KHost) (setupHost X h array hash)).
  { intros h array hash. eapply keeps_weaken; [| apply keeps_setupHost].
    apply onlyHost_wellFormed. }
  assert (K1 : keeps (keepsWellFormed X KHost) (esshHost X args)).
  { unfold esshHost.
    apply keeps_bind; try apply _; [apply keeps_CheckString; apply _ | intros name].
    destruct (Nat.eqb (length args) 1).
    - apply (keeps_registerHost_then (fun h => ret (LUserData (UHost h)))); [exact Hb |].
      intros h. apply keeps_ret. apply _.
    - destruct (Nat.eqb (length args) 2); [| apply keeps_panic; apply _].
      apply keeps_bind; try apply _; [apply keeps_CheckTable; apply _ | intros tb].
      apply (keeps_registerHost_then
               (fun h => bind (setupHost X h (fst tb) (snd tb))
                           (fun _ => ret (LUserData (UHost h))))); [exact Hb |].
      intros h. apply keeps_bind; try apply _; [apply Hset |].
      intros _. apply keeps_ret. apply _. }
  assert (K2 : keeps (keepsWellFormed X KHost) (hostCall X args)).
  { unfold hostCall.
    apply keeps_bind; try apply _; [apply keeps_checkHost; apply _ | intros h].
    apply keeps_bind; try apply _; [apply keeps_CheckTable; apply _ | intros tb].
    apply keeps_bind; try apply _; [apply Hset | intros _].
    apply keeps_bind; try apply _; [apply keeps_CheckUserData; apply _ | intros ud].
    apply keeps_ret. apply _. }
  assert (K3 : keeps (keepsWellFormed X KHost) (hostNewindex X args)).
  { unfold hostNewindex.
    apply keeps_bind; try apply _; [apply keeps_checkHost; apply _ | intros h].
    apply keeps_bind; try apply _; [apply keeps_CheckString; apply _ | intros key].
    apply keeps_bind; try apply _; [apply keeps_CheckAny; apply _ | intros value].
    apply keeps_bind; try apply _; [apply Hup | intros _].
    apply keeps_ret. apply _. }
  split; [| split].
  - destruct (esshHost X args s) as [o s'] eqn:E. exact (K1 s o s' E Hw).
  - destruct (hostCall X args s) as [o s'] eqn:E. exact (K2 s o s' E Hw).
  - destruct (hostNewindex X args s) as [o s'] eqn:E. exact (K3 s o s' E Hw).
Qed.

(** *** Packages and the importer *)

(** X8.  The directory key of a package holds neither [/] nor [:], is as
    long as the name, and is a fixed point of the replacement; names that
    differ only in [/] against [:] share a key. *)
Theorem X8_package_key_is_flat name :
  allChars (fun c => negb (Ascii.eqb c "/") && negb (Ascii.eqb c ":")) (Package_Key name)
  = true
  /\ String.length (Package_Key name) = String.length name
  /\ Package_Key (Package_Key name) = Package_Key name
  /\ Package_Key (replaceAll "/" ":" name) = Package_Key name.
Proof.
  unfold Package_Key. induction name as [| c rest (IH1 & IH2 & IH3 & IH4)];
    [repeat split |].
  cbn [replaceAll allChars String.length].
  rewrite IH1, IH2, IH3, IH4.
  destruct (Ascii.eqb_spec c "/") as [-> | H1]; [repeat split |].
  destruct (Ascii.eqb_spec c ":") as [-> | H2]; [repeat split |].
  destruct (Ascii.eqb_spec c "/") as [-> | _]; [contradiction |].
  destruct (Ascii.eqb_spec c ":") as [-> | _]; [contradiction |].
  repeat split.
Qed.

Lemma Package_Load_frame name update s o s' :
  Package_Load X name update s = (o, s') ->
  s' = upd_world (fun _ => world s') (upd_trace (fun _ => trace s') s).
Proof.
  destruct s as [? ? ? ? ? ? ? ? ? ? ? dbg ? ? ? gitssh ? w].
  unfold Package_Load, Package_fetch, stat, printInstalling, debugPrint. cbn.
  destruct (String.eqb (filepath_Base X gitssh) "essh"), update, dbg; cbn;
    repeat match goal with
           | |- context [match os_Stat X ?p ?w with _ => _ end] =>
               destruct (os_Stat X p w); cbn
           | |- context [match os_Getwd X ?w with _ => _ end] =>
               destruct (os_Getwd X w); cbn
           | |- context [getter_Get X ?a ?b ?c ?w] =>
               destruct (getter_Get X a b c w) as [[?|] ?]; cbn
           end;
    intros H; injection H as _ <-; reflexivity.
Qed.

(** X9.  [Package.Load] changes nothing of the program state but the
    output and the outside world: whatever [GIT_SSH] was, and however the
    load ends, it is restored. *)
Theorem X9_package_load_restores_state name update s :
  let s' := snd (Package_Load X name update s) in
  s' = upd_world (fun _ => world s') (upd_trace (fun _ => trace s') s)
  /\ GIT_SSH s' = GIT_SSH s.
Proof.
  cbv zeta. destruct (Package_Load X name update s) as [o s'] eqn:E. cbn [snd].
  apply Package_Load_frame in E. split; [exact E |]. rewrite E. now destruct s.
Qed.

Lemma Package_Load_fetches name update s o s' :
  Package_Load X name update s = (o, s') ->
  fetches (trace s')
  = fetches (trace s) + (if loadFetches X name update s then 1 else 0)
  /\ (loadFetches X name update s = false -> world s' = world s)
  /\ (update = false -> os_Stat X (Package_Dir X name s) (world s) = StatOk ->
      o = Ok tt).
Proof.
  destruct s as [? ? ? ? ? ? ? ? ? ? ? dbg ? ? ? gitssh ? w].
  unfold Package_Load, Package_fetch, stat, printInstalling, debugPrint, loadFetches,
    Package_Dir, curReg, fetches. cbn.
  destruct (String.eqb (filepath_Base X gitssh) "essh"), update, dbg; cbn;
    repeat match goal with
           | |- context [match os_Stat X ?p ?w with _ => _ end] =>
               destruct (os_Stat X p w); cbn
           | |- context [match os_Getwd X ?w with _ => _ end] =>
               destruct (os_Getwd X w); cbn
           | |- context [getter_Get X ?a ?b ?c ?w] =>
               destruct (getter_Get X a b c w) as [[?|] ?]; cbn
           end;
    intros H; injection H as <- <-; cbn;
    rewrite ?List.filter_app, ?length_app; cbn;
    (split; [lia | split; [intros; reflexivity || discriminate
                          | intros; reflexivity || discriminate]]).
Qed.

(** X10.  [Package.Load] asks the getter exactly once when an update is
    requested or the package directory does not exist (and the working
    directory can be read), and not at all otherwise; without a fetch the
    outside world is left as it was. *)
Theorem X10_package_load_fetches_when_due name update s :
  let s' := snd (Package_Load X name update s) in
  fetches (trace s')
  = fetches (trace s) + (if loadFetches X name update s then 1 else 0)
  /\ (if loadFetches X name update s then True else world s' = world s).
Proof.
  cbv zeta. destruct (Package_Load X name update s) as [o s'] eqn:E. cbn [snd].
  apply Package_Load_fetches in E as (Hf & Hw & _). split; [exact Hf |].
  destruct (loadFetches X name update s); [exact I | now apply Hw].
Qed.

Lemma Package_Load_outcome name update s o s' :
  Package_Load X name update s = (o, s') -> o = Ok tt \/ exists e, o = Err e.
Proof.
  unfold Package_Load, Package_fetch, stat.
  destruct (String.eqb (filepath_Base X (GIT_SSH s)) "essh"), update;
    repeat match goal with
           | |- context [match os_Stat X ?p ?w with _ => _ end] =>
               destruct (os_Stat X p w)
           | |- context [match os_Getwd X ?w with _ => _ end] =>
               destruct (os_Getwd X w)
           | |- context [getter_Get X ?a ?b ?c ?w] =>
               destruct (getter_Get X a b c w) as [[?|] ?]
           end;
    intros H; injection H as <- _; eauto.
Qed.

(** What the first half of an import leaves alone: it never panics, it
    memoizes nothing and evaluates nothing, and it sets [essh.module] only
    when it succeeds. *)
Lemma importPrepare_frame name s o s' :
  importPrepare X name s = (o, s') ->
  (forall e, o <> Panic e)
  /\ ((exists idx, o = Ok idx) \/ esshModule s' = esshModule s)
  /\ registryArena s' = registryArena s
  /\ CurrentRegistry s' = CurrentRegistry s
  /\ evaluations (trace s') = evaluations (trace s).
Proof.
  unfold importPrepare.
  destruct (Package_Load X name _ s) as [r s1] eqn:El.
  pose proof (Package_Load_trace _ _ _ _ _ El) as (evs & Ht & _ & He).
  pose proof (Package_Load_outcome _ _ _ _ _ El) as Ho.
  apply Package_Load_frame in El.
  assert (Hm : esshModule s1 = esshModule s) by (rewrite El; now destruct s).
  assert (Hr : registryArena s1 = registryArena s) by (rewrite El; now destruct s).
  assert (Hc : CurrentRegistry s1 = CurrentRegistry s) by (rewrite El; now destruct s).
  assert (Hev : evaluations (trace s1) = evaluations (trace s)).
  { rewrite Ht. unfold evaluations in *. rewrite List.filter_app, length_app. lia. }
  clear El Ht.
  destruct Ho as [-> | [e ->]].
  - unfold stat. destruct (os_Stat X _ (world s1));
      intros H; injection H as <- <-; destruct s1; cbn in *;
      unfold evaluations in *; rewrite ?List.filter_app, ?length_app; cbn;
      (split; [discriminate |]); (split; [(left; eexists; reflexivity) || (now right) |]);
      repeat split; try congruence; lia.
  - intros H; injection H as <- <-.
    split; [discriminate |]. split; [now right |]. repeat split; assumption.
Qed.

Lemma importEvaluate_Raise name idx s e s' :
  importEvaluate X name idx s <> (Raise e, s').
Proof.
  unfold importEvaluate. destruct (doFile X idx _) as [[? | ?] ?]; discriminate.
Qed.

(** X11.  An import that ends in a Lua error has evaluated no entrypoint
    and memoized nothing, and it leaves [essh.module] as it was: the same
    import can be tried again. *)
Theorem X11_failed_import_leaves_no_mark args s e s1 :
  esshImport X args s = (Raise e, s1) ->
  registryArena s1 = registryArena s
  /\ CurrentRegistry s1 = CurrentRegistry s
  /\ esshModule s1 = esshModule s
  /\ evaluations (trace s1) = evaluations (trace s).
Proof.
  unfold esshImport, bind.
  destruct (importGuard X args s) as [o s0] eqn:Eg.
  assert (Hs : s0 = s).
  { revert Eg. unfold importGuard, CheckString, bind, ret, raiseError.
    destruct (Get args 1); try (intros H; now injection H as _ <-);
      (destruct (esshModule s) as [marker |]; [destruct (isNil marker) |]);
      intros H; now injection H as _ <-. }
  subst s0. destruct o as [name | | | |]; intros H; try (injection H as _ <-; auto).
  destruct (rLoadedModules (curReg s) !! name); [discriminate |].
  destruct (importPrepare X name s) as [o s0] eqn:Ep.
  apply importPrepare_frame in Ep as (_ & Hm & Hr & Hc & He).
  destruct o as [idx | | | |]; try discriminate.
  - now apply importEvaluate_Raise in H.
  - injection H as _ <-. destruct Hm as [[? ?] | Hm']; [discriminate | auto].
Qed.

(** X12.  An import panics only because its entrypoint failed, and then
    [essh.module] is not cleared: the state the panic leaves is the state
    the entrypoint left, so that, unless the entrypoint itself reset the
    marker, every later import raises the nested-import error. *)
Theorem X12_failed_entrypoint_blocks_imports name rest s e s1 :
  esshImport X (LString name :: rest) s = (Panic e, s1) ->
  exists idx s0,
    esshModule s0 = Some (modulevar X idx name)
    /\ doFile X idx s0 = (inl e, s1)
    /\ (esshModule s1 = esshModule s0 ->
        forall name' rest',
          esshImport X (LString name' :: rest') s1 = (Raise nestedImport, s1)).
Proof.
  intros H. unfold esshImport in H. unfold bind at 1 in H.
  destruct (importGuard X (LString name :: rest) s) as [o s0] eqn:Eg.
  destruct o as [n | | | |]; try discriminate.
  - apply importGuard_Ok in Eg as (-> & -> & _).
    destruct (rLoadedModules (curReg s) !! name); [discriminate |].
    unfold bind in H.
    destruct (importPrepare X name s) as [o s2] eqn:Ep.
    pose proof (importPrepare_frame _ _ _ _ Ep) as (Hnp & _).
    destruct o as [idx | | | |]; try discriminate.
    + apply importPrepare_Ok in Ep as (Hm & _).
      unfold importEvaluate in H.
      destruct (doFile X idx (emit (EvDoFile idx) s2)) as [[e' | v] sA] eqn:Ed;
        [| discriminate].
      injection H as <- <-.
      exists idx, (emit (EvDoFile idx) s2).
      assert (Hm' : esshModule (emit (EvDoFile idx) s2) = Some (modulevar X idx name))
        by (rewrite <- Hm; now destruct s2).
      split; [exact Hm' |]. split; [exact Ed |].
      intros Hkeep name' rest'.
      apply esshImport_nested with (marker := modulevar X idx name);
        [congruence | reflexivity].
    + exfalso. exact (Hnp _ eq_refl).
  - revert Eg. unfold importGuard, CheckString, bind, ret.
    cbn [Get RawGetInt nth].
    destruct (esshModule s) as [marker |]; [destruct (isNil marker) |]; discriminate.
Qed.

Lemma importPrepare_fetches name s o s' :
  importPrepare X name s = (o, s') ->
  rType (curReg s) = RegistryTypeGlobal -> withGlobalFlag s = false ->
  os_Stat X (Package_Dir X name s) (world s) = StatOk ->
  fetches (trace s') = fetches (trace s) /\ world s' = world s
  /\ (forall e, o <> Err e).
Proof.
  unfold importPrepare. intros H Hg Hf Hst. rewrite Hg, Hf in H.
  destruct (Package_Load X name false s) as [r s1] eqn:El.
  apply Package_Load_fetches in El as (Hn & Hw & Hok).
  assert (Hl : loadFetches X name false s = false)
    by (unfold loadFetches; now rewrite Hst).
  rewrite Hl in Hn. specialize (Hw Hl). rewrite (Hok eq_refl Hst) in H.
  unfold stat in H.
  destruct (os_Stat X _ (world s1)); injection H as <- <-; destruct s1; cbn in *;
    unfold fetches in *; rewrite ?List.filter_app, ?length_app; cbn;
    repeat split; try lia; try assumption; discriminate.
Qed.

(** X13.  In a global registry, without the flag that extends updates to
    it, an import never fetches a package whose directory exists, whether
    or not an update was asked for: the getter is not called and the
    outside world stays as it was. *)
Theorem X13_global_registry_is_not_updated name s :
  rType (curReg s) = RegistryTypeGlobal -> withGlobalFlag s = false ->
  os_Stat X (Package_Dir X name s) (world s) = StatOk ->
  let s' := snd (importPrepare X name s) in
  fetches (trace s') = fetches (trace s) /\ world s' = world s.
Proof.
  intros Hg Hf Hst. cbv zeta.
  destruct (importPrepare X name s) as [o s'] eqn:E. cbn [snd].
  destruct (importPrepare_fetches _ _ _ _ E Hg Hf Hst) as (H1 & H2 & _).
  now split.
Qed.

(** *** Segments of a normalized script *)

Lemma scriptRecord_keys es :
  forall m s m' s',
    scriptRecord es m s = (Ok m', s') ->
    (forall k, is_Some (m !! k) -> is_Some (m' !! k))
    /\ (forall ks v, In (LString ks, v) es -> is_Some (m' !! ks)).
Proof.
  induction es as [| [k v] rest IH]; intros m s m' s' H.
  - cbn in H. injection H as <- _. split; [auto | intros ks v []].
  - cbn [scriptRecord] in H.
    assert (Hstep : forall str, toString k = Some str ->
              forall vs, scriptRecord rest (<[str := vs]> m) s = (Ok m', s') ->
              (forall k0, is_Some (m !! k0) -> is_Some (m' !! k0))
              /\ (forall ks v0, In (LString ks, v0) ((k, v) :: rest) ->
                    is_Some (m' !! ks))).
    { intros str Hk vs Hr. apply IH in Hr as [Hold Hnew].
      destruct k; try discriminate. injection Hk as ->. split.
      - intros k0 Hk0. apply Hold. rewrite lookup_insert_is_Some. 
        destruct (decide (str = k0)); auto.
      - intros ks v0 [E | Hin]; [| eauto].
        injection E as <- _. apply Hold. rewrite lookup_insert_is_Some. auto. }
    destruct (toString v) as [vs |].
    + destruct (toString k) as [str |] eqn:Hk; [| discriminate]. eauto.
    + destruct (toBool v) as [vb |]; [| discriminate].
      destruct (toString k) as [str |] eqn:Hk; [| discriminate]. eauto.
Qed.

Lemma RawGetString_In hash key :
  isNil (RawGetString hash key) = false ->
  exists v, In (LString key, v) (ForEach [] hash).
Proof.
  unfold ForEach. cbn [arrayEntries app].
  induction hash as [| [k v] rest IH]; cbn [RawGetString]; [discriminate |].
  intros H. cbn [List.filter snd].
  destruct (isStringKey key k) eqn:Ek.
  - destruct k; try discriminate. cbn in Ek. apply String.eqb_eq in Ek as ->.
    rewrite H. cbn. eauto.
  - destruct (IH H) as [v' Hin]. exists v'.
    destruct (negb (isNil v)); [now right | assumption].
Qed.

Lemma ForEach_record array hash :
  MaxN array = 0 -> ForEach array hash = ForEach [] hash.
Proof.
  unfold ForEach. cbn [arrayEntries app]. intros Hn. rewrite List.filter_app.
  assert (E : forall i, List.filter (fun kv : LValue * LValue => negb (isNil (snd kv)))
                          (arrayEntries i array) = []).
  { induction array as [| x rest IH]; intros i; [reflexivity |].
    cbn [MaxN] in Hn. destruct (MaxN rest); [| discriminate].
    destruct (isNil x) eqn:Ex; [| discriminate].
    cbn. rewrite Ex. cbn. now apply IH. }
  now rewrite E.
Qed.

Lemma scriptArray_code (rec : LValue -> M World (list (gmap string string))) values :
  (forall v s r s', rec v s = (Ok r, s') -> Forall (fun m => is_Some (m !! "code")) r) ->
  forall acc s r s',
    Forall (fun m => is_Some (m !! "code")) acc ->
    scriptArray X rec values acc s = (Ok r, s') ->
    Forall (fun m => is_Some (m !! "code")) r.
Proof.
  intros Hrec. induction values as [| value rest IH]; intros acc s r s' Hacc H.
  - cbn in H. now injection H as <- _.
  - cbn [scriptArray] in H. destruct (toLFunction value) as [fn |].
    + apply bind_Ok in H as (funcRet & s1 & _ & H).
      apply bind_Ok in H as (script & s2 & Hr & H).
      apply Hrec in Hr. eapply IH; [| exact H]. apply Forall_app. now split.
    + apply bind_Ok in H as (script & s2 & Hr & H).
      apply Hrec in Hr. eapply IH; [| exact H]. apply Forall_app. now split.
Qed.

(** X14.  Every segment of a normalized script has a ["code"] entry: with
    the string itself, with the record's own [code] (a boolean spelled
    out), and so for every segment an array or a callable contributes. *)
Theorem X14_every_segment_has_code fuel value s segs s' :
  toScript X fuel value s = (Ok segs, s') ->
  Forall (fun m => is_Some (m !! "code")) segs.
Proof.
  revert value s segs s'. induction fuel as [| fuel IH]; intros value s segs s' H;
    [discriminate |].
  cbn [toScript] in H. destruct (toLTable value) as [[array hash] |].
  - cbv zeta in H. destruct (Nat.eqb (MaxN array) 0) eqn:En.
    + destruct (isNil (RawGetString hash "code")) eqn:Ec; [discriminate |].
      apply bind_Ok in H as (m & s1 & Hr & H). injection H as <- _.
      apply Nat.eqb_eq in En. rewrite (ForEach_record _ _ En) in Hr.
      apply scriptRecord_keys in Hr as [_ Hnew].
      destruct (RawGetString_In _ _ Ec) as [v Hin].
      constructor; [eauto | constructor].
    + eapply scriptArray_code; [| constructor | exact H]. exact IH.
  - destruct (toString value) as [str |]; [| discriminate].
    injection H as <- _. constructor; [| constructor].
    rewrite lookup_singleton_eq. eauto.
Qed.

(** *** Hosts declared inside a job *)

Lemma forEachM_Ok_inv {A} (I : State World -> Prop) (body : A -> M World unit) xs :
  (forall x s s', I s -> body x s = (Ok tt, s') -> I s') ->
  forall s s', I s -> forEachM body xs s = (Ok tt, s') -> I s'.
Proof.
  intros Hb. induction xs as [| x rest IH]; intros s s' Hi H; cbn [forEachM] in H.
  - now injection H as <-.
  - apply bind_Ok in H as ([] & s1 & H1 & H). eauto.
Qed.

Lemma registerHost_jobArena name s :
  jobArena (snd (registerHost X name s)) = jobArena s.
Proof.
  destruct s as [hs ? ? ? ? ? ? ? ? ? ? [] ? ? ? ? ? ?]; unfold registerHost, debugPrint;
    cbn; destruct (hs !! name); reflexivity.
Qed.

Lemma registerHost_name name s :
  hName (hostAt X (snd (registerHost X name s)) (length (hostArena s))) = name.
Proof.
  exact (proj1 (proj2 (register_entity KHost name s (length (hostArena s))) eq_refl)).
Qed.

(** X15.  A host declared in the [hosts] table of a job is registered
    like any other host: when the assignment succeeds, every entry of the
    job's own host registry is an entry of the global one, bound to the
    same host, so that it shadows a global host of the same name. *)
Theorem X15_job_hosts_enter_the_global_registry fuel j array hash s :
  j < length (jobArena s) ->
  fst (updateJob X fuel j "hosts" (LTable array hash) s) = Ok tt ->
  jHosts (jobAt X (snd (updateJob X fuel j "hosts" (LTable array hash) s)) j)
    ⊆ Hosts (snd (updateJob X fuel j "hosts" (LTable array hash) s)).
Proof.
  intros Hj Hok.
  destruct (updateJob X fuel j "hosts" (LTable array hash) s) as [o s'] eqn:E.
  cbn [fst snd] in *. subst o.
  unfold updateJob in E. cbn [String.eqb Ascii.eqb Bool.eqb toLTable] in E.
  apply bind_Ok in E as ([] & s1 & E1 & E).
  apply bind_Ok in E as ([] & s2 & E2 & E).
  unfold setJob, modify in E1, E2. injection E1 as <-. injection E2 as <-.
  set (I := fun s0 : State World =>
              j < length (jobArena s0) /\ jHosts (jobAt X s0 j) ⊆ Hosts s0).
  enough (Hi : I s') by exact (proj2 Hi).
  eapply (forEachM_Ok_inv I); [| | exact E].
  - clear E s'. intros [k v] s0 s' [Hlen Hsub] Hbody. cbn [fst snd] in Hbody.
    destruct (toString k) as [name |]; [| discriminate].
    destruct (toLTable v) as [[carray chash] |]; [| discriminate].
    pose proof (registerHost_fst name s0) as Hf.
    pose proof (registerHost_Hosts name s0) as Hh.
    pose proof (registerHost_jobArena name s0) as Ha.
    pose proof (registerHost_name name s0) as Hn.
    destruct (registerHost X name s0) as [h s1]. cbn [fst snd] in *. subst h.
    apply bind_Ok in Hbody as ([] & s2 & Hsetup & Hreg).
    apply keeps_setupHost in Hsetup as (Es & _ & _ & P).
    assert (Hname : hName (hostAt X s2 (length (hostArena s0))) = name).
    { specialize (P (length (hostArena s0))).
      assert (Hcore : hostCore (hostAt X s2 (length (hostArena s0)))
                      = hostCore (hostAt X s1 (length (hostArena s0)))).
      { unfold hostAt.
        destruct (hostArena s2 !! length (hostArena s0)),
          (hostArena s1 !! length (hostArena s0)); cbn in *; congruence. }
      injection Hcore as -> _ _ _. exact Hn. }
    assert (Hh2 : Hosts s2 = <[name := length (hostArena s0)]> (Hosts s0))
      by (rewrite Es; cbn; exact Hh).
    assert (Ha2 : jobArena s2 = jobArena s0) by (rewrite Es; cbn; exact Ha).
    unfold Job_RegisterHost, setJob, modify in Hreg. injection Hreg as <-.
    rewrite Hname. unfold I, jobAt in *. cbn. rewrite Ha2, length_alter.
    split; [exact Hlen |].
    rewrite list_lookup_alter_eq, Hh2.
    destruct (lookup_lt_is_Some_2 _ _ Hlen) as [x Hx]. rewrite Hx in *. cbn in *.
    now apply insert_mono.
  - unfold I, jobAt. cbn. rewrite !length_alter. split; [exact Hj |].
    rewrite !list_lookup_alter_eq.
    destruct (lookup_lt_is_Some_2 _ _ Hj) as [x Hx]. rewrite Hx. cbn.
    apply map_empty_subseteq.
Qed.

(** *** Host queries *)

Lemma keeps_stringsArg (R : State World -> State World -> Prop) `{!Reflexive R}
    what value :
  keeps R (stringsArg X what value).
Proof.
  unfold stringsArg. destruct (toString value); [now apply keeps_ret |].
  destruct (toSlice (Sprint X) value); [now apply keeps_ret | now apply keeps_panic].
Qed.

Lemma returnTop_pushed (stack : list LValue) v : returnTop 1 (stack ++ [v]) = [v].
Proof.
  unfold returnTop. rewrite length_app. cbn [length].
  replace (length stack + 1 - 1) with (length stack) by lia.
  rewrite skipn_app, skipn_all, Nat.sub_diag. reflexivity.
Qed.

(** A computation that never changes the state, followed by another:
    either the first fails where it started, or the second runs from
    there. *)
Lemma bind_pure {A B} (m : M World A) (k : A -> M World B) s o s' :
  keeps eq m -> bind m k s = (o, s') ->
  (exists a, k a s = (o, s'))
  \/ (s' = s /\ match o with Ok _ => False | _ => True end).
Proof.
  intros Hm. unfold bind. destruct (m s) as [r s1] eqn:E. apply Hm in E. subst s1.
  destruct r; intros H; try (injection H as <- <-; right; now split).
  left. eauto.
Qed.

(** X16.  [select_hosts] evaluates nothing: a call that succeeds
    allocates one query, returns the handle of that query and changes
    nothing else; a call that fails changes nothing at all. *)
Theorem X16_select_hosts_only_allocates_a_query args s :
  match fst (esshSelectHosts X args s) with
  | Ok v =>
      v = LUserData (UHostQuery (length (queryArena s)))
      /\ exists q, snd (esshSelectHosts X args s) = upd_queryArena (fun a => a ++ [q]) s
  | _ => snd (esshSelectHosts X args s) = s
  end.
Proof.
  destruct (esshSelectHosts X args s) as [o s'] eqn:E. cbn [fst snd].
  unfold esshSelectHosts in E.
  destruct (2 <? length args); [injection E as <- <-; reflexivity |].
  apply bind_pure in E as [(job & E) | (-> & Ho)].
  - apply bind_pure in E as [(q & E) | (-> & Ho)].
    + unfold newLHostQuery in E. injection E as <- <-. split; [reflexivity | eauto].
    + destruct o; try reflexivity; contradiction.
    + destruct (Nat.eqb (length args) 1); [| destruct (Nat.eqb (length args) 2)].
      * destruct job as [j |].
        -- intros s0 o0 s1 H. now injection H as _ <-.
        -- apply keeps_bind; try apply _; [apply keeps_CheckAny; apply _ | intros value].
           apply keeps_bind; try apply _; [apply keeps_stringsArg; apply _ | intros sel].
           apply keeps_ret. apply _.
      * destruct job as [j |]; [| apply keeps_panic; apply _].
        apply keeps_bind; try apply _; [apply keeps_CheckAny; apply _ | intros value].
        apply keeps_bind; try apply _; [apply keeps_stringsArg; apply _ | intros sel].
        intros s0 o0 s1 H. now injection H as _ <-.
      * apply keeps_ret. apply _.
  - destruct o; try reflexivity; contradiction.
  - destruct (Get args 1) as [| | | | | [] | ]; (apply keeps_ret || apply keeps_panic);
      apply _.
Qed.

Lemma hostQueryIndex_filter q s :
  hostQueryIndex X [LUserData (UHostQuery q); LString "filter"] s
  = (Ok [LFunction (GoFn GQueryFilter)], s).
Proof. reflexivity. Qed.

(** X17.  [q:filter(v)] works in place: a call that succeeds appends to
    the filters of the query behind [q] itself and returns [q], so that
    every holder of the handle sees the narrowed query; no other query
    changes.  A call that fails changes nothing. *)
Theorem X17_filter_narrows_in_place q args s :
  match fst (queryMethod X q "filter" args s) with
  | Ok rs =>
      rs = [LUserData (UHostQuery q)]
      /\ exists filters,
           snd (queryMethod X q "filter" args s)
           = upd_queryArena (alter (AppendFilters filters) q) s
  | _ => snd (queryMethod X q "filter" args s) = s
  end.
Proof.
  destruct (queryMethod X q "filter" args s) as [o s'] eqn:E. cbn [fst snd].
  unfold queryMethod in E. unfold bind at 1 in E.
  rewrite hostQueryIndex_filter in E.
  cbn [hd callValue callGo] in E.
  unfold checkHostQuery, CheckUserData in E. cbn [Get RawGetInt nth] in E.
  unfold bind at 1 2 3 in E. cbn [ret] in E.
  destruct (negb (Nat.eqb (length (LUserData (UHostQuery q) :: args)) 2));
    [injection E as <- <-; reflexivity |].
  apply bind_pure in E as [(value & E) | (-> & Ho)];
    [| destruct o; try reflexivity; contradiction | apply keeps_CheckAny; apply _].
  apply bind_pure in E as [(filters & E) | (-> & Ho)];
    [| destruct o; try reflexivity; contradiction | apply keeps_stringsArg; apply _].
  unfold bind, modify, ret in E. injection E as <- <-.
  split; [exact (returnTop_pushed (LUserData (UHostQuery q) :: args) _) | eauto].
Qed.

(** *** Jobs by name *)

Lemma esshJob_named fuel name s :
  esshJob X fuel [LString name] s
  = (Ok (LUserData (UJob (length (jobArena s)))), snd (registerJob X name s)).
Proof.
  unfold esshJob, CheckAny, CheckString.
  cbn [length Nat.ltb Nat.leb Get RawGetInt nth].
  unfold bind at 1. cbn [ret toLTable]. unfold bind at 1. cbn [ret length Nat.eqb].
  pose proof (registerJob_fst name s) as Hf.
  destruct (registerJob X name s) as [j s1]. cbn [fst snd] in *. now subst j.
Qed.

Lemma esshGetJob_eq name s :
  esshGetJob X [LString name] s
  = (Ok (match Jobs s !! name with
         | Some job => LUserData (UJob job)
         | None => LNil
         end), s).
Proof.
  unfold esshGetJob, CheckString. cbn [Get RawGetInt nth]. unfold bind, ret.
  now destruct (Jobs s !! name).
Qed.


(** *** The invariant along the driver API *)

#[local] Instance onlyDriver_refl {T} (proj : Driver -> T) d :
  Reflexive (onlyDriver (World := World) proj d).
Proof. intros s. split; [now destruct s | repeat split]. Qed.

#[local] Instance onlyDriver_trans {T} (proj : Driver -> T) d :
  Transitive (onlyDriver (World := World) proj d).
Proof.
  intros s1 s2 s3 (E1 & L1 & O1 & P1) (E2 & L2 & O2 & P2).
  split; [| split; [congruence | split]].
  - rewrite E2 at 1. rewrite E1. now destruct s1.
  - intros p Hp. now rewrite O2, O1.
  - intros p. now rewrite P2, P1.
Qed.

Lemma keeps_setDriver {T} (proj : Driver -> T) d (f : Driver -> Driver) :
  (forall x, proj (f x) = proj x) ->
  keeps (World := World) (onlyDriver proj d) (setDriver d f).
Proof.
  intros Hf s o s' H. injection H as _ <-. split; [now destruct s |].
  unfold upd_driverArena. cbn. split; [apply length_alter | split].
  - intros p Hp. now apply list_lookup_alter_ne.
  - intros p. now apply lookup_alter_proj.
Qed.

Lemma keeps_updateDriver d key value :
  keeps (World := World) (onlyDriver driverCore d) (updateDriver d key value).
Proof.
  unfold updateDriver.
  apply keeps_bind; try apply _; [apply keeps_setDriver; reflexivity | intros _].
  destruct (String.eqb key "engine"); [| apply keeps_ret; apply _].
  destruct value; cbn [toString];
    (apply keeps_setDriver; reflexivity) || (apply keeps_raiseError; apply _).
Qed.

Lemma keeps_setupDriver d array hash :
  keeps (World := World) (onlyDriver driverCore d) (setupDriver d array hash).
Proof.
  unfold setupDriver. apply keeps_forEachM; try apply _. intros kv.
  destruct (toString (fst kv)); [apply keeps_updateDriver | apply keeps_ret; apply _].
Qed.

Lemma onlyDriver_wellFormed d s s' :
  onlyDriver driverCore d s s' -> keepsWellFormed X KDriver s s'.
Proof.
  intros (E & L & _ & P) (Hc & Hn & Hd).
  assert (Hh : Drivers s' = Drivers s) by (rewrite E; reflexivity).
  assert (Hcore : forall p, driverCore (driverAt X s' p) = driverCore (driverAt X s p)).
  { intros p. specialize (P p). unfold driverAt.
    destruct (driverArena s' !! p), (driverArena s !! p); cbn in *; congruence. }
  split; [| split].
  - intros n p. cbn. rewrite Hh, L. apply Hc.
  - intros n p. cbn. rewrite Hh. intros Hl. specialize (Hcore p).
    injection Hcore as -> _ _ _. now apply Hn.
  - intros p c. cbn. rewrite L. intros Hp. specialize (Hcore p).
    injection Hcore as _ _ -> _. now apply Hd.
Qed.

Lemma keeps_registerDriver_then {A} (k : nat -> M World A) name :
  blankChild X KDriver = None ->
  (forall d, keeps (keepsWellFormed X KDriver) (k d)) ->
  keeps (keepsWellFormed X KDriver)
    (fun s => let '(d, s') := registerDriver X name s in k d s').
Proof.
  intros Hb Hk s o s' H Hw.
  pose proof (register_wellFormed KDriver name s Hb Hw) as Hw1. cbn [register] in Hw1.
  destruct (registerDriver X name s) as [d s1]. cbn [snd] in Hw1.
  exact (Hk d s1 o s' H Hw1).
Qed.

(** X19.  The driver API keeps the driver registry well formed (when a
    blank driver carries no override link): a declaration [driver(...)],
    named or anonymous, a configuration call on a driver handle and an
    assignment to a field of a driver handle, whatever their arguments and
    however they end. *)
Theorem X19_driver_api_keeps_registry_well_formed args s :
  blankChild X KDriver = None ->
  wellFormed X KDriver s ->
  wellFormed X KDriver (snd (esshDriver X args s))
  /\ wellFormed X KDriver (snd (driverCall args s))
  /\ wellFormed X KDriver (snd (driverNewindex X args s)).
Proof.
  intros Hb Hw.
  assert (Hup : forall d key value,
             keeps (keepsWellFormed X KDriver) (updateDriver d key value)).
  { intros d key value. eapply keeps_weaken; [| apply keeps_updateDriver].
    apply onlyDriver_wellFormed. }
  assert (Hset : forall d array hash,
             keeps (keepsWellFormed X KDriver) (setupDriver d array hash)).
  { intros d array hash. eapply keeps_weaken; [| apply keeps_setupDriver].
    apply onlyDriver_wellFormed. }
  assert (Hdecl : forall name (tb : list LValue * list (LValue * LValue)),
             keeps (keepsWellFormed X KDriver)
               (fun s0 => let '(d, s') := registerDriver X name s0 in
                          bind (setupDriver d (fst tb) (snd tb))
                            (fun _ => ret (LUserData (UDriver d))) s')).
  { intros name tb.
    apply (keeps_registerDriver_then
             (fun d => bind (setupDriver d (fst tb) (snd tb))
                         (fun _ => ret (LUserData (UDriver d))))); [exact Hb |].
    intros d. apply keeps_bind; try apply _; [apply Hset |].
    intros _. apply keeps_ret. apply _. }
  assert (K1 : keeps (keepsWellFormed X KDriver) (esshDriver X args)).
  { unfold esshDriver.
    apply keeps_bind; try apply _; [apply keeps_CheckAny; apply _ | intros first].
    destruct (toLTable first) as [tb |]; [apply Hdecl |].
    apply keeps_bind; try apply _; [apply keeps_CheckString; apply _ | intros name].
    destruct (Nat.eqb (length args) 1).
    - apply (keeps_registerDriver_then (fun d => ret (LUserData (UDriver d))));
        [exact Hb |].
      intros d. apply keeps_ret. apply _.
    - destruct (Nat.eqb (length args) 2); [| apply keeps_panic; apply _].
      apply keeps_bind; try apply _; [apply keeps_CheckTable; apply _ | intros tb].
      apply Hdecl. }
  assert (K2 : keeps (keepsWellFormed X KDriver) (driverCall args)).
  { unfold driverCall.
    apply keeps_bind; try apply _; [apply keeps_checkDriver; apply _ | intros d].
    apply keeps_bind; try apply _; [apply keeps_CheckTable; apply _ | intros tb].
    apply keeps_bind; try apply _; [apply Hset | intros _].
    apply keeps_bind; try apply _; [apply keeps_CheckUserData; apply _ | intros ud].
    apply keeps_ret. apply _. }
  assert (K3 : keeps (keepsWellFormed X KDriver) (driverNewindex X args)).
  { unfold driverNewindex.
    apply keeps_bind; try apply _; [apply keeps_checkDriver; apply _ | intros d].
    apply keeps_bind; try apply _; [apply keeps_CheckString; apply _ | intros key].
    apply keeps_bind; try apply _; [apply keeps_CheckAny; apply _ | intros value].
    apply keeps_bind; try apply _; [apply Hup | intros _].
    apply keeps_ret. apply _. }
  split; [| split].
  - destruct (esshDriver X args s) as [o s'] eqn:E. exact (K1 s o s' E Hw).
  - destruct (driverCall args s) as [o s'] eqn:E. exact (K2 s o s' E Hw).
  - destruct (driverNewindex X args s) as [o s'] eqn:E. exact (K3 s o s' E Hw).
Qed.

(** *** Table-valued host fields *)

Lemma forEachM_inv {A} (I : State World -> Prop) (body : A -> M World unit) xs :
  (forall x s o s', In x xs -> I s -> body x s = (o, s') -> I s') ->
  forall s o s', I s -> forEachM body xs s = (o, s') -> I s'.
Proof.
  induction xs as [| x rest IH]; cbn [forEachM]; intros Hb s o s' Hi H.
  - now injection H as _ <-.
  - unfold bind in H. destruct (body x s) as [r s1] eqn:E.
    assert (Hi1 : I s1) by (eapply Hb; [now left | exact Hi | exact E]).
    destruct r; try (now injection H as _ <-).
    eapply IH; [| exact Hi1 | exact H].
    intros y s0 o0 s0' Hy. apply Hb. now right.
Qed.

Lemma hostAt_alter (f : Host -> Host) h s :
  h < length (hostArena s) ->
  hostAt X (upd_hostArena (alter f h) s) h = f (hostAt X s h).
Proof.
  intros Hh. destruct (lookup_lt_is_Some_2 _ _ Hh) as [x Hx].
  unfold hostAt. cbn. now rewrite list_lookup_alter_eq, Hx.
Qed.

Lemma updateHost_props_eq h array hash s :
  updateHost X h "props" (LTable array hash) s
  = forEachM (fun kv =>
      match toString (fst kv) with
      | None => raiseError ("props table's key must be a string: " +:+ fmtV X (fst kv))
      | Some propsKeyStr =>
          match toString (snd kv) with
          | None =>
              raiseError ("props table's value must be a string: " +:+ fmtV X (snd kv))
          | Some propsValueStr =>
              setHost h (fun x =>
                host_setProps (<[propsKeyStr := propsValueStr]> (hProps x)) x)
          end
      end) (ForEach array hash)
      (upd_hostArena (alter (host_setProps ∅) h)
         (upd_hostArena
            (alter (fun x => host_setLValues
                               (<["props" := LTable array hash]> (hLValues x)) x) h) s)).
Proof. reflexivity. Qed.

Lemma updateHost_tags_eq h array hash s :
  updateHost X h "tags" (LTable array hash) s
  = forEachM (fun kv =>
      match toString (snd kv) with
      | Some vs => setHost h (fun x => host_setTags (hTags x ++ [vs]) x)
      | None => raiseError "unsupported format of tags."
      end) (ForEach array hash)
      (upd_hostArena (alter (host_setTags []) h)
         (upd_hostArena
            (alter (fun x => host_setLValues
                               (<["tags" := LTable array hash]> (hLValues x)) x) h) s)).
Proof. reflexivity. Qed.

(** X20.  Assigning a table to [props] or [tags] of a host replaces the
    old value before the entries are read: however the assignment ends,
    also when an entry is refused halfway, every property the host then
    has is a string entry of the table, and every tag a string value of
    it, keyed or positional. *)
Theorem X20_props_and_tags_are_replaced h array hash s :
  h < length (hostArena s) ->
  (forall k v,
     hProps (hostAt X (snd (updateHost X h "props" (LTable array hash) s)) h) !! k
     = Some v ->
     In (LString k, LString v) (ForEach array hash))
  /\ (forall t,
        In t (hTags (hostAt X (snd (updateHost X h "tags" (LTable array hash) s)) h)) ->
        exists k, In (k, LString t) (ForEach array hash)).
Proof.
  intros Hh. split.
  - rewrite updateHost_props_eq.
    match goal with
    | |- context [forEachM ?body ?xs ?s0] =>
        destruct (forEachM body xs s0) as [o s'] eqn:E
    end.
    cbn [snd].
    set (I := fun s0 : State World =>
                h < length (hostArena s0)
                /\ forall k v, hProps (hostAt X s0 h) !! k = Some v ->
                               In (LString k, LString v) (ForEach array hash)).
    enough (Hi : I s') by exact (proj2 Hi).
    eapply (forEachM_inv I); [| | exact E].
    + clear E. intros [k0 v0] s0 o0 s1 Hin [Hlen Hi] Hbody. cbn [fst snd] in Hbody.
      destruct k0; cbn [toString] in Hbody; try (now injection Hbody as _ <-).
      destruct v0; cbn [toString] in Hbody; try (now injection Hbody as _ <-).
      injection Hbody as _ <-. split; [cbn; now rewrite length_alter |].
      rewrite hostAt_alter by assumption. cbn. intros k v Hl.
      apply lookup_insert_Some in Hl as [[<- <-] | [_ Hl]]; [exact Hin | now apply Hi].
    + split; [cbn; now rewrite !length_alter |].
      rewrite hostAt_alter by (cbn; now rewrite length_alter). cbn.
      intros k v Hl. rewrite lookup_empty in Hl. discriminate.
  - rewrite updateHost_tags_eq.
    match goal with
    | |- context [forEachM ?body ?xs ?s0] =>
        destruct (forEachM body xs s0) as [o s'] eqn:E
    end.
    cbn [snd].
    set (I := fun s0 : State World =>
                h < length (hostArena s0)
                /\ forall t, In t (hTags (hostAt X s0 h)) ->
                             exists k, In (k, LString t) (ForEach array hash)).
    enough (Hi : I s') by exact (proj2 Hi).
    eapply (forEachM_inv I); [| | exact E].
    + clear E. intros [k0 v0] s0 o0 s1 Hin [Hlen Hi] Hbody. cbn [fst snd] in Hbody.
      destruct v0; cbn [toString] in Hbody; try (now injection Hbody as _ <-).
      injection Hbody as _ <-. split; [cbn; now rewrite length_alter |].
      rewrite hostAt_alter by assumption. cbn. intros t Ht.
      apply in_app_or in Ht as [Ht | [<- | []]]; [now apply Hi | eauto].
    + split; [cbn; now rewrite !length_alter |].
      rewrite hostAt_alter by (cbn; now rewrite length_alter). cbn.
      intros t [].
Qed.

End Properties.

(** C1, witness: host ["web01"] declared twice in a fresh process. *)
Lemma C1_witness :
  registryClosed KHost Demo.init
  /\ lookupByName KHost
       (snd (register Demo.ext KHost "web01"
               (snd (register Demo.ext KHost "web01" Demo.init)))) "web01" = Some 1
  /\ overridePredecessor Demo.ext KHost
       (snd (register Demo.ext KHost "web01"
               (snd (register Demo.ext KHost "web01" Demo.init)))) 1 = Some 0.
Proof.
  assert (Hc : registryClosed KHost Demo.init).
  { intros n p H. cbn in H. rewrite lookup_empty in H. discriminate. }
  split; [exact Hc |].
  destruct (C1_redeclaration_shadows Demo.ext KHost "web01" Demo.init 0
              (snd (register Demo.ext KHost "web01" Demo.init)) 1
              (snd (register Demo.ext KHost "web01"
                      (snd (register Demo.ext KHost "web01" Demo.init))))
              Hc eq_refl eq_refl) as (Hl & _ & _ & _ & Hp).
  split; [exact Hl | exact Hp].
Defined.

(** C1, as stated, fails for jobs: after job ["deploy"] is declared twice
    (instances 0 and 1), the name looks up the second job, whose override
    predecessor is not the first. *)
Lemma C1_counterexample_job :
  lookupByName KJob
    (snd (register Demo.ext KJob "deploy"
            (snd (register Demo.ext KJob "deploy" Demo.init)))) "deploy" = Some 1
  /\ fst (register Demo.ext KJob "deploy" Demo.init) = 0
  /\ overridePredecessor Demo.ext KJob
       (snd (register Demo.ext KJob "deploy"
               (snd (register Demo.ext KJob "deploy" Demo.init)))) 1 <> Some 0.
Proof. vm_compute. repeat split; discriminate. Qed.

(** ** The properties on the concrete world *)

(** C2: [driver "docker" { colour = "red" }] is accepted, while the same
    field on a task, a host or a job is rejected by name. *)
Lemma C2_example_unknown_field :
  fst (updateDriver 0 "colour" (LString "red") Demo.withDriver) = Ok tt
  /\ fst (updateTask Demo.ext 1 0 "colour" (LString "red") Demo.withTask)
     = Panic "unsupported task's field 'colour'."
  /\ fst (updateHost Demo.ext 0 "colour" (LString "red") Demo.withHosts)
     = Panic "unsupported host's field 'colour'."
  /\ fst (updateJob Demo.ext 1 0 "colour" (LString "red") Demo.init)
     = Panic "unsupported job's field 'colour'.".
Proof. repeat split; vm_compute; reflexivity. Qed.

(** C3: with host ["web01"] tagged ["web"], [select_hosts("web"):first()]
    should give that host; the call raises instead, while [get] works. *)
Lemma C3_example_first_on_a_match :
  firstOrEmpty Demo.ext 0 Demo.withQuery = LUserData (UHost 0)
  /\ fst (queryMethod Demo.ext 0 "get" [] Demo.withQuery)
     = Ok [LTable [LUserData (UHost 0)] []]
  /\ fst (queryMethod Demo.ext 0 "first" [] Demo.withQuery)
     = Raise "attempt to call a non-function object".
Proof. repeat split; vm_compute; reflexivity. Qed.

(** C4: the examples of the specification.  ["echo hi"] gives one
    segment; a list of a string and a record gives two, in order, the
    boolean spelled out; the list returned by a callable is spliced in. *)
Lemma C4_examples :
  fst (toScript Demo.ext 1 (LString "echo hi") Demo.init)
  = Ok [ {[ "code" := "echo hi" ]} ]
  /\ fst (toScript Demo.ext 2
            (LTable [LString "a";
                     LTable [] [(LString "code", LString "b"); (LString "sudo", LBool true)]]
               []) Demo.init)
     = Ok [ {[ "code" := "a" ]}; <["sudo" := "true"]> {[ "code" := "b" ]} ]
  /\ fst (toScript Demo.ext 3
            (LTable [LString "a"; LFunction (LuaFn 3); LString "z"] []) Demo.init)
     = Ok [ {[ "code" := "a" ]}; {[ "code" := "x" ]}; {[ "code" := "y" ]};
            {[ "code" := "z" ]} ]
  /\ fst (toScript Demo.ext 2 (LTable [] [(LString "sudo", LBool true)]) Demo.init)
     = Err "if a 'script' entry is table, it has to have 'code' property."
  /\ fst (toScript Demo.ext 2 (LNumber 3) Demo.init) = Err "'script' got a invalid value.".
Proof. repeat split; vm_compute; reflexivity. Qed.

(** C6: an entrypoint that imports another module aborts the import. *)
Lemma C6_example_nested_import :
  fst (esshImport Demo.extNested [LString "outer"] Demo.init) = Panic nestedImport.
Proof. vm_compute. reflexivity. Qed.

(** C7: [script_file] first and [script] second fails the same way. *)
Lemma C7_example_other_order :
  fst (updateTask Demo.ext 1 0 "script" (LString "echo hi")
         (snd (updateTask Demo.ext 1 0 "script_file" (LString "deploy.sh") Demo.withTask)))
  = Raise scriptConflict.
Proof. vm_compute. reflexivity. Qed.

(** C8: a callback engine answers ["bash"] and then ["zsh"]: nothing is
    kept from one resolution to the next. *)
Lemma C8_example_not_cached :
  fst (resolveTimes Demo.ext 2 0
         (snd (updateDriver 0 "engine" (LFunction (LuaFn 2)) Demo.withDriver)))
  = [Ok "bash"; Ok "zsh"]
  /\ fst (resolveTimes Demo.ext 1 0
            (snd (updateDriver 0 "engine" (LFunction (LuaFn 1)) Demo.withDriver)))
     = [Err "driver engine has to return a string."].
Proof. split; vm_compute; reflexivity. Qed.



(** C8, witness: driver ["docker"] with a fixed and with a callback
    engine. *)
Lemma C8_witness :
  0 < length (driverArena Demo.withDriver)
  /\ fst (resolveTimes Demo.ext 3 0
            (snd (updateDriver 0 "engine" (LString "bash") Demo.withDriver)))
     = [Ok "bash"; Ok "bash"; Ok "bash"]
  /\ trace (snd (resolveTimes Demo.ext 3 0
                   (snd (updateDriver 0 "engine" (LFunction (LuaFn 2)) Demo.withDriver))))
     = [EvCall (LuaFn 2) [LUserData (UDriver 0)];
        EvCall (LuaFn 2) [LUserData (UDriver 0)];
        EvCall (LuaFn 2) [LUserData (UDriver 0)]].
Proof.
  assert (Hd : 0 < length (driverArena Demo.withDriver)) by (vm_compute; lia).
  destruct (C8_engine_resolution Demo.ext 0 Demo.withDriver Hd) as (Hfixed & Hcall).
  split; [exact Hd |]. split.
  - destruct (Hfixed "bash") as (_ & Hk). rewrite (Hk 3). reflexivity.
  - destruct (Hcall (LuaFn 2)) as (_ & _ & Hk).
    rewrite (Hk (fun a s' => conj eq_refl eq_refl) 3). vm_compute. reflexivity.
Defined.



(** ** Further properties on the concrete world *)

(** X3, witness: in a process with hosts and a driver, [engine = 7] is
    refused by the host and by the driver, and reads back from both. *)
Lemma X3_witness :
  0 < length (hostArena (snd (registerDriver Demo.ext "docker" Demo.withHosts)))
  /\ 0 < length (driverArena (snd (registerDriver Demo.ext "docker" Demo.withHosts)))
  /\ fst (hostIndex Demo.ext [LUserData (UHost 0); LString "engine"]
            (snd (hostNewindex Demo.ext
                    [LUserData (UHost 0); LString "engine"; LNumber 7]
                    (snd (registerDriver Demo.ext "docker" Demo.withHosts)))))
     = Ok (MemberValue (LNumber 7))
  /\ fst (driverIndex Demo.ext [LUserData (UDriver 0); LString "engine"]
            (snd (driverNewindex Demo.ext
                    [LUserData (UDriver 0); LString "engine"; LNumber 7]
                    (snd (registerDriver Demo.ext "docker" Demo.withHosts)))))
     = Ok (MemberValue (LNumber 7)).
Proof.
  assert (Hh : 0 < length (hostArena (snd (registerDriver Demo.ext "docker"
                                             Demo.withHosts))))
    by (vm_compute; lia).
  assert (Hd : 0 < length (driverArena (snd (registerDriver Demo.ext "docker"
                                               Demo.withHosts))))
    by (vm_compute; lia).
  destruct (X3_assigned_field_reads_back Demo.ext 0 0 "engine" (LNumber 7) _ Hh Hd)
    as (H1 & H2 & _).
  split; [exact Hh |]. split; [exact Hd |].
  split; [now rewrite H1 | now rewrite H2].
Defined.

(** X6, witness: host ["web01"] declared twice in a fresh process. *)
Lemma X6_witness :
  blankChild Demo.ext KHost = None
  /\ wellFormed Demo.ext KHost Demo.init
  /\ wellFormed Demo.ext KHost
       (snd (register Demo.ext KHost "web01"
               (snd (register Demo.ext KHost "web01" Demo.init)))).
Proof.
  assert (Hb : blankChild Demo.ext KHost = None) by reflexivity.
  assert (Hw : wellFormed Demo.ext KHost Demo.init).
  { split; [| split].
    - intros n p H. cbn in H. rewrite lookup_empty in H. discriminate.
    - intros n p H. cbn in H. rewrite lookup_empty in H. discriminate.
    - intros p c H. cbn in H. lia. }
  split; [exact Hb |]. split; [exact Hw |].
  apply (X6_register_keeps_registry_well_formed Demo.ext KHost "web01" _ Hb).
  exact (proj1 (X6_register_keeps_registry_well_formed Demo.ext KHost "web01" _ Hb Hw)).
Defined.

(** X7, witness: a host declaration whose configuration is refused. *)
Lemma X7_witness :
  blankChild Demo.ext KHost = None
  /\ wellFormed Demo.ext KHost Demo.init
  /\ fst (esshHost Demo.ext
            [LString "web01"; LTable [] [(LString "colour", LString "red")]] Demo.init)
     = Panic "unsupported host's field 'colour'."
  /\ wellFormed Demo.ext KHost
       (snd (esshHost Demo.ext
               [LString "web01"; LTable [] [(LString "colour", LString "red")]]
               Demo.init)).
Proof.
  assert (Hb : blankChild Demo.ext KHost = None) by reflexivity.
  assert (Hw : wellFormed Demo.ext KHost Demo.init).
  { split; [| split].
    - intros n p H. cbn in H. rewrite lookup_empty in H. discriminate.
    - intros n p H. cbn in H. rewrite lookup_empty in H. discriminate.
    - intros p c H. cbn in H. lia. }
  split; [exact Hb |]. split; [exact Hw |].
  split; [vm_compute; reflexivity |].
  exact (proj1 (X7_host_api_keeps_registry_well_formed Demo.ext _ _ Hb Hw)).
Defined.

(** X11, witness: the network is unreachable on the first import. *)
Lemma X11_witness :
  fst (esshImport Demo.extOffline [LString "github.com/a/b"] Demo.init)
  = Raise "network unreachable"
  /\ registryArena (snd (esshImport Demo.extOffline [LString "github.com/a/b"] Demo.init))
     = registryArena Demo.init
  /\ esshModule (snd (esshImport Demo.extOffline [LString "github.com/a/b"] Demo.init))
     = Some LNil.
Proof.
  assert (H : esshImport Demo.extOffline [LString "github.com/a/b"] Demo.init
              = (Raise "network unreachable",
                 snd (esshImport Demo.extOffline [LString "github.com/a/b"] Demo.init)))
    by (vm_compute; reflexivity).
  destruct (X11_failed_import_leaves_no_mark Demo.extOffline _ _ _ _ H)
    as (Hr & _ & Hm & _).
  split; [now rewrite H |]. split; [exact Hr | exact Hm].
Defined.

(** X12, witness: the entrypoint of ["outer"] fails on its nested import. *)
Lemma X12_witness :
  fst (esshImport Demo.extNested [LString "outer"] Demo.init) = Panic nestedImport
  /\ exists idx s0,
       esshModule s0 = Some (modulevar Demo.extNested idx "outer")
       /\ doFile Demo.extNested idx s0
          = (inl nestedImport,
             snd (esshImport Demo.extNested [LString "outer"] Demo.init)).
Proof.
  assert (H : esshImport Demo.extNested [LString "outer"] Demo.init
              = (Panic nestedImport,
                 snd (esshImport Demo.extNested [LString "outer"] Demo.init)))
    by (vm_compute; reflexivity).
  destruct (X12_failed_entrypoint_blocks_imports Demo.extNested _ _ _ _ _ H)
    as (idx & s0 & Hm & Hd & _).
  split; [now rewrite H |]. exists idx, s0. split; [exact Hm | exact Hd].
Defined.

(** X13, witness: [--update] in a global registry whose package is on
    disk. *)
Lemma X13_witness :
  rType (curReg Demo.globalCached) = RegistryTypeGlobal
  /\ withGlobalFlag Demo.globalCached = false
  /\ updateFlag Demo.globalCached = true
  /\ os_Stat Demo.ext (Package_Dir Demo.ext "github.com/a/b" Demo.globalCached)
       (world Demo.globalCached) = StatOk
  /\ fetches (trace (snd (importPrepare Demo.ext "github.com/a/b" Demo.globalCached)))
     = fetches (trace Demo.globalCached).
Proof.
  assert (Hg : rType (curReg Demo.globalCached) = RegistryTypeGlobal) by reflexivity.
  assert (Hf : withGlobalFlag Demo.globalCached = false) by reflexivity.
  assert (Hs : os_Stat Demo.ext (Package_Dir Demo.ext "github.com/a/b" Demo.globalCached)
                 (world Demo.globalCached) = StatOk) by reflexivity.
  split; [exact Hg |]. split; [exact Hf |]. split; [reflexivity |]. split; [exact Hs |].
  exact (proj1 (X13_global_registry_is_not_updated Demo.ext "github.com/a/b" _ Hg Hf Hs)).
Defined.

(** X14, witness: a list of a string, a callable and a string. *)
Lemma X14_witness :
  fst (toScript Demo.ext 3
         (LTable [LString "a"; LFunction (LuaFn 3); LString "z"] []) Demo.init)
  = Ok [ {[ "code" := "a" ]}; {[ "code" := "x" ]}; {[ "code" := "y" ]};
         {[ "code" := "z" ]} ]
  /\ Forall (fun m : gmap string string => is_Some (m !! "code"))
       [ {[ "code" := "a" ]}; {[ "code" := "x" ]}; {[ "code" := "y" ]};
         {[ "code" := "z" ]} ].
Proof.
  assert (H : toScript Demo.ext 3
                (LTable [LString "a"; LFunction (LuaFn 3); LString "z"] []) Demo.init
              = (Ok [ {[ "code" := "a" ]}; {[ "code" := "x" ]}; {[ "code" := "y" ]};
                      {[ "code" := "z" ]} ],
                 snd (toScript Demo.ext 3
                        (LTable [LString "a"; LFunction (LuaFn 3); LString "z"] [])
                        Demo.init)))
    by (vm_compute; reflexivity).
  split; [now rewrite H |].
  exact (X14_every_segment_has_code Demo.ext _ _ _ _ _ H).
Defined.

(** X15, witness: job ["deploy"] declares host ["web01"] of its own. *)
Lemma X15_witness :
  0 < length (jobArena (snd (registerJob Demo.ext "deploy" Demo.init)))
  /\ fst (updateJob Demo.ext 1 0 "hosts" (LTable [] [(LString "web01", LTable [] [])])
            (snd (registerJob Demo.ext "deploy" Demo.init))) = Ok tt
  /\ jHosts (jobAt Demo.ext
               (snd (updateJob Demo.ext 1 0 "hosts"
                       (LTable [] [(LString "web01", LTable [] [])])
                       (snd (registerJob Demo.ext "deploy" Demo.init)))) 0)
       ⊆ Hosts (snd (updateJob Demo.ext 1 0 "hosts"
                       (LTable [] [(LString "web01", LTable [] [])])
                       (snd (registerJob Demo.ext "deploy" Demo.init))))
  /\ Hosts (snd (updateJob Demo.ext 1 0 "hosts"
                   (LTable [] [(LString "web01", LTable [] [])])
                   (snd (registerJob Demo.ext "deploy" Demo.init)))) !! "web01" = Some 0.
Proof.
  assert (Hj : 0 < length (jobArena (snd (registerJob Demo.ext "deploy" Demo.init))))
    by (vm_compute; lia).
  assert (Hok : fst (updateJob Demo.ext 1 0 "hosts"
                       (LTable [] [(LString "web01", LTable [] [])])
                       (snd (registerJob Demo.ext "deploy" Demo.init))) = Ok tt)
    by (vm_compute; reflexivity).
  split; [exact Hj |]. split; [exact Hok |].
  split; [exact (X15_job_hosts_enter_the_global_registry Demo.ext 1 0 _ _ _ Hj Hok) |].
  vm_compute. reflexivity.
Defined.

(** X19, witness: a driver declaration whose configuration is refused. *)
Lemma X19_witness :
  blankChild Demo.ext KDriver = None
  /\ wellFormed Demo.ext KDriver Demo.init
  /\ fst (esshDriver Demo.ext
            [LString "docker"; LTable [] [(LString "engine", LNumber 7)]] Demo.init)
     = Raise "driver 'engine' have to be a function or string."
  /\ wellFormed Demo.ext KDriver
       (snd (esshDriver Demo.ext
               [LString "docker"; LTable [] [(LString "engine", LNumber 7)]]
               Demo.init)).
Proof.
  assert (Hb : blankChild Demo.ext KDriver = None) by reflexivity.
  assert (Hw : wellFormed Demo.ext KDriver Demo.init).
  { split; [| split].
    - intros n p H. cbn in H. rewrite lookup_empty in H. discriminate.
    - intros n p H. cbn in H. rewrite lookup_empty in H. discriminate.
    - intros p c H. cbn in H. lia. }
  split; [exact Hb |]. split; [exact Hw |].
  split; [vm_compute; reflexivity |].
  exact (proj1 (X19_driver_api_keeps_registry_well_formed Demo.ext _ _ Hb Hw)).
Defined.

(** X20, witness: host ["web01"], tagged ["web"], is given the tags
    [{"db", 7}]: the assignment fails at [7], and ["db"] is the only tag
    left. *)
Lemma X20_witness :
  0 < length (hostArena Demo.withHosts)
  /\ hTags (hostAt Demo.ext Demo.withHosts 0) = ["web"]
  /\ updateHost Demo.ext 0 "tags" (LTable [LString "db"; LNumber 7] []) Demo.withHosts
     = (Raise "unsupported format of tags.",
        snd (updateHost Demo.ext 0 "tags" (LTable [LString "db"; LNumber 7] [])
               Demo.withHosts))
  /\ hTags (hostAt Demo.ext
               (snd (updateHost Demo.ext 0 "tags" (LTable [LString "db"; LNumber 7] [])
                       Demo.withHosts)) 0) = ["db"]
  /\ exists k,
       In (k, LString "db") (ForEach [LString "db"; LNumber 7] []).
Proof.
  assert (Hh : 0 < length (hostArena Demo.withHosts)) by (vm_compute; lia).
  assert (Ht : In "db" (hTags (hostAt Demo.ext
                                 (snd (updateHost Demo.ext 0 "tags"
                                         (LTable [LString "db"; LNumber 7] [])
                                         Demo.withHosts)) 0)))
    by (vm_compute; now left).
  split; [exact Hh |]. split; [vm_compute; reflexivity |].
  split; [vm_compute; reflexivity |]. split; [vm_compute; reflexivity |].
  exact (proj2 (X20_props_and_tags_are_replaced Demo.ext 0 _ _ _ Hh) "db" Ht).
Defined.
